(** * Watering system controller (watering-system/javascript/index.js)

    A shallow embedding of the Node.js program that drives a water pump from
    an hour-of-day schedule, checks the flow sensor after every actuation,
    samples soil moisture into a bounded buffer, and re-plans its recurring
    timers when a new schedule is PUT over HTTP.

    The program is single threaded: request handlers and timer callbacks run
    to completion one after the other.  Each of them is embedded as a
    computation over an explicit [World] (the module-level variables, the
    timer queues, the clock and a log of every call that leaves the program
    and of every answer that comes back).
    A thrown JavaScript exception keeps the assignments made before it, so
    the monad returns the world also on the exceptional path. *)

From Stdlib Require Import List String Ascii ZArith QArith Bool Lia Arith.
From Stdlib Require Import DecimalString.
From Stdlib Require DecimalNat.
Import ListNotations.

Local Open Scope string_scope.
Local Open Scope list_scope.
Local Open Scope Z_scope.

(** ** JavaScript values *)

Module Js.

(** A Number: every finite double is a rational, so finite values are kept
    as the rational they denote (the two zeros are one value). *)
Inductive number : Type :=
| Fin (q : Q)
| PosInf
| NegInf
| NaN.

(** Abstract relational comparison [a < b]; [None] is the "undefined"
    result that a NaN operand produces. *)
Definition compare_lt (a b : number) : option bool :=
  match a, b with
  | NaN, _ | _, NaN => None
  | PosInf, _ => Some false
  | _, PosInf => Some true
  | _, NegInf => Some false
  | NegInf, _ => Some true
  | Fin x, Fin y => Some (match (x ?= y)%Q with Lt => true | _ => false end)
  end.

(** [a < b] *)
Definition lt (a b : number) : bool :=
  match compare_lt a b with
  | Some true => true
  | _ => false
  end.

(** [a >= b], which the language defines as "[a < b] is false" (and not
    undefined). *)
Definition ge (a b : number) : bool :=
  match compare_lt a b with
  | Some false => true
  | _ => false
  end.

Definition ofZ (z : Z) : number := Fin (inject_Z z).

(** *** ToNumber applied to a string *)

(** [n / d] rounded to the nearest integer, ties to the even one
    ([0 <= n], [0 < d]). *)
Definition divNearestEven (n d : Z) : Z :=
  let q := n / d in
  let r := n mod d in
  match 2 * r ?= d with
  | Lt => q
  | Gt => q + 1
  | Eq => if Z.even q then q else q + 1
  end.

(** [a * 2^k] for an integer [a] and any [k]. *)
Definition scale2 (a k : Z) : Q :=
  if 0 <=? k then inject_Z (a * 2 ^ k) else a # Z.to_pos (2 ^ (- k)).

(** The Number value for a positive rational [n / d]: the nearest double
    (53-bit significand, exponents -1022 .. 1023, gradual underflow), ties to
    the even significand, overflowing to [Infinity]. *)
Definition roundPositive (n d : Z) : number :=
  let e0 := Z.log2 n - Z.log2 d in
  let below := if 0 <=? e0 then n <? d * 2 ^ e0 else n * 2 ^ (- e0) <? d in
  let e := Z.max (if below then e0 - 1 else e0) (-1022) in
  let s := e - 52 in
  let m := if 0 <=? s then divNearestEven n (d * 2 ^ s)
           else divNearestEven (n * 2 ^ (- s)) d in
  if 2 ^ 1024 <=? (if 0 <=? s then m * 2 ^ s else 0) then PosInf
  else Fin (Qred (scale2 m s)).

Definition negate (x : number) : number :=
  match x with
  | Fin q => Fin (Qred (- q))
  | PosInf => NegInf
  | NegInf => PosInf
  | NaN => NaN
  end.

(** The Number value for the rational [q] (the model has one zero). *)
Definition roundDouble (q : Q) : number :=
  match Qnum q with
  | Z0 => Fin 0
  | Zpos n => roundPositive (Zpos n) (Zpos (Qden q))
  | Zneg n => negate (roundPositive (Zpos n) (Zpos (Qden q)))
  end.

(** StrWhiteSpaceChar, among the code units below 256. *)
Definition isWhiteSpace (c : ascii) : bool :=
  let n := nat_of_ascii c in
  ((9 <=? n) && (n <=? 13) || (n =? 32) || (n =? 160))%nat.

Fixpoint dropWhile {A} (p : A -> bool) (l : list A) : list A :=
  match l with
  | [] => []
  | x :: rest => if p x then dropWhile p rest else l
  end.

Definition trim (l : list ascii) : list ascii :=
  rev (dropWhile isWhiteSpace (rev (dropWhile isWhiteSpace l))).

(** The value of a digit in the given radix. *)
Definition digitValue (radix : Z) (c : ascii) : option Z :=
  let n := Z.of_nat (nat_of_ascii c) in
  let v := if (48 <=? n) && (n <=? 57) then n - 48
           else if (97 <=? n) && (n <=? 122) then n - 87
           else if (65 <=? n) && (n <=? 90) then n - 55
           else radix in
  if v <? radix then Some v else None.

(** The longest prefix of digits: its value, its length, and what follows. *)
Fixpoint digitsPrefix (radix : Z) (acc : Z) (len : nat) (l : list ascii)
    : Z * nat * list ascii :=
  match l with
  | [] => (acc, len, [])
  | c :: rest =>
      match digitValue radix c with
      | Some v => digitsPrefix radix (acc * radix + v) (S len) rest
      | None => (acc, len, l)
      end
  end.

(** A non-empty run of digits and nothing else. *)
Definition allDigits (radix : Z) (l : list ascii) : option Z :=
  match digitsPrefix radix 0 0 l with
  | (v, S _, []) => Some v
  | _ => None
  end.

(** ExponentPart, when one follows; [None] when what follows is malformed. *)
Definition exponentPart (l : list ascii) : option Z :=
  match l with
  | [] => Some 0
  | c :: rest =>
      if (Ascii.eqb c "e" || Ascii.eqb c "E")%bool then
        match rest with
        | s :: rest' =>
            if Ascii.eqb s "+" then allDigits 10 rest'
            else if Ascii.eqb s "-" then option_map Z.opp (allDigits 10 rest')
            else allDigits 10 rest
        | [] => None
        end
      else None
  end.

(** [m * 10^k] *)
Definition scale10 (m k : Z) : Q :=
  if 0 <=? k then inject_Z (m * 10 ^ k) else m # Z.to_pos (10 ^ (- k)).

(** StrUnsignedDecimalLiteral without [Infinity]: the mathematical value. *)
Definition unsignedDecimal (l : list ascii) : option Q :=
  let '(ip, ilen, rest) := digitsPrefix 10 0 0 l in
  let '(m, flen, rest') :=
    match rest with
    | c :: after =>
        if Ascii.eqb c "." then digitsPrefix 10 ip 0 after else (ip, 0%nat, rest)
    | [] => (ip, 0%nat, rest)
    end in
  match (ilen + flen)%nat with
  | O => None
  | S _ =>
      match exponentPart rest' with
      | Some e => Some (scale10 m (e - Z.of_nat flen))
      | None => None
      end
  end.

Definition infinityLiteral : list ascii := list_ascii_of_string "Infinity".

Definition isInfinity (l : list ascii) : bool :=
  if list_eq_dec ascii_dec l infinityLiteral then true else false.

Definition unsignedNumber (l : list ascii) : number :=
  if isInfinity l then PosInf
  else match unsignedDecimal l with
       | Some q => roundDouble q
       | None => NaN
       end.

(** NonDecimalIntegerLiteral: [0x], [0o], [0b] and their digits. *)
Definition nonDecimal (l : list ascii) : option Z :=
  match l with
  | z :: p :: ds =>
      if Ascii.eqb z "0" then
        if (Ascii.eqb p "x" || Ascii.eqb p "X")%bool then allDigits 16 ds
        else if (Ascii.eqb p "o" || Ascii.eqb p "O")%bool then allDigits 8 ds
        else if (Ascii.eqb p "b" || Ascii.eqb p "B")%bool then allDigits 2 ds
        else None
      else None
  | _ => None
  end.

(** StringToNumber *)
Definition stringToNumber (s : string) : number :=
  match trim (list_ascii_of_string s) with
  | [] => Fin 0
  | (c :: rest) as l =>
      match nonDecimal l with
      | Some v => roundDouble (inject_Z v)
      | None =>
          if Ascii.eqb c "+" then unsignedNumber rest
          else if Ascii.eqb c "-" then negate (unsignedNumber rest)
          else unsignedNumber l
      end
  end.

(** Values that [JSON.parse] builds.  An object is the list of its own
    enumerable properties in enumeration order (keys are pairwise distinct in
    every object a parser builds); strings are sequences of code units. *)
#[warnings="-register-all"]
Inductive json : Type :=
| JNull
| JBool (b : bool)
| JNum (n : number)
| JStr (s : string)
| JArr (elems : list json)
| JObj (props : list (string * json)).

(** The result of reading a property: [None] is [undefined]. *)
Definition jsvalue : Type := option json.

Inductive error : Type :=
| TypeError.

(** ToBoolean *)
Definition truthy (v : jsvalue) : bool :=
  match v with
  | None => false
  | Some JNull => false
  | Some (JBool b) => b
  | Some (JNum (Fin q)) => negb (Qeq_bool q 0)
  | Some (JNum NaN) => false
  | Some (JNum _) => true
  | Some (JStr s) => negb (String.eqb s "")
  | Some (JArr _) => true
  | Some (JObj _) => true
  end.

(** Decimal rendering of an array index / of an integer. *)
Definition indexString (i : nat) : string :=
  NilEmpty.string_of_uint (Nat.to_uint i).

Definition intString (z : Z) : string :=
  NilEmpty.string_of_int (Z.to_int z).

Fixpoint assoc (k : string) (props : list (string * json)) : jsvalue :=
  match props with
  | [] => None
  | (k', v) :: rest => if String.eqb k' k then Some v else assoc k rest
  end.

(** The index that a property key denotes in a sequence of [n] elements. *)
Definition indexOfKey (k : string) (n : nat) : option nat :=
  find (fun i => String.eqb (indexString i) k) (seq 0 n).

Definition charAt (s : string) (i : nat) : jsvalue :=
  match String.get i s with
  | Some c => Some (JStr (String c EmptyString))
  | None => None
  end.

End Js.

Import Js.

(** Outcome of running a piece of the program: normal completion with a
    value, or an exception propagating to the caller. *)
Inductive result (A : Type) : Type :=
| Ok (a : A)
| Throw (e : error).

Arguments Ok {A} a.
Arguments Throw {A} e.

(** [Object.keys(v)].  [null] has no object wrapper and throws; the other
    primitives are coerced (ES2015): a string lists its indices, numbers and
    booleans have no own enumerable property. *)
Definition objectKeys (v : json) : result (list string) :=
  match v with
  | JNull => Throw TypeError
  | JObj props => Ok (map fst props)
  | JArr elems => Ok (map indexString (seq 0 (List.length elems)))
  | JStr s => Ok (map indexString (seq 0 (String.length s)))
  | JBool _ | JNum _ => Ok []
  end.

(** [v[k]] / [v.k].  Reading a property of [undefined] or [null] throws.
    The program only reads own keys of the schedule and the names [on] and
    [off], which no built-in prototype defines, so inherited properties are
    not modelled. *)
Definition getProp (v : jsvalue) (k : string) : result jsvalue :=
  match v with
  | None | Some JNull => Throw TypeError
  | Some (JObj props) => Ok (assoc k props)
  | Some (JArr elems) =>
      if String.eqb k "length" then Ok (Some (JNum (ofZ (Z.of_nat (List.length elems)))))
      else match indexOfKey k (List.length elems) with
           | Some i => Ok (nth_error elems i)
           | None => Ok None
           end
  | Some (JStr s) =>
      if String.eqb k "length" then Ok (Some (JNum (ofZ (Z.of_nat (String.length s)))))
      else match indexOfKey k (String.length s) with
           | Some i => Ok (charAt s i)
           | None => Ok None
           end
  | Some (JBool _) | Some (JNum _) => Ok None
  end.

(** ** Program state *)

(** The argument handed to [later]: [{ schedules: [ { h: [...] } ] }]. *)
Record recurrence : Type := { h : list number }.
Record laterSchedule : Type := { schedules : list recurrence }.

(** What a recurring [later] timer calls. *)
Inductive action : Type :=
| TurnOn
| TurnOff.

(** The functions handed to [setTimeout] / [setInterval]. *)
Inductive callback : Type :=
| CheckFlowOn        (* checkFlowOn *)
| CheckFlowOff       (* checkFlowOff *)
| FlowOnDeadline     (* the anonymous function armed by checkFlowOn *)
| FlowOffDeadline    (* the anonymous function armed by checkFlowOff *)
| MonitorTick.       (* the anonymous function armed by monitor *)

(** An object returned by [later.setInterval]; [cleared] is set by its
    [clear()] method. *)
Record laterTimer : Type := {
  fn : action;
  sched : laterSchedule;
  cleared : bool
}.

(** A pending Node timer: due instant (ms), callback, and the period when it
    was armed by [setInterval]. *)
Record timeout : Type := {
  due : Z;
  cb : callback;
  every : option Z
}.

(** An entry of [MOISTURE]; [time] is the instant whose ISO rendering the
    program stores. *)
Record sample : Type := { value : Z; time : Z }.

(** Calls that leave the program, in the order they are made, and the
    answers of the two remote services, when they come in. *)
Inductive event : Type :=
| ConsoleLog (msg : string)
| ConsoleLogArg (msg : string) (arg : jsvalue)   (* console.log(msg, arg) *)
| ConsoleError (msg : string) (arg : jsvalue)    (* console.error(msg, arg) *)
| RequestPut (server token : json) (ev : string)
| SendMessage (to from : jsvalue) (body : string)
| PumpDirOut
| PumpWrite (level : Z)
| FlowClear
| FlowStart
| FlowRate (r : number)
| MoistureValue (v : Z)
| SetTimeout (f : callback) (delay : Z)
| SetInterval (f : callback) (period : Z)
| LaterSetInterval (f : action) (s : laterSchedule)
| LaterClear (id : nat)
| PutAnswered (err res : jsvalue)
| SmsAnswered (err response : jsvalue).

Record World : Type := {
  (* config.json, parsed once at start-up *)
  config : list (string * json);
  (* module-level variables *)
  SCHEDULE : json;
  MOISTURE : list sample;
  intervals : list nat;
  (* every object [later.setInterval] has returned, by allocation index *)
  laterTimers : list laterTimer;
  (* Node's timer queue and clock *)
  timeouts : list timeout;
  now : Z;
  (* the sensors, as the reading each returns at a given instant *)
  flowSensor : Z -> number;
  moistureSensor : Z -> Z;
  (* log of outgoing calls, each stamped with the clock *)
  trace : list (Z * event)
}.

Definition setSchedule (d : json) (w : World) : World :=
  {| config := config w; SCHEDULE := d; MOISTURE := MOISTURE w;
     intervals := intervals w; laterTimers := laterTimers w;
     timeouts := timeouts w; now := now w; flowSensor := flowSensor w;
     moistureSensor := moistureSensor w; trace := trace w |}.

Definition setMoisture (m : list sample) (w : World) : World :=
  {| config := config w; SCHEDULE := SCHEDULE w; MOISTURE := m;
     intervals := intervals w; laterTimers := laterTimers w;
     timeouts := timeouts w; now := now w; flowSensor := flowSensor w;
     moistureSensor := moistureSensor w; trace := trace w |}.

Definition setIntervals (l : list nat) (w : World) : World :=
  {| config := config w; SCHEDULE := SCHEDULE w; MOISTURE := MOISTURE w;
     intervals := l; laterTimers := laterTimers w;
     timeouts := timeouts w; now := now w; flowSensor := flowSensor w;
     moistureSensor := moistureSensor w; trace := trace w |}.

Definition setLaterTimers (l : list laterTimer) (w : World) : World :=
  {| config := config w; SCHEDULE := SCHEDULE w; MOISTURE := MOISTURE w;
     intervals := intervals w; laterTimers := l;
     timeouts := timeouts w; now := now w; flowSensor := flowSensor w;
     moistureSensor := moistureSensor w; trace := trace w |}.

Definition setTimeouts (l : list timeout) (w : World) : World :=
  {| config := config w; SCHEDULE := SCHEDULE w; MOISTURE := MOISTURE w;
     intervals := intervals w; laterTimers := laterTimers w;
     timeouts := l; now := now w; flowSensor := flowSensor w;
     moistureSensor := moistureSensor w; trace := trace w |}.

Definition setNow (t : Z) (w : World) : World :=
  {| config := config w; SCHEDULE := SCHEDULE w; MOISTURE := MOISTURE w;
     intervals := intervals w; laterTimers := laterTimers w;
     timeouts := timeouts w; now := t; flowSensor := flowSensor w;
     moistureSensor := moistureSensor w; trace := trace w |}.

Definition setTrace (l : list (Z * event)) (w : World) : World :=
  {| config := config w; SCHEDULE := SCHEDULE w; MOISTURE := MOISTURE w;
     intervals := intervals w; laterTimers := laterTimers w;
     timeouts := timeouts w; now := now w; flowSensor := flowSensor w;
     moistureSensor := moistureSensor w; trace := l |}.

(** ** The monad of the control thread *)

Definition M (A : Type) : Type := World -> result A * World.

Definition ret {A} (a : A) : M A := fun w => (Ok a, w).

Definition bind {A B} (m : M A) (k : A -> M B) : M B :=
  fun w =>
    match m w with
    | (Ok a, w') => k a w'
    | (Throw e, w') => (Throw e, w')
    end.

Definition lift {A} (r : result A) : M A := fun w => (r, w).

Definition gets {A} (f : World -> A) : M A := fun w => (Ok (f w), w).

Definition modify (f : World -> World) : M unit := fun w => (Ok tt, f w).

Declare Scope js_scope.
Delimit Scope js_scope with js.
Notation "x <- m ;; k" := (bind m (fun x => k))
  (at level 61, m at next level, right associativity) : js_scope.
Notation "m ;; k" := (bind m (fun _ => k))
  (at level 61, right associativity) : js_scope.
Local Open Scope js_scope.

Definition exec {A} (m : M A) (w : World) : World := snd (m w).
Definition outcome {A} (m : M A) (w : World) : result A := fst (m w).

(** Record an outgoing call. *)
Definition emit (e : event) : M unit :=
  modify (fun w => setTrace (trace w ++ [(now w, e)]) w).

(** [when c m] is [if (c) { m }]. *)
Definition when (c : bool) (m : M unit) : M unit :=
  if c then m else ret tt.

(** ** Notification and alerting *)

Definition configProp (k : string) : M jsvalue :=
  gets (fun w => assoc k (config w)).

(** [log(event)]: print, then PUT the event to the data store when both
    [SERVER] and [AUTH_TOKEN] are configured.  The value sent is the event
    followed by the ISO rendering of the instant the entry is stamped with;
    the response callback is [logCallback], run when the answer comes in. *)
Definition log (ev : string) : M unit :=
  emit (ConsoleLog ev) ;;
  server <- configProp "SERVER" ;;
  token <- configProp "AUTH_TOKEN" ;;
  if negb (truthy server) || negb (truthy token) then ret tt
  else
    match server, token with
    | Some s, Some t => emit (RequestPut s t ev)
    | _, _ => ret tt
    end.

(** The function [callback] that [log] hands to the request.  It is
    called with the error, if any, and the response; [res.text] is read
    before anything is printed. *)
Definition logCallback (err res : jsvalue) : M unit :=
  if truthy err then
    text <- lift (getProp res "text") ;;
    emit (ConsoleError "err:" text)
  else emit (ConsoleLog "Server notified").

(** [alert()]: print, then send the SMS when both Twilio credentials are
    configured; the callback handed over is [alertCallback]. *)
Definition alert : M unit :=
  emit (ConsoleLog "Watering system alert") ;;
  sid <- configProp "TWILIO_ACCT_SID" ;;
  tok <- configProp "TWILIO_AUTH_TOKEN" ;;
  if negb (truthy sid) || negb (truthy tok) then ret tt
  else
    to <- configProp "NUMBER_TO_SEND_TO" ;;
    from <- configProp "TWILIO_OUTGOING_NUMBER" ;;
    emit (SendMessage to from "watering system alarm").

(** The function that [alert] hands to [twilio.sendMessage]. *)
Definition alertCallback (err response : jsvalue) : M unit :=
  if truthy err then emit (ConsoleError "err:" err)
  else emit (ConsoleLogArg "SMS sent" response).

(** ** Flow verification *)

(** [setTimeout(f, delay)] *)
Definition setTimeout (f : callback) (delay : Z) : M unit :=
  emit (SetTimeout f delay) ;;
  modify (fun w =>
    setTimeouts (timeouts w ++ [{| due := now w + delay; cb := f; every := None |}]) w).

(** [setInterval(f, period)] *)
Definition setInterval (f : callback) (period : Z) : M unit :=
  emit (SetInterval f period) ;;
  modify (fun w =>
    setTimeouts (timeouts w ++ [{| due := now w + period; cb := f; every := Some period |}]) w).

(** [flow.flowRate()] *)
Definition flowRate : M number :=
  r <- gets (fun w => flowSensor w (now w)) ;;
  emit (FlowRate r) ;;
  ret r.

Definition flowOnDeadline : M unit :=
  r <- flowRate ;;
  when (Js.lt r (ofZ 1)) alert.

Definition flowOffDeadline : M unit :=
  r <- flowRate ;;
  when (Js.ge r (Fin (1 # 2))) alert.

Definition checkFlowOn : M unit :=
  emit FlowClear ;;
  emit FlowStart ;;
  setTimeout FlowOnDeadline 2000.

Definition checkFlowOff : M unit :=
  emit FlowClear ;;
  emit FlowStart ;;
  setTimeout FlowOffDeadline 2000.

(** ** Actuation *)

Definition turnOn : M unit :=
  log "on" ;;
  emit (PumpWrite 1) ;;
  setTimeout CheckFlowOn 10000.

Definition turnOff : M unit :=
  log "off" ;;
  emit (PumpWrite 0) ;;
  setTimeout CheckFlowOff 10000.

(** ** Schedule planning *)

(** [toInt(h) = +h]: unary plus on a property key, that is, ToNumber of a
    string. *)
Definition toInt (hk : string) : number := stringToNumber hk.

(** [Array.prototype.filter] with a predicate that may throw. *)
Fixpoint filterM (p : string -> M bool) (l : list string) : M (list string) :=
  match l with
  | [] => ret []
  | x :: rest =>
      b <- p x ;;
      rest' <- filterM p rest ;;
      ret (if b then x :: rest' else rest')
  end.

Definition isOn (hk : string) : M bool :=
  s <- gets SCHEDULE ;;
  flags <- lift (getProp (Some s) hk) ;;
  v <- lift (getProp flags "on") ;;
  ret (truthy v).

Definition isOff (hk : string) : M bool :=
  s <- gets SCHEDULE ;;
  flags <- lift (getProp (Some s) hk) ;;
  v <- lift (getProp flags "off") ;;
  ret (truthy v).

Definition onSchedule : M laterSchedule :=
  s <- gets SCHEDULE ;;
  keys <- lift (objectKeys s) ;;
  hs <- filterM isOn keys ;;
  ret {| schedules := [ {| h := map toInt hs |} ] |}.

Definition offSchedule : M laterSchedule :=
  s <- gets SCHEDULE ;;
  keys <- lift (objectKeys s) ;;
  hs <- filterM isOff keys ;;
  ret {| schedules := [ {| h := map toInt hs |} ] |}.

(** [later.setInterval(f, s)]: allocates a recurring timer and returns it.
    The library call itself is taken not to throw. *)
Definition laterSetInterval (f : action) (s : laterSchedule) : M nat :=
  id <- gets (fun w => List.length (laterTimers w)) ;;
  emit (LaterSetInterval f s) ;;
  modify (fun w =>
    setLaterTimers (laterTimers w ++ [{| fn := f; sched := s; cleared := false |}]) w) ;;
  ret id.

Fixpoint markCleared (id : nat) (l : list laterTimer) : list laterTimer :=
  match l, id with
  | [], _ => []
  | t :: rest, O => {| fn := fn t; sched := sched t; cleared := true |} :: rest
  | t :: rest, S id' => t :: markCleared id' rest
  end.

(** [interval.clear()] *)
Definition laterClear (id : nat) : M unit :=
  emit (LaterClear id) ;;
  modify (fun w => setLaterTimers (markCleared id (laterTimers w)) w).

Fixpoint forEach {A} (f : A -> M unit) (l : list A) : M unit :=
  match l with
  | [] => ret tt
  | x :: rest => f x ;; forEach f rest
  end.

Definition updateSchedule (data : json) : M unit :=
  modify (setSchedule data) ;;
  old <- gets intervals ;;
  forEach laterClear old ;;
  onS <- onSchedule ;;
  tOn <- laterSetInterval TurnOn onS ;;
  offS <- offSchedule ;;
  tOff <- laterSetInterval TurnOff offS ;;
  modify (setIntervals [tOn; tOff]).

(** ** Moisture monitoring *)

(** [moisture.value()] *)
Definition moistureValue : M Z :=
  v <- gets (fun w => moistureSensor w (now w)) ;;
  emit (MoistureValue v) ;;
  ret v.

(** The function armed by [monitor()]. *)
Definition monitorTick : M unit :=
  v <- moistureValue ;;
  t <- gets now ;;
  modify (fun w => setMoisture (MOISTURE w ++ [{| value := v; time := t |}]) w) ;;
  log ("moisture (" ++ intString v ++ ")")%string ;;
  m <- gets MOISTURE ;;
  when (Nat.ltb 20 (List.length m)) (modify (fun w => setMoisture (tl (MOISTURE w)) w)).

Definition monitor : M unit :=
  setInterval MonitorTick (1 * 30 * 1000).

(** ** Timers firing *)

Definition runCallback (f : callback) : M unit :=
  match f with
  | CheckFlowOn => checkFlowOn
  | CheckFlowOff => checkFlowOff
  | FlowOnDeadline => flowOnDeadline
  | FlowOffDeadline => flowOffDeadline
  | MonitorTick => monitorTick
  end.

Definition runAction (a : action) : M unit :=
  match a with
  | TurnOn => turnOn
  | TurnOff => turnOff
  end.

(** The pending timer that is due first (the one armed first among equals),
    and the queue without it. *)
Fixpoint pickNext (l : list timeout) : option (timeout * list timeout) :=
  match l with
  | [] => None
  | t :: rest =>
      match pickNext rest with
      | None => Some (t, [])
      | Some (m, rest') =>
          if due t <=? due m then Some (t, rest) else Some (m, t :: rest')
      end
  end.

(** Node fires the next pending timer: the clock is at its due instant, or
    already past it when Node is late; an interval is re-armed one period
    after the instant it fires at; and the callback runs. *)
Definition fireNext (w : World) : option World :=
  match pickNext (timeouts w) with
  | None => None
  | Some (t, rest) =>
      let at_ := Z.max (now w) (due t) in
      let rest' :=
        match every t with
        | Some p => (rest ++ [{| due := at_ + p; cb := cb t; every := Some p |}])%list
        | None => rest
        end in
      Some (exec (runCallback (cb t)) (setNow at_ (setTimeouts rest' w)))
  end.

(** The [later] library finds a recurring timer due: a cleared timer calls
    nothing.  The library is not part of the repository, so the instants are
    left open: any live timer may be called at any time, whatever its
    recurrence. *)
Definition fireLater (id : nat) : M unit :=
  timers <- gets laterTimers ;;
  match nth_error timers id with
  | Some t => if cleared t then ret tt else runAction (fn t)
  | None => ret tt
  end.

(** Number of log entries whose event satisfies [p]. *)
Definition countIf (p : event -> bool) (tr : list (Z * event)) : nat :=
  List.length (filter (fun te => p (snd te)) tr).

Definition isRequestPut (e : event) : bool :=
  match e with
  | RequestPut _ _ _ => true
  | _ => false
  end.

Definition isSendMessage (e : event) : bool :=
  match e with
  | SendMessage _ _ _ => true
  | _ => false
  end.

Definition isPutAnswered (e : event) : bool :=
  match e with
  | PutAnswered _ _ => true
  | _ => false
  end.

Definition isSmsAnswered (e : event) : bool :=
  match e with
  | SmsAnswered _ _ => true
  | _ => false
  end.

(** Calls that satisfy [sent] and whose callback has not been run yet. *)
Definition unanswered (sent answered : event -> bool) (w : World) : nat :=
  countIf sent (trace w) - countIf answered (trace w).

(** The data store answers a request, or the request fails: the library
    calls back with whatever error and response it has. *)
Definition putAnswered (err res : jsvalue) : M unit :=
  emit (PutAnswered err res) ;;
  logCallback err res.

(** Twilio answers, or sending fails. *)
Definition smsAnswered (err response : jsvalue) : M unit :=
  emit (SmsAnswered err response) ;;
  alertCallback err response.

Definition live (t : laterTimer) : bool := negb (cleared t).

(** The recurring timers that can still fire. *)
Definition liveTimers (w : World) : list laterTimer :=
  filter live (laterTimers w).

(** ** HTTP routes and start-up *)

(** GET /schedule *)
Definition getSchedule : M json :=
  s <- gets SCHEDULE ;;
  ret (JObj [("data", s)]).

(** PUT /schedule *)
Definition update (body : json) : M string :=
  updateSchedule body ;;
  ret "ok".

(** GET /on and GET /off *)
Definition onRoute : M string := turnOn ;; ret "".
Definition offRoute : M string := turnOff ;; ret "".

Definition hourFlags (on_ off_ : bool) : json :=
  JObj [("on", JBool on_); ("off", JBool off_)].

(** The schedule built by the start-up loop: hours 0..23, all flags false. *)
Definition initialSchedule : json :=
  JObj (map (fun i => (indexString i, hourFlags false false)) (seq 0 24)).

(** The state when the module body has run, before [main()]: the pump pin
    is an output, the schedule has its 24 hours, nothing else is held. *)
Definition boot (cfg : list (string * json)) (fs : Z -> number)
    (ms : Z -> Z) (t0 : Z) : World :=
  {| config := cfg; SCHEDULE := initialSchedule; MOISTURE := [];
     intervals := []; laterTimers := []; timeouts := []; now := t0;
     flowSensor := fs; moistureSensor := ms; trace := [(t0, PumpDirOut)] |}.

(** [main()]: [server()] only registers the routes above (and GET /, which
    renders [MOISTURE] into the page and changes nothing). *)
Definition main : M unit := monitor.

(** States the running program can be in: after start-up, any request may
    arrive, the next Node timer may fire (at its due instant or later, when
    the clock has passed it), the [later] library may find a recurring timer
    due, a remote call that is still open may be answered, and time passes.
    An exception that escapes a timer or a response callback ends the
    process; the state it leaves is kept, with the steps that could follow
    it, which only adds states. *)
Inductive reachable : World -> Prop :=
| reach_main cfg fs ms t0 :
    reachable (exec main (boot cfg fs ms t0))
| reach_update w body :
    reachable w -> reachable (exec (update body) w)
| reach_on w :
    reachable w -> reachable (exec onRoute w)
| reach_off w :
    reachable w -> reachable (exec offRoute w)
| reach_timeout w w' :
    reachable w -> fireNext w = Some w' -> reachable w'
| reach_later w id :
    reachable w -> reachable (exec (fireLater id) w)
| reach_put_answered w err res :
    reachable w -> (0 < unanswered isRequestPut isPutAnswered w)%nat ->
    reachable (exec (putAnswered err res) w)
| reach_sms_answered w err response :
    reachable w -> (0 < unanswered isSendMessage isSmsAnswered w)%nat ->
    reachable (exec (smsAnswered err response) w)
| reach_wait w t :
    reachable w -> now w <= t ->
    reachable (setNow t w).

(** * Vocabulary of the statements and proofs *)

(** The entries a computation appended to the log. *)
Definition emitted {A} (m : M A) (w : World) : list (Z * event) :=
  skipn (List.length (trace w)) (trace (exec m w)).

(** The entries logged on the way from state [w] to state [w']. *)
Definition loggedSince (w w' : World) : list (Z * event) :=
  skipn (List.length (trace w)) (trace w').

(** Entries that [log(ev)] appends. *)
Definition logEvents (ev : string) (w : World) : list (Z * event) :=
  (now w, ConsoleLog ev) ::
  match assoc "SERVER" (config w), assoc "AUTH_TOKEN" (config w) with
  | Some s, Some t =>
      if truthy (Some s) && truthy (Some t) then [(now w, RequestPut s t ev)] else []
  | _, _ => []
  end.

(** Entries that [alert()] appends. *)
Definition alertEvents (w : World) : list (Z * event) :=
  (now w, ConsoleLog "Watering system alert") ::
  if truthy (assoc "TWILIO_ACCT_SID" (config w)) && truthy (assoc "TWILIO_AUTH_TOKEN" (config w))
  then [(now w, SendMessage (assoc "NUMBER_TO_SEND_TO" (config w))
                            (assoc "TWILIO_OUTGOING_NUMBER" (config w))
                            "watering system alarm")]
  else [].

(** Entries that the answer of the data store appends: the answer, then
    what [logCallback] prints. *)
Definition putAnsweredEvents (err res : jsvalue) (w : World) : list (Z * event) :=
  (now w, PutAnswered err res) ::
  if truthy err then
    match getProp res "text" with
    | Ok text => [(now w, ConsoleError "err:" text)]
    | Throw _ => []
    end
  else [(now w, ConsoleLog "Server notified")].

(** Entries that the answer of Twilio appends. *)
Definition smsAnsweredEvents (err response : jsvalue) (w : World) : list (Z * event) :=
  (now w, SmsAnswered err response) ::
  if truthy err then [(now w, ConsoleError "err:" err)]
  else [(now w, ConsoleLogArg "SMS sent" response)].

(** An answer of a remote service, or a line that a response callback
    prints. *)
Definition isAnswerEvent (e : event) : bool :=
  match e with
  | PutAnswered _ _ | SmsAnswered _ _ | ConsoleError _ _ | ConsoleLogArg _ _ => true
  | ConsoleLog m => String.eqb m "Server notified"
  | _ => false
  end.

Definition answerEntries (w : World) (es : list (Z * event)) : Prop :=
  Forall (fun te => fst te = now w /\ isAnswerEvent (snd te) = true) es.

Definition armed (f : callback) (delay : Z) (w : World) : timeout :=
  {| due := now w + delay; cb := f; every := None |}.

(** Entries appended by the deadline callback of a verification window: the
    reading, then the alert when [failing] holds of it. *)
Definition deadlineEvents (failing : number -> bool) (w : World) : list (Z * event) :=
  let r := flowSensor w (now w) in
  (now w, FlowRate r) :: if failing r then alertEvents w else [].

(** ** Planning, as a function of the schedule alone *)

(** [SCHEDULE[hk].flag], coerced to a boolean as [filter] does. *)
Definition flagOf (flag : string) (data : json) (hk : string) : result bool :=
  match getProp (Some data) hk with
  | Ok flags =>
      match getProp flags flag with
      | Ok v => Ok (truthy v)
      | Throw e => Throw e
      end
  | Throw e => Throw e
  end.

Fixpoint filterR (p : string -> result bool) (l : list string) : result (list string) :=
  match l with
  | [] => Ok []
  | x :: rest =>
      match p x with
      | Ok b =>
          match filterR p rest with
          | Ok rest' => Ok (if b then x :: rest' else rest')
          | Throw e => Throw e
          end
      | Throw e => Throw e
      end
  end.

(** The keys of [data] whose [flag] is truthy, in key order. *)
Definition triggerKeys (flag : string) (data : json) : result (list string) :=
  match objectKeys data with
  | Ok keys => filterR (flagOf flag data) keys
  | Throw e => Throw e
  end.

Definition planned (hs : list string) : laterSchedule :=
  {| schedules := [ {| h := map toInt hs |} ] |}.

(** All trigger hours a recurring timer was given. *)
Definition triggerHours (t : laterTimer) : list number :=
  flat_map h (schedules (sched t)).

Definition plannedR (r : result (list string)) : result laterSchedule :=
  match r with
  | Ok hs => Ok (planned hs)
  | Throw e => Throw e
  end.

(** Whether a computation result is a normal completion. *)
Definition isOk {A} (r : result A) : bool :=
  match r with
  | Ok _ => true
  | Throw _ => false
  end.

(** ** Tearing down and re-planning *)

Definition clearedTimer (t : laterTimer) : laterTimer :=
  {| fn := fn t; sched := sched t; cleared := true |}.

Definition clearAll (ids : list nat) (l : list laterTimer) : list laterTimer :=
  fold_left (fun acc id => markCleared id acc) ids l.

Definition clearEvents (ids : list nat) (w : World) : list (Z * event) :=
  map (fun id => (now w, LaterClear id)) ids.

(** The state when the old timers have been torn down and planning threw. *)
Definition torn (data : json) (w : World) : World :=
  setLaterTimers (clearAll (intervals w) (laterTimers w))
    (setTrace (trace w ++ clearEvents (intervals w) w) (setSchedule data w)).

Definition onTimer (hs : list string) : laterTimer :=
  {| fn := TurnOn; sched := planned hs; cleared := false |}.

Definition offTimer (hs : list string) : laterTimer :=
  {| fn := TurnOff; sched := planned hs; cleared := false |}.

(** The state when both fresh timers have been installed. *)
Definition replanned (data : json) (hsOn hsOff : list string) (w : World) : World :=
  let n := List.length (laterTimers w) in
  setIntervals [n; S n]
    (setLaterTimers
       (clearAll (intervals w) (laterTimers w) ++ [onTimer hsOn; offTimer hsOff])
       (setTrace
          (trace w ++ clearEvents (intervals w) w ++
           [(now w, LaterSetInterval TurnOn (planned hsOn));
            (now w, LaterSetInterval TurnOff (planned hsOff))])
          (setSchedule data w))).

(** ** The moisture tick *)

Definition tickSample (w : World) : sample :=
  {| value := moistureSensor w (now w); time := now w |}.

(** [push], then [shift] when more than 20 entries are held. *)
Definition pushBounded (m : list sample) (s : sample) : list sample :=
  if Nat.ltb 20 (List.length (m ++ [s])) then tl (m ++ [s]) else m ++ [s].

(** ** Invariants of the running program *)

(** The moisture readings taken so far, as recorded in the log. *)
Definition samplesOf (tr : list (Z * event)) : list sample :=
  flat_map (fun te =>
              match snd te with
              | MoistureValue v => [{| value := v; time := fst te |}]
              | _ => []
              end) tr.

Record invariant (w : World) : Prop := {
  (* every recurring timer that can still fire is held in [intervals] *)
  inv_tracked : forall id t,
    nth_error (laterTimers w) id = Some t -> cleared t = false -> In id (intervals w);
  (* [MOISTURE] is the tail of the readings taken *)
  inv_history :
    MOISTURE w =
    skipn (List.length (samplesOf (trace w)) - 20) (samplesOf (trace w))
}.

(** A step that touches neither the schedule, the recurring timers nor the
    moisture buffer: it only logs and arms Node timers. *)
Record quietStep (w w' : World) : Prop := {
  qs_schedule : SCHEDULE w' = SCHEDULE w;
  qs_moisture : MOISTURE w' = MOISTURE w;
  qs_intervals : intervals w' = intervals w;
  qs_later : laterTimers w' = laterTimers w;
  qs_now : now w' = now w;
  qs_trace : exists es, trace w' = trace w ++ es /\ samplesOf es = [];
  qs_timeouts : exists ts, timeouts w' = timeouts w ++ ts
}.

(** The state in which the callback of the timer picked from the queue
    starts to run. *)
Definition dequeued (t : timeout) (rest : list timeout) (w : World) : World :=
  let at_ := Z.max (now w) (due t) in
  setNow at_
    (setTimeouts
       match every t with
       | Some p => (rest ++ [{| due := at_ + p; cb := cb t; every := Some p |}])%list
       | None => rest
       end w).

(** ** Flow verification *)

Definition isAlert (e : event) : bool :=
  match e with
  | ConsoleLog m => String.eqb m "Watering system alert"
  | _ => false
  end.

(** Number of times [alert()] was entered. *)
Definition alertsRaised (tr : list (Z * event)) : nat :=
  List.length (filter (fun te => isAlert (snd te)) tr).

(** ** Actuation *)

(** [a] is logged, and [b] is logged later. *)
Definition before (a b : event) (tr : list (Z * event)) : Prop :=
  exists l1 l2 l3 ta tb, tr = l1 ++ (ta, a) :: l2 ++ (tb, b) :: l3.

(** Some entry satisfying [pa] is followed by one satisfying [pb]. *)
Fixpoint followed (pa pb : event -> bool) (tr : list (Z * event)) : bool :=
  match tr with
  | [] => false
  | te :: rest =>
      (pa (snd te) && existsb (fun x => pb (snd x)) rest) || followed pa pb rest
  end.

Definition isPumpWrite (e : event) : bool :=
  match e with
  | PumpWrite _ => true
  | _ => false
  end.

Definition isConsoleLog (e : event) : bool :=
  match e with
  | ConsoleLog _ => true
  | _ => false
  end.

(** ** Timing of a verification window *)

Definition isFlowRate (e : event) : bool :=
  match e with
  | FlowRate _ => true
  | _ => false
  end.


(** [n] timers fire in a row. *)
Fixpoint fireN (n : nat) (w : World) : World :=
  match n with
  | O => w
  | S k =>
      match fireNext w with
      | Some w' => fireN k w'
      | None => w
      end
  end.

(** ** Moisture history *)

(** The most recent [k] entries of [l], oldest first. *)
Definition lastN {A} (k : nat) (l : list A) : list A :=
  skipn (List.length l - k) l.

(** ** Inputs on which re-planning completes *)

Definition isNull (v : json) : bool :=
  match v with
  | JNull => true
  | _ => false
  end.

(** No property of the object is [null]. *)
Definition noNullValue (props : list (string * json)) : bool :=
  forallb (fun kv => negb (isNull (snd kv))) props.

(** ** Schedules of the shape the start-up loop builds *)

(** [{ on: <boolean>, off: <boolean> }] *)
Definition isHourFlags (v : json) : bool :=
  match v with
  | JObj fl =>
      match assoc "on" fl, assoc "off" fl with
      | Some (JBool _), Some (JBool _) => true
      | _, _ => false
      end
  | _ => false
  end.

Definition hourKeys : list string := map indexString (seq 0 24).

(** An object with exactly the keys "0" .. "23", each holding hour flags. *)
Definition validSchedule (s : json) : bool :=
  match s with
  | JObj props =>
      (if list_eq_dec string_dec (map fst props) hourKeys then true else false) &&
      forallb (fun kv => isHourFlags (snd kv)) props
  | _ => false
  end.

(** ** Sample states and request bodies *)

(** Just started, nothing configured, no flow, moisture reading 300. *)
Definition quiet (t : Z) : World :=
  exec main (boot [] (fun _ => Fin 0) (fun _ => 300) t).

(** A world in which a valid schedule has been installed: two live timers. *)
Definition active (t : Z) : World :=
  exec (update initialSchedule) (quiet t).

(** A configuration with a data store but no token, and no Twilio account. *)
Definition halfConfigured : World :=
  exec main (boot [("SERVER", JStr "http://store.example/api");
                   ("AUTH_TOKEN", JStr "");
                   ("TWILIO_AUTH_TOKEN", JStr "secret")]
                  (fun _ => Fin 0) (fun _ => 300) 0).

(** A run of one window: the pump is switched on by GET /on at instant 0. *)
Definition windowStart : World := exec onRoute (quiet 0).

(** Twenty-three ticks of the monitor, nothing else happening. *)
Definition afterTicks : World :=
  fireN 23 (exec main (boot [] (fun _ => Fin 0) (fun t => t / 1000) 0)).

(** A body whose only hour maps to [null]. *)
Definition nullHour : json := JObj [("0", JNull)].

(** The schedule in force after a PUT of hours 6 (on) and 8 (off). *)
Definition morning : json :=
  JObj [("6", hourFlags true false); ("8", hourFlags false true)].

Definition flagsAt (i : nat) : string * json := (indexString i, hourFlags false false).

(** Hours 0..23 without hour 17. *)
Definition missingHour17 : json := JObj (map flagsAt (seq 0 17 ++ seq 18 6)).

(** Hours 0..24. *)
Definition withHour24 : json := JObj (map flagsAt (seq 0 25)).

(** Water from 6 to 8 and again from 18 to 19. *)
Definition twiceDaily : json :=
  JObj (map (fun i => (indexString i,
                       hourFlags (Nat.eqb i 6 || Nat.eqb i 18)
                                 (Nat.eqb i 8 || Nat.eqb i 19)))
            (seq 0 24)).

(** ** Canonical decimal numerals *)

Definition isDecimalDigit (c : ascii) : bool :=
  match digitValue 10 c with
  | Some _ => true
  | None => false
  end.

(** The characters of a decimal numeral. *)
Definition numeral (d : Decimal.uint) : list ascii :=
  list_ascii_of_string (NilEmpty.string_of_uint d).

(** The key is the decimal rendering of a natural number below 2^53, as the
    keys of the start-up schedule and the indices of an array are. *)
Definition canonicalIndex (k : string) : Prop :=
  exists n, Z.of_nat n < 2 ^ 53 /\ k = indexString n.

(** ** Planning, read off the properties of the schedule *)

(** Whether [v.flag] is truthy, for a value [v] that is not [null]. *)
Definition flagSet (flag : string) (v : json) : bool :=
  match getProp (Some v) flag with
  | Ok x => truthy x
  | Throw _ => false
  end.

(** The keys of the properties whose [flag] is truthy, in property order. *)
Definition flaggedKeys (flag : string) (props : list (string * json)) : list string :=
  map fst (filter (fun kv => flagSet flag (snd kv)) props).

(** The positions of the elements whose [flag] is truthy. *)
Definition flaggedIndices (flag : string) (elems : list json) : list string :=
  map indexString
    (filter (fun i => flagSet flag (nth i elems JNull)) (seq 0 (List.length elems))).

(** The positions of the elements whose [flag] is truthy, as numbers. *)
Definition flaggedPositions (flag : string) (elems : list json) : list nat :=
  filter (fun i => flagSet flag (nth i elems JNull)) (seq 0 (List.length elems)).

(** A PUT body with mixed values: hour 5 is on, hour 7 has a string for a
    flag, hour 9 is a number, hour 11 is off. *)
Definition mixedBody : list (string * json) :=
  [("5", hourFlags true false);
   ("7", JObj [("on", JStr "false")]);
   ("9", JNum (Fin 1));
   ("11", hourFlags false true)].

(** A body with a [null] hour after a valid one. *)
Definition brokenBody : list (string * json) :=
  [("5", hourFlags true false); ("6", JNull)].

(** Four distinct keys for two hours: "08" and "1e1" denote 8 and 10. *)
Definition repeatedHour : list (string * json) :=
  [("8", hourFlags true false); ("10", hourFlags true false);
   ("08", hourFlags true false); ("1e1", hourFlags true false)].

(** No element of the array is [null]. *)
Definition noNullElem (elems : list json) : bool :=
  forallb (fun v => negb (isNull v)) elems.

(** An array body: position 1 is on, position 2 is off, position 0 neither. *)
Definition arrayBody : list json :=
  [hourFlags false false; hourFlags true false; hourFlags false true].

(** ** What a step leaves alone *)

(** The configuration, the sensors, the schedule and the recurring timers
    are the same in both states. *)
Record sameSetup (w w' : World) : Prop := {
  ss_config : config w' = config w;
  ss_flow : flowSensor w' = flowSensor w;
  ss_moist : moistureSensor w' = moistureSensor w;
  ss_schedule : SCHEDULE w' = SCHEDULE w;
  ss_intervals : intervals w' = intervals w;
  ss_later : laterTimers w' = laterTimers w
}.

(** The recurring timers agree with the schedule in force: none is live, or
    the live ones are the two planned from it. *)
Definition timersMatchSchedule (w : World) : Prop :=
  liveTimers w = [] \/
  exists hsOn hsOff,
    triggerKeys "on" (SCHEDULE w) = Ok hsOn /\
    triggerKeys "off" (SCHEDULE w) = Ok hsOff /\
    liveTimers w = [onTimer hsOn; offTimer hsOff].

(** ** What each step appends to the log and to the timer queue *)

Definition configured (w : World) : bool :=
  truthy (assoc "SERVER" (config w)) && truthy (assoc "AUTH_TOKEN" (config w)).

Definition twilioConfigured (w : World) : bool :=
  truthy (assoc "TWILIO_ACCT_SID" (config w)) &&
  truthy (assoc "TWILIO_AUTH_TOKEN" (config w)).

Definition orNull (v : jsvalue) : json :=
  match v with
  | Some j => j
  | None => JNull
  end.

Definition tickMessage (v : Z) : string :=
  ("moisture (" ++ intString v ++ ")")%string.

Definition actionEvents (a : action) (w : World) : list (Z * event) :=
  match a with
  | TurnOn =>
      logEvents "on" w ++ [(now w, PumpWrite 1); (now w, SetTimeout CheckFlowOn 10000)]
  | TurnOff =>
      logEvents "off" w ++ [(now w, PumpWrite 0); (now w, SetTimeout CheckFlowOff 10000)]
  end.

Definition actionArms (a : action) (w : World) : list timeout :=
  match a with
  | TurnOn => [armed CheckFlowOn 10000 w]
  | TurnOff => [armed CheckFlowOff 10000 w]
  end.

Definition callbackEvents (f : callback) (w : World) : list (Z * event) :=
  match f with
  | CheckFlowOn =>
      [(now w, FlowClear); (now w, FlowStart); (now w, SetTimeout FlowOnDeadline 2000)]
  | CheckFlowOff =>
      [(now w, FlowClear); (now w, FlowStart); (now w, SetTimeout FlowOffDeadline 2000)]
  | FlowOnDeadline => deadlineEvents (fun r => Js.lt r (ofZ 1)) w
  | FlowOffDeadline => deadlineEvents (fun r => Js.ge r (Fin (1 # 2))) w
  | MonitorTick =>
      (now w, MoistureValue (moistureSensor w (now w))) ::
      logEvents (tickMessage (moistureSensor w (now w))) w
  end.

Definition callbackArms (f : callback) (w : World) : list timeout :=
  match f with
  | CheckFlowOn => [armed FlowOnDeadline 2000 w]
  | CheckFlowOff => [armed FlowOffDeadline 2000 w]
  | _ => []
  end.

Definition updateEvents (data : json) (w : World) : list (Z * event) :=
  clearEvents (intervals w) w ++
  match triggerKeys "on" data, triggerKeys "off" data with
  | Ok hsOn, Ok hsOff =>
      [(now w, LaterSetInterval TurnOn (planned hsOn));
       (now w, LaterSetInterval TurnOff (planned hsOff))]
  | _, _ => []
  end.

(** ** Verification windows in flight *)

(** The callbacks that belong to a verification window. *)
Definition isWindowCallback (f : callback) : bool :=
  match f with
  | CheckFlowOn | CheckFlowOff | FlowOnDeadline | FlowOffDeadline => true
  | MonitorTick => false
  end.

(** Number of pending Node timers that belong to a verification window. *)
Definition pendingWindows (l : list timeout) : nat :=
  List.length (filter (fun x => isWindowCallback (cb x)) l).

Definition oneShot (x : timeout) : Prop :=
  isWindowCallback (cb x) = true -> every x = None.

(** ** Alerts and the readings that cause them *)

(** A reading that fails the test of an ON window or that of an OFF window. *)
Definition failing (r : number) : bool :=
  Js.lt r (ofZ 1) || Js.ge r (Fin (1 # 2)).

(** An alert entry directly follows a failing reading taken at its instant. *)
Definition justifiedBy (prev : option (Z * event)) (e : Z * event) : bool :=
  if isAlert (snd e) then
    match prev with
    | Some (t, FlowRate r) => Z.eqb t (fst e) && failing r
    | _ => false
    end
  else true.

Fixpoint alertsJustified (prev : option (Z * event)) (tr : list (Z * event)) : bool :=
  match tr with
  | [] => true
  | e :: rest => justifiedBy prev e && alertsJustified (Some e) rest
  end.

(** Every flow reading in the log is the sensor's at that instant. *)
Definition readingsTrue (fs : Z -> number) (tr : list (Z * event)) : Prop :=
  Forall (fun te => match snd te with
                    | FlowRate r => r = fs (fst te)
                    | _ => True
                    end) tr.

(** ** Remote notifications *)

(** A console line printed by [log]: the program calls [log] with "on",
    with "off" and with the moisture reading. *)
Definition isLogLine (e : event) : bool :=
  match e with
  | ConsoleLog m =>
      String.eqb m "on" || String.eqb m "off" || String.prefix "moisture (" m
  | _ => false
  end.

(** Every request goes to the configured store with the configured token,
    and every SMS to and from the configured numbers. *)
Definition addressedAsConfigured (cfg : list (string * json)) (tr : list (Z * event)) : Prop :=
  Forall (fun te => match snd te with
                    | RequestPut s t _ =>
                        assoc "SERVER" cfg = Some s /\ assoc "AUTH_TOKEN" cfg = Some t
                    | SendMessage to from body =>
                        to = assoc "NUMBER_TO_SEND_TO" cfg /\
                        from = assoc "TWILIO_OUTGOING_NUMBER" cfg /\
                        body = "watering system alarm"
                    | _ => True
                    end) tr.

(** A state with a data store and a Twilio account, a dry pipe, one full
    verification window after GET /on and one monitor tick. *)
Definition fullyConfigured : World :=
  fireN 3
    (exec onRoute
       (exec main (boot [("SERVER", JStr "http://store.example/api");
                         ("AUTH_TOKEN", JStr "token");
                         ("TWILIO_ACCT_SID", JStr "sid");
                         ("TWILIO_AUTH_TOKEN", JStr "secret");
                         ("NUMBER_TO_SEND_TO", JStr "+15550100");
                         ("TWILIO_OUTGOING_NUMBER", JStr "+15550101")]
                        (fun _ => Fin 0) (fun _ => 300) 0))).

(** The same run after the data store has answered one of the two requests
    and Twilio has reported an error. *)
Definition answeredRun : World :=
  exec (smsAnswered (Some (JStr "unreachable")) None)
    (exec (putAnswered None (Some (JObj [("text", JStr "stored")]))) fullyConfigured).

(** The entry before the position reached, [prev] when nothing was passed. *)
Definition lastEntry (prev : option (Z * event)) (tr : list (Z * event))
    : option (Z * event) :=
  fold_left (fun _ e => Some e) tr prev.

(** The remote calls in [es] are those the configuration of [w] calls for:
    one request per line that [log] printed when a store is configured and
    none otherwise, one SMS per alert when Twilio is configured and none
    otherwise, all addressed as configured. *)
Definition followsConfig (w : World) (es : list (Z * event)) : Prop :=
  countIf isRequestPut es = (if configured w then countIf isLogLine es else 0%nat) /\
  countIf isSendMessage es = (if twilioConfigured w then countIf isAlert es else 0%nat) /\
  addressedAsConfigured (config w) es.

(** A run of entries whose alerts are justified whatever came before it. *)
Definition selfJustified (es : list (Z * event)) : Prop :=
  forall prev, alertsJustified prev es = true.

(** ** The sampling cadence *)

Definition isMonitorTimer (x : timeout) : bool :=
  match cb x with
  | MonitorTick => true
  | _ => false
  end.

(** The instant of the last reading, or [t0] when none has been taken. *)
Definition lastTick (t0 : Z) (taken : list sample) : Z :=
  last (map time taken) t0.

(** Each reading comes at least a period after the one before it, the first
    at least a period after [prev]. *)
Fixpoint spaced (prev : Z) (taken : list sample) : Prop :=
  match taken with
  | [] => True
  | s :: rest => prev + 30000 <= time s /\ spaced (time s) rest
  end.

Record cadence (t0 : Z) (w : World) : Prop := {
  (* the program was started at [t0] *)
  cad_start : hd_error (trace w) = Some (t0, PumpDirOut);
  (* one monitor timer is pending, due one period after the last tick *)
  cad_timer :
    filter isMonitorTimer (timeouts w) =
    [{| due := lastTick t0 (samplesOf (trace w)) + 30000;
        cb := MonitorTick; every := Some 30000 |}];
  cad_spaced : spaced t0 (samplesOf (trace w));
  cad_values :
    Forall (fun s => value s = moistureSensor w (time s)) (samplesOf (trace w))
}.

(** Two ticks on time, then the process is held up until 60500, then one
    more tick: the monitor runs 500 ms late and stays 500 ms behind. *)
Definition lateTicks : World :=
  fireN 2 (setNow 60500
             (fireN 1 (exec main (boot [] (fun _ => Fin 0) (fun t => t / 1000) 0)))).

(** ** The page served by GET / *)

(** [Date.prototype.toISOString] of the instant [t] (milliseconds since the
    epoch, within the range of a Date): [YYYY-MM-DDTHH:mm:ss.sssZ], with a
    sign and six digits for years outside 0..9999. *)
Definition digitChar (d : Z) : ascii :=
  match Z.to_nat d with
  | 0%nat => "0" | 1%nat => "1" | 2%nat => "2" | 3%nat => "3" | 4%nat => "4"
  | 5%nat => "5" | 6%nat => "6" | 7%nat => "7" | 8%nat => "8" | _ => "9"
  end%char.

(** The last [k] decimal digits of [n], zero padded. *)
Fixpoint digits (k : nat) (n : Z) : string :=
  match k with
  | O => EmptyString
  | S k' => (digits k' (n / 10) ++ String (digitChar (n mod 10)) EmptyString)%string
  end.

(** Year, month and day of the day number [days] counted from 1970-01-01
    (proleptic Gregorian calendar). *)
Definition civil (days : Z) : Z * Z * Z :=
  let z := days + 719468 in
  let era := z / 146097 in
  let doe := z - era * 146097 in
  let yoe := (doe - doe / 1460 + doe / 36524 - doe / 146096) / 365 in
  let doy := doe - (365 * yoe + yoe / 4 - yoe / 100) in
  let mp := (5 * doy + 2) / 153 in
  let d := doy - (153 * mp + 2) / 5 + 1 in
  let m := if mp <? 10 then mp + 3 else mp - 9 in
  let y := yoe + era * 400 in
  (if m <=? 2 then y + 1 else y, m, d).

Definition yearString (y : Z) : string :=
  if (0 <=? y) && (y <=? 9999) then digits 4 y
  else if y <? 0 then String "-" (digits 6 (- y))
  else String "+" (digits 6 y).

Definition toISOString (t : Z) : string :=
  let '(y, m, d) := civil (t / 86400000) in
  let ms := t mod 86400000 in
  (yearString y ++ "-" ++ digits 2 m ++ "-" ++ digits 2 d ++ "T" ++
   digits 2 (ms / 3600000) ++ ":" ++ digits 2 (ms / 60000 mod 60) ++ ":" ++
   digits 2 (ms / 1000 mod 60) ++ "." ++ digits 3 (ms mod 1000) ++ "Z")%string.

Definition newline : string := String (ascii_of_nat 10) EmptyString.

(** [elem(data)]: one table row, its pieces joined by line feeds. *)
Definition elem (data : sample) : string :=
  String.concat newline
    ["<tr>"; "<td>"; toISOString (time data); "</td>";
     "<td>"; intString (value data); "</td>"; "</tr>"].

(** [s] without the prefix [p], when it starts with [p]. *)
Fixpoint stripPrefix (p s : string) : option string :=
  match p with
  | EmptyString => Some s
  | String c p' =>
      match s with
      | EmptyString => None
      | String d s' => if Ascii.eqb c d then stripPrefix p' s' else None
      end
  end.

(** What precedes and what follows the leftmost occurrence of [pat] in [s]. *)
Fixpoint findFirst (pat s : string) : option (string * string) :=
  match stripPrefix pat s with
  | Some rest => Some (EmptyString, rest)
  | None =>
      match s with
      | EmptyString => None
      | String c s' =>
          match findFirst pat s' with
          | Some (b, a) => Some (String c b, a)
          | None => None
          end
      end
  end.

(** The replacement text of [String.prototype.replace] for a string pattern:
    [$$] is a dollar, [$&] the match, [$`] what precedes it, [$'] what
    follows it; with no capture groups any other [$] stands for itself. *)
Fixpoint substitute (matched before after repl : string) : string :=
  match repl with
  | EmptyString => EmptyString
  | String c rest =>
      if Ascii.eqb c "$" then
        match rest with
        | EmptyString => String "$" EmptyString
        | String d rest' =>
            if Ascii.eqb d "$" then String "$" (substitute matched before after rest')
            else if Ascii.eqb d "&" then
              (matched ++ substitute matched before after rest')%string
            else if Ascii.eqb d "`" then
              (before ++ substitute matched before after rest')%string
            else if Ascii.eqb d "'" then
              (after ++ substitute matched before after rest')%string
            else String "$" (substitute matched before after rest)
        end
      else String c (substitute matched before after rest)
  end.

(** [s.replace(pat, repl)] for strings [pat] and [repl]: the leftmost
    occurrence only. *)
Definition replace (s pat repl : string) : string :=
  match findFirst pat s with
  | Some (b, a) => (b ++ substitute pat b a repl ++ a)%string
  | None => s
  end.

Definition placeholder : string := "$MOISTUREDATA$".

(** [MOISTURE.map(elem).join("\n")] *)
Definition rows (m : list sample) : string :=
  String.concat newline (map elem m).

(** What the callback of [fs.readFile] does with the request: on a read
    error it prints the error and sends nothing. *)
Inductive reply : Type :=
| ErrorPrinted (err : string)
| Sent (body : string).

(** [serve(err, data)], the callback of GET /; [err] is [None] for [null]. *)
Definition serve (err : option string) (data : string) : M reply :=
  match err with
  | Some e => ret (ErrorPrinted e)
  | None =>
      m <- gets MOISTURE ;;
      ret (Sent (replace data placeholder (rows m)))
  end.

Fixpoint noDollar (s : string) : bool :=
  match s with
  | EmptyString => true
  | String c rest => negb (Ascii.eqb c "$") && noDollar rest
  end.

(** A page with the placeholder in its table, and once more in a comment. *)
Definition samplePage : string :=
  "<table>$MOISTUREDATA$</table><!-- $MOISTUREDATA$ -->".

(** ** The rest of a run *)

(** [evolves w0 w]: the program, being in state [w0], can later be in [w]. *)
Inductive evolves (w0 : World) : World -> Prop :=
| ev_here : evolves w0 w0
| ev_update w body :
    evolves w0 w -> evolves w0 (exec (update body) w)
| ev_on w :
    evolves w0 w -> evolves w0 (exec onRoute w)
| ev_off w :
    evolves w0 w -> evolves w0 (exec offRoute w)
| ev_timeout w w' :
    evolves w0 w -> fireNext w = Some w' -> evolves w0 w'
| ev_later w id :
    evolves w0 w -> evolves w0 (exec (fireLater id) w)
| ev_put_answered w err res :
    evolves w0 w -> (0 < unanswered isRequestPut isPutAnswered w)%nat ->
    evolves w0 (exec (putAnswered err res) w)
| ev_sms_answered w err response :
    evolves w0 w -> (0 < unanswered isSendMessage isSmsAnswered w)%nat ->
    evolves w0 (exec (smsAnswered err response) w)
| ev_wait w t :
    evolves w0 w -> now w <= t ->
    evolves w0 (setNow t w).

(** The recurring timer [id] exists and is cleared. *)
Definition isCleared (id : nat) (w : World) : Prop :=
  exists t, nth_error (laterTimers w) id = Some t /\ cleared t = true.

(** ** Windows on time *)





(** * Proofs *)

(** ** Reasoning about worlds *)

Lemma World_ext (w1 w2 : World) :
  config w1 = config w2 -> SCHEDULE w1 = SCHEDULE w2 -> MOISTURE w1 = MOISTURE w2 ->
  intervals w1 = intervals w2 -> laterTimers w1 = laterTimers w2 ->
  timeouts w1 = timeouts w2 -> now w1 = now w2 -> flowSensor w1 = flowSensor w2 ->
  moistureSensor w1 = moistureSensor w2 -> trace w1 = trace w2 -> w1 = w2.
Proof. destruct w1, w2; simpl; intros; subst; reflexivity. Qed.

Ltac fields :=
  cbn [config SCHEDULE MOISTURE intervals laterTimers timeouts now flowSensor
       moistureSensor trace setSchedule setMoisture setIntervals setLaterTimers
       setTimeouts setNow setTrace].

Ltac world_eq := apply World_ext; fields; try reflexivity.

Lemma bind_run {A B} (m : M A) (k : A -> M B) w :
  bind m k w = match m w with (Ok a, w') => k a w' | (Throw e, w') => (Throw e, w') end.
Proof. reflexivity. Qed.

Lemma laterSetInterval_run f s w :
  laterSetInterval f s w =
  (Ok (List.length (laterTimers w)),
   setLaterTimers (laterTimers w ++ [{| fn := f; sched := s; cleared := false |}])
     (setTrace (trace w ++ [(now w, LaterSetInterval f s)]) w)).
Proof. reflexivity. Qed.

(** ** What each call does, in closed form *)

Arguments truthy : simpl never.
Arguments Js.lt : simpl never.
Arguments Js.ge : simpl never.

Lemma skipn_length_app {A} (l r : list A) : skipn (List.length l) (l ++ r) = r.
Proof. induction l as [|x l IH]; simpl; [reflexivity | exact IH]. Qed.

Lemma log_run ev w :
  log ev w = (Ok tt, setTrace (trace w ++ logEvents ev w) w).
Proof.
  unfold log, logEvents, bind, emit, modify, configProp, gets, ret. simpl.
  destruct (assoc "SERVER" (config w)) as [s|] eqn:Es;
    destruct (assoc "AUTH_TOKEN" (config w)) as [t|] eqn:Et; simpl;
    try reflexivity.
  - destruct (truthy (Some s)), (truthy (Some t)); simpl; try reflexivity.
    unfold setTrace; simpl. rewrite <- app_assoc. reflexivity.
  - destruct (truthy (Some s)); reflexivity.
Qed.

Lemma alert_run w :
  alert w = (Ok tt, setTrace (trace w ++ alertEvents w) w).
Proof.
  unfold alert, alertEvents, bind, emit, modify, configProp, gets, ret. simpl.
  destruct (truthy (assoc "TWILIO_ACCT_SID" (config w)));
    destruct (truthy (assoc "TWILIO_AUTH_TOKEN" (config w))); simpl;
    try reflexivity.
  unfold setTrace; simpl. rewrite <- app_assoc. reflexivity.
Qed.

Lemma turnOn_run w :
  turnOn w =
  (Ok tt,
   setTimeouts (timeouts w ++ [armed CheckFlowOn 10000 w])
     (setTrace (trace w ++ logEvents "on" w ++
                [(now w, PumpWrite 1); (now w, SetTimeout CheckFlowOn 10000)]) w)).
Proof.
  unfold turnOn, bind. rewrite log_run.
  unfold setTimeout, emit, modify, bind, armed, setTimeouts, setTrace; simpl.
  rewrite <- !app_assoc. reflexivity.
Qed.

Lemma turnOff_run w :
  turnOff w =
  (Ok tt,
   setTimeouts (timeouts w ++ [armed CheckFlowOff 10000 w])
     (setTrace (trace w ++ logEvents "off" w ++
                [(now w, PumpWrite 0); (now w, SetTimeout CheckFlowOff 10000)]) w)).
Proof.
  unfold turnOff, bind. rewrite log_run.
  unfold setTimeout, emit, modify, bind, armed, setTimeouts, setTrace; simpl.
  rewrite <- !app_assoc. reflexivity.
Qed.

Lemma checkFlowOn_run w :
  checkFlowOn w =
  (Ok tt,
   setTimeouts (timeouts w ++ [armed FlowOnDeadline 2000 w])
     (setTrace (trace w ++ [(now w, FlowClear); (now w, FlowStart);
                            (now w, SetTimeout FlowOnDeadline 2000)]) w)).
Proof.
  unfold checkFlowOn, setTimeout, emit, modify, bind, armed, setTimeouts, setTrace; simpl.
  rewrite <- !app_assoc. reflexivity.
Qed.

Lemma checkFlowOff_run w :
  checkFlowOff w =
  (Ok tt,
   setTimeouts (timeouts w ++ [armed FlowOffDeadline 2000 w])
     (setTrace (trace w ++ [(now w, FlowClear); (now w, FlowStart);
                            (now w, SetTimeout FlowOffDeadline 2000)]) w)).
Proof.
  unfold checkFlowOff, setTimeout, emit, modify, bind, armed, setTimeouts, setTrace; simpl.
  rewrite <- !app_assoc. reflexivity.
Qed.

Lemma flowOnDeadline_run w :
  flowOnDeadline w =
  (Ok tt, setTrace (trace w ++ deadlineEvents (fun r => Js.lt r (ofZ 1)) w) w).
Proof.
  unfold flowOnDeadline, flowRate, bind, gets, emit, modify, ret, when, deadlineEvents.
  simpl. destruct (Js.lt (flowSensor w (now w)) (ofZ 1)).
  - rewrite alert_run. unfold setTrace, alertEvents; simpl.
    rewrite <- app_assoc. reflexivity.
  - reflexivity.
Qed.

Lemma flowOffDeadline_run w :
  flowOffDeadline w =
  (Ok tt, setTrace (trace w ++ deadlineEvents (fun r => Js.ge r (Fin (1 # 2))) w) w).
Proof.
  unfold flowOffDeadline, flowRate, bind, gets, emit, modify, ret, when, deadlineEvents.
  simpl. destruct (Js.ge (flowSensor w (now w)) (Fin (1 # 2))).
  - rewrite alert_run. unfold setTrace, alertEvents; simpl.
    rewrite <- app_assoc. reflexivity.
  - reflexivity.
Qed.

(** *** Planning, as a function of the schedule alone *)

Lemma isOn_run hk w : isOn hk w = (flagOf "on" (SCHEDULE w) hk, w).
Proof.
  unfold isOn, flagOf, bind, gets, lift, ret.
  destruct (getProp (Some (SCHEDULE w)) hk) as [flags|e]; [|reflexivity].
  destruct (getProp flags "on"); reflexivity.
Qed.

Lemma isOff_run hk w : isOff hk w = (flagOf "off" (SCHEDULE w) hk, w).
Proof.
  unfold isOff, flagOf, bind, gets, lift, ret.
  destruct (getProp (Some (SCHEDULE w)) hk) as [flags|e]; [|reflexivity].
  destruct (getProp flags "off"); reflexivity.
Qed.

Lemma filterM_run (p : string -> M bool) (q : json -> string -> result bool) :
  (forall hk w, p hk w = (q (SCHEDULE w) hk, w)) ->
  forall l w, filterM p l w = (filterR (q (SCHEDULE w)) l, w).
Proof.
  intros Hp l w. induction l as [|x rest IH]; simpl; [reflexivity|].
  unfold bind. rewrite Hp. destruct (q (SCHEDULE w) x) as [b|e]; [|reflexivity].
  rewrite IH. destruct (filterR (q (SCHEDULE w)) rest); reflexivity.
Qed.

Lemma onSchedule_run w :
  onSchedule w = (plannedR (triggerKeys "on" (SCHEDULE w)), w).
Proof.
  unfold onSchedule, triggerKeys, bind, gets, lift, ret.
  destruct (objectKeys (SCHEDULE w)) as [keys|e]; [|reflexivity].
  rewrite (filterM_run isOn (flagOf "on") isOn_run).
  destruct (filterR (flagOf "on" (SCHEDULE w)) keys); reflexivity.
Qed.

Lemma offSchedule_run w :
  offSchedule w = (plannedR (triggerKeys "off" (SCHEDULE w)), w).
Proof.
  unfold offSchedule, triggerKeys, bind, gets, lift, ret.
  destruct (objectKeys (SCHEDULE w)) as [keys|e]; [|reflexivity].
  rewrite (filterM_run isOff (flagOf "off") isOff_run).
  destruct (filterR (flagOf "off" (SCHEDULE w)) keys); reflexivity.
Qed.

(** Reading any property of a value throws for the same values. *)
Lemma getProp_isOk_flag v k1 k2 : isOk (getProp v k1) = isOk (getProp v k2).
Proof.
  destruct v as [[| | | s | elems | props]|]; simpl; try reflexivity.
  - destruct (String.eqb k1 "length"), (String.eqb k2 "length"); simpl;
      repeat match goal with |- context [indexOfKey ?k ?n] => destruct (indexOfKey k n) end;
      reflexivity.
  - destruct (String.eqb k1 "length"), (String.eqb k2 "length"); simpl;
      repeat match goal with |- context [indexOfKey ?k ?n] => destruct (indexOfKey k n) end;
      reflexivity.
Qed.

Lemma flagOf_isOk data f1 f2 hk :
  isOk (flagOf f1 data hk) = isOk (flagOf f2 data hk).
Proof.
  unfold flagOf. destruct (getProp (Some data) hk) as [flags|e]; [|reflexivity].
  pose proof (getProp_isOk_flag flags f1 f2) as H.
  destruct (getProp flags f1), (getProp flags f2); simpl in *; congruence.
Qed.

Lemma filterR_isOk data f1 f2 l :
  isOk (filterR (flagOf f1 data) l) = isOk (filterR (flagOf f2 data) l).
Proof.
  induction l as [|x rest IH]; simpl; [reflexivity|].
  pose proof (flagOf_isOk data f1 f2 x) as H.
  destruct (flagOf f1 data x), (flagOf f2 data x); simpl in H; try discriminate;
    [|reflexivity].
  destruct (filterR (flagOf f1 data) rest), (filterR (flagOf f2 data) rest);
    simpl in *; congruence.
Qed.

(** Planning the on-hours and planning the off-hours throw on the same
    schedules. *)
Lemma triggerKeys_isOk data f1 f2 :
  isOk (triggerKeys f1 data) = isOk (triggerKeys f2 data).
Proof.
  unfold triggerKeys. destruct (objectKeys data); [apply filterR_isOk | reflexivity].
Qed.

(** *** Tearing down and re-planning *)

Lemma forEach_clear_run ids w :
  forEach laterClear ids w =
  (Ok tt,
   setLaterTimers (clearAll ids (laterTimers w))
     (setTrace (trace w ++ clearEvents ids w) w)).
Proof.
  revert w. induction ids as [|id rest IH]; intros w; simpl.
  - unfold ret, setLaterTimers, setTrace, clearEvents; simpl.
    rewrite app_nil_r. destruct w; reflexivity.
  - unfold bind at 1. unfold laterClear, bind, emit, modify. rewrite IH.
    unfold setLaterTimers, setTrace, clearEvents, clearAll; simpl.
    rewrite <- app_assoc. reflexivity.
Qed.

Lemma markCleared_length id l : List.length (markCleared id l) = List.length l.
Proof.
  revert id. induction l as [|t rest IH]; intros [|id]; simpl; auto.
Qed.

Lemma clearAll_length ids l : List.length (clearAll ids l) = List.length l.
Proof.
  unfold clearAll. revert l. induction ids as [|id rest IH]; intros l; simpl.
  - reflexivity.
  - rewrite IH. apply markCleared_length.
Qed.

Lemma updateSchedule_run data w :
  updateSchedule data w =
  match triggerKeys "on" data, triggerKeys "off" data with
  | Ok hsOn, Ok hsOff => (Ok tt, replanned data hsOn hsOff w)
  | _, _ => (Throw TypeError, torn data w)
  end.
Proof.
  unfold updateSchedule.
  rewrite bind_run. unfold modify at 1.
  rewrite bind_run. unfold gets at 1.
  rewrite bind_run, forEach_clear_run.
  rewrite bind_run, onSchedule_run.
  fields.
  pose proof (triggerKeys_isOk data "on" "off") as Hsame.
  destruct (triggerKeys "on" data) as [hsOn|[]]; simpl in Hsame.
  - destruct (triggerKeys "off" data) as [hsOff|e] eqn:Eoff; [|discriminate].
    unfold plannedR.
    rewrite bind_run, laterSetInterval_run.
    rewrite bind_run, offSchedule_run.
    fields.
    rewrite Eoff. unfold plannedR.
    rewrite bind_run, laterSetInterval_run.
    unfold modify, replanned. fields.
    f_equal. world_eq.
    + rewrite !length_app, !clearAll_length. cbn [List.length].
      replace (List.length (laterTimers w) + 1)%nat with (S (List.length (laterTimers w))) by lia.
      reflexivity.
    + rewrite <- !app_assoc. reflexivity.
    + rewrite <- !app_assoc. reflexivity.
  - unfold plannedR. destruct (triggerKeys "off" data); unfold torn; fields; reflexivity.
Qed.

Lemma updateSchedule_cases data w :
  (exists hsOn hsOff,
     triggerKeys "on" data = Ok hsOn /\ triggerKeys "off" data = Ok hsOff /\
     updateSchedule data w = (Ok tt, replanned data hsOn hsOff w)) \/
  (isOk (triggerKeys "on" data) = false /\
   updateSchedule data w = (Throw TypeError, torn data w)).
Proof.
  rewrite updateSchedule_run.
  pose proof (triggerKeys_isOk data "on" "off") as Hsame.
  destruct (triggerKeys "on" data) as [hsOn|e], (triggerKeys "off" data) as [hsOff|e'];
    simpl in Hsame; try discriminate.
  - left. exists hsOn, hsOff. auto.
  - right. auto.
Qed.

Lemma nth_error_markCleared i l j :
  nth_error (markCleared i l) j =
  if Nat.eqb i j then option_map clearedTimer (nth_error l j) else nth_error l j.
Proof.
  revert i j. induction l as [|t rest IH]; intros i j.
  - destruct i, j; simpl; try reflexivity; destruct (Nat.eqb i j); reflexivity.
  - destruct i as [|i], j as [|j]; simpl; try reflexivity. apply IH.
Qed.

Lemma nth_error_clearAll ids l j :
  nth_error (clearAll ids l) j =
  if existsb (Nat.eqb j) ids then option_map clearedTimer (nth_error l j)
  else nth_error l j.
Proof.
  unfold clearAll. revert l. induction ids as [|i rest IH]; intros l; simpl.
  - reflexivity.
  - rewrite IH, nth_error_markCleared. rewrite (Nat.eqb_sym j i).
    destruct (Nat.eqb i j), (existsb (Nat.eqb j) rest); simpl; try reflexivity.
    destruct (nth_error l j); reflexivity.
Qed.

(** A timer listed in [ids] is cleared afterwards; the others keep their
    state; nothing but the [cleared] flag changes. *)
Lemma clearAll_spec ids l j t' :
  nth_error (clearAll ids l) j = Some t' ->
  exists t, nth_error l j = Some t /\ fn t' = fn t /\ sched t' = sched t /\
            cleared t' = (cleared t || existsb (Nat.eqb j) ids).
Proof.
  rewrite nth_error_clearAll. intros H.
  destruct (existsb (Nat.eqb j) ids); destruct (nth_error l j) as [t|]; simpl in H;
    try discriminate; injection H as <-; exists t; simpl;
    repeat split; auto using orb_true_r, orb_false_r.
Qed.

Lemma existsb_eqb_In j ids : existsb (Nat.eqb j) ids = true <-> In j ids.
Proof.
  rewrite existsb_exists. split.
  - intros (x & Hin & Heq). apply Nat.eqb_eq in Heq. subst. exact Hin.
  - intros Hin. exists j. split; [exact Hin | apply Nat.eqb_refl].
Qed.

(** *** The moisture tick *)

Lemma monitorTick_run w :
  monitorTick w =
  (Ok tt,
   setMoisture (pushBounded (MOISTURE w) (tickSample w))
     (setTrace (trace w ++ (now w, MoistureValue (moistureSensor w (now w))) ::
                logEvents ("moisture (" ++ intString (moistureSensor w (now w)) ++ ")")%string w)
        w)).
Proof.
  unfold monitorTick, moistureValue.
  unfold bind at 1. unfold bind at 1. unfold gets at 1.
  unfold bind at 1. unfold emit at 1, modify at 1. unfold ret at 1.
  unfold bind at 1. unfold gets at 1.
  unfold bind at 1. unfold modify at 1.
  unfold bind at 1. rewrite log_run.
  unfold bind, gets, when, pushBounded, tickSample. simpl.
  destruct (Nat.ltb 20 (List.length (MOISTURE w ++
             [{| value := moistureSensor w (now w); time := now w |}]))).
  - unfold modify, setMoisture, setTrace, logEvents; simpl.
    rewrite <- app_assoc. reflexivity.
  - unfold ret, setMoisture, setTrace, logEvents; simpl.
    rewrite <- app_assoc. reflexivity.
Qed.

(** ** Invariants of the running program *)

Lemma samplesOf_app a b : samplesOf (a ++ b) = samplesOf a ++ samplesOf b.
Proof. unfold samplesOf. apply flat_map_app. Qed.

Lemma samplesOf_logEvents ev w : samplesOf (logEvents ev w) = [].
Proof.
  unfold logEvents.
  destruct (assoc "SERVER" (config w)) as [s|], (assoc "AUTH_TOKEN" (config w)) as [t|];
    try reflexivity.
  destruct (truthy (Some s) && truthy (Some t)); reflexivity.
Qed.

Lemma samplesOf_alertEvents w : samplesOf (alertEvents w) = [].
Proof.
  unfold alertEvents.
  destruct (truthy (assoc "TWILIO_ACCT_SID" (config w)) &&
            truthy (assoc "TWILIO_AUTH_TOKEN" (config w))); reflexivity.
Qed.

Lemma samplesOf_deadlineEvents p w : samplesOf (deadlineEvents p w) = [].
Proof.
  unfold deadlineEvents. cbv zeta.
  destruct (p (flowSensor w (now w))); [|reflexivity].
  change (samplesOf ([(now w, FlowRate (flowSensor w (now w)))] ++ alertEvents w) = []).
  rewrite samplesOf_app, samplesOf_alertEvents. reflexivity.
Qed.

Lemma samplesOf_clearEvents ids w : samplesOf (clearEvents ids w) = [].
Proof. induction ids as [|id rest IH]; simpl; [reflexivity | exact IH]. Qed.

Lemma invariant_quietStep w w' : invariant w -> quietStep w w' -> invariant w'.
Proof.
  intros [Htr Hh] [Hs Hm Hi Hl Hn (es & Ht & Hes) (ts & Hq)].
  constructor.
  - rewrite Hl, Hi. exact Htr.
  - rewrite Hm, Ht, samplesOf_app, Hes, app_nil_r. exact Hh.
Qed.

Lemma quietStep_refl w : quietStep w w.
Proof.
  constructor; try reflexivity.
  - exists []. rewrite app_nil_r. auto.
  - exists []. rewrite app_nil_r. reflexivity.
Qed.

Ltac quiet_step es ts :=
  constructor; simpl; try reflexivity;
  [ exists es; split; [reflexivity|]
  | exists ts; reflexivity ].

Lemma turnOn_quiet w : quietStep w (exec turnOn w).
Proof.
  unfold exec. rewrite turnOn_run.
  quiet_step (logEvents "on" w ++
              [(now w, PumpWrite 1); (now w, SetTimeout CheckFlowOn 10000)])
             [armed CheckFlowOn 10000 w].
  rewrite samplesOf_app, samplesOf_logEvents. reflexivity.
Qed.

Lemma turnOff_quiet w : quietStep w (exec turnOff w).
Proof.
  unfold exec. rewrite turnOff_run.
  quiet_step (logEvents "off" w ++
              [(now w, PumpWrite 0); (now w, SetTimeout CheckFlowOff 10000)])
             [armed CheckFlowOff 10000 w].
  rewrite samplesOf_app, samplesOf_logEvents. reflexivity.
Qed.

Lemma checkFlowOn_quiet w : quietStep w (exec checkFlowOn w).
Proof.
  unfold exec. rewrite checkFlowOn_run.
  quiet_step [(now w, FlowClear); (now w, FlowStart);
              (now w, SetTimeout FlowOnDeadline 2000)]
             [armed FlowOnDeadline 2000 w].
  reflexivity.
Qed.

Lemma checkFlowOff_quiet w : quietStep w (exec checkFlowOff w).
Proof.
  unfold exec. rewrite checkFlowOff_run.
  quiet_step [(now w, FlowClear); (now w, FlowStart);
              (now w, SetTimeout FlowOffDeadline 2000)]
             [armed FlowOffDeadline 2000 w].
  reflexivity.
Qed.

Lemma flowOnDeadline_quiet w : quietStep w (exec flowOnDeadline w).
Proof.
  unfold exec. rewrite flowOnDeadline_run.
  constructor; simpl; try reflexivity.
  - eexists. split; [reflexivity | apply samplesOf_deadlineEvents].
  - exists []. rewrite app_nil_r. auto.
Qed.

Lemma flowOffDeadline_quiet w : quietStep w (exec flowOffDeadline w).
Proof.
  unfold exec. rewrite flowOffDeadline_run.
  constructor; simpl; try reflexivity.
  - eexists. split; [reflexivity | apply samplesOf_deadlineEvents].
  - exists []. rewrite app_nil_r. auto.
Qed.

Lemma runAction_quiet a w : quietStep w (exec (runAction a) w).
Proof. destruct a; [apply turnOn_quiet | apply turnOff_quiet]. Qed.

Lemma fireLater_quiet id w : quietStep w (exec (fireLater id) w).
Proof.
  unfold exec, fireLater, bind, gets.
  destruct (nth_error (laterTimers w) id) as [t|]; [|apply quietStep_refl].
  destruct (cleared t); [apply quietStep_refl | apply runAction_quiet].
Qed.

(** Appending to the tail of the readings and evicting keeps the tail. *)
Lemma pushBounded_tail (all : list sample) (s : sample) :
  pushBounded (skipn (List.length all - 20) all) s =
  skipn (List.length (all ++ [s]) - 20) (all ++ [s]).
Proof.
  unfold pushBounded. rewrite !length_app, length_skipn. simpl List.length.
  destruct (Nat.ltb_spec 20 (List.length all - (List.length all - 20) + 1)) as [Hlt|Hge].
  - assert (Hn : (20 <= List.length all)%nat) by lia.
    replace (List.length all + 1 - 20)%nat with (S (List.length all - 20)) by lia.
    rewrite skipn_app.
    replace (S (List.length all - 20) - List.length all)%nat with 0%nat by lia.
    simpl skipn at 2.
    remember (List.length all - 20)%nat as k eqn:Hk.
    assert (Hk' : (k < List.length all)%nat) by lia.
    clear Hlt Hn Hk. revert k Hk'.
    induction all as [|x rest IH]; intros k Hk'; simpl in Hk'; [lia|].
    destruct k as [|k].
    + reflexivity.
    + simpl. destruct rest as [|y rest'].
      * simpl in Hk'. lia.
      * apply IH. simpl in *. lia.
  - replace (List.length all - 20)%nat with 0%nat by lia.
    replace (List.length all + 1 - 20)%nat with 0%nat by lia.
    reflexivity.
Qed.

Lemma fireNext_inv w w' :
  fireNext w = Some w' ->
  exists t rest, pickNext (timeouts w) = Some (t, rest) /\
                 w' = exec (runCallback (cb t)) (dequeued t rest w).
Proof.
  unfold fireNext. destruct (pickNext (timeouts w)) as [[t rest]|]; [|discriminate].
  intros H. injection H as <-. exists t, rest. split; reflexivity.
Qed.

Lemma invariant_dequeued w t rest :
  invariant w -> invariant (dequeued t rest w).
Proof. intros [Htr Hh]. constructor; unfold dequeued; simpl; auto. Qed.

Lemma invariant_monitorTick w : invariant w -> invariant (exec monitorTick w).
Proof.
  intros [Htr Hh]. unfold exec. rewrite monitorTick_run.
  constructor; simpl; auto.
  rewrite Hh.
  change (trace w ++ (now w, MoistureValue (moistureSensor w (now w))) :: ?l)
    with (trace w ++ [(now w, MoistureValue (moistureSensor w (now w)))] ++ l).
  rewrite app_assoc, (samplesOf_app _ (logEvents _ _)), samplesOf_logEvents, app_nil_r.
  rewrite samplesOf_app. apply pushBounded_tail.
Qed.

Lemma invariant_runCallback f w : invariant w -> invariant (exec (runCallback f) w).
Proof.
  intros H. destruct f; simpl.
  - eapply invariant_quietStep; [exact H | apply checkFlowOn_quiet].
  - eapply invariant_quietStep; [exact H | apply checkFlowOff_quiet].
  - eapply invariant_quietStep; [exact H | apply flowOnDeadline_quiet].
  - eapply invariant_quietStep; [exact H | apply flowOffDeadline_quiet].
  - apply invariant_monitorTick. exact H.
Qed.

Lemma exec_update body w : exec (update body) w = exec (updateSchedule body) w.
Proof.
  unfold exec, update. rewrite bind_run.
  destruct (updateSchedule body w) as [[[]|e] w']; reflexivity.
Qed.

(** After the teardown every timer that existed is cleared, provided the
    live ones were all held in [intervals]. *)
Lemma teardown_clears w id t' :
  invariant w ->
  nth_error (clearAll (intervals w) (laterTimers w)) id = Some t' ->
  cleared t' = true.
Proof.
  intros [Htr _] H. apply clearAll_spec in H as (t & Hnth & _ & _ & Hc).
  rewrite Hc. destruct (cleared t) eqn:Ect; [reflexivity|]. simpl.
  apply existsb_eqb_In. eapply Htr; eassumption.
Qed.

Lemma invariant_torn data w : invariant w -> invariant (torn data w).
Proof.
  intros Hinv. pose proof Hinv as [Htr Hh]. unfold torn.
  constructor; fields.
  - intros id t Hnth Hlive. rewrite (teardown_clears w id t Hinv Hnth) in Hlive.
    discriminate.
  - rewrite samplesOf_app, samplesOf_clearEvents, app_nil_r. exact Hh.
Qed.

Lemma invariant_replanned data hsOn hsOff w :
  invariant w -> invariant (replanned data hsOn hsOff w).
Proof.
  intros Hinv. pose proof Hinv as [Htr Hh]. unfold replanned.
  constructor; fields.
  - intros id t Hnth Hlive.
    destruct (Nat.lt_ge_cases id (List.length (laterTimers w))) as [Hlt|Hge].
    + rewrite nth_error_app1 in Hnth by (rewrite clearAll_length; exact Hlt).
      rewrite (teardown_clears w id t Hinv Hnth) in Hlive. discriminate.
    + rewrite nth_error_app2 in Hnth by (rewrite clearAll_length; exact Hge).
      rewrite clearAll_length in Hnth.
      destruct (id - List.length (laterTimers w))%nat as [|[|k]] eqn:Ek.
      * left. lia.
      * right. left. lia.
      * simpl in Hnth. destruct k; discriminate.
  - rewrite samplesOf_app, samplesOf_app, samplesOf_clearEvents. simpl.
    rewrite app_nil_r. exact Hh.
Qed.

Lemma invariant_updateSchedule data w :
  invariant w -> invariant (exec (updateSchedule data) w).
Proof.
  intros Hinv. unfold exec.
  destruct (updateSchedule_cases data w) as [(a & b & _ & _ & ->)|[_ ->]]; simpl.
  - apply invariant_replanned. exact Hinv.
  - apply invariant_torn. exact Hinv.
Qed.

Lemma invariant_main cfg fs ms t0 : invariant (exec main (boot cfg fs ms t0)).
Proof.
  constructor; simpl.
  - intros [|id] t H; discriminate.
  - reflexivity.
Qed.

Lemma putAnswered_run err res w :
  putAnswered err res w =
  (if truthy err && negb (isOk (getProp res "text")) then Throw TypeError else Ok tt,
   setTrace (trace w ++ putAnsweredEvents err res w) w).
Proof.
  unfold putAnswered, logCallback, putAnsweredEvents.
  rewrite bind_run. unfold emit at 1, modify at 1.
  destruct (truthy err); simpl andb.
  - rewrite bind_run. unfold lift.
    destruct (getProp res "text") as [text|[]]; simpl.
    + unfold emit, modify. f_equal. world_eq. rewrite <- app_assoc. reflexivity.
    + reflexivity.
  - unfold emit, modify. f_equal. world_eq. rewrite <- app_assoc. reflexivity.
Qed.

Lemma smsAnswered_run err response w :
  smsAnswered err response w =
  (Ok tt, setTrace (trace w ++ smsAnsweredEvents err response w) w).
Proof.
  unfold smsAnswered, alertCallback, smsAnsweredEvents.
  rewrite bind_run. unfold emit at 1, modify at 1.
  destruct (truthy err); unfold emit, modify; f_equal; world_eq;
    rewrite <- app_assoc; reflexivity.
Qed.

Lemma answerEntries_put err res w : answerEntries w (putAnsweredEvents err res w).
Proof.
  unfold answerEntries, putAnsweredEvents.
  destruct (truthy err); [destruct (getProp res "text")|]; repeat constructor.
Qed.

Lemma answerEntries_sms err response w :
  answerEntries w (smsAnsweredEvents err response w).
Proof.
  unfold answerEntries, smsAnsweredEvents.
  destruct (truthy err); repeat constructor.
Qed.

Lemma samplesOf_answers w es : answerEntries w es -> samplesOf es = [].
Proof.
  induction 1 as [|[t e] rest [_ He] _ IH]; [reflexivity|].
  change (samplesOf ([(t, e)] ++ rest) = []). rewrite samplesOf_app, IH.
  destruct e; try discriminate; reflexivity.
Qed.

(** A step in which a remote service answers only appends to the log. *)
Lemma answered_quiet w es : answerEntries w es -> quietStep w (setTrace (trace w ++ es) w).
Proof.
  intros H. constructor; fields; try reflexivity.
  - exists es. split; [reflexivity | apply (samplesOf_answers w); exact H].
  - exists []. rewrite app_nil_r. reflexivity.
Qed.

(** Every reachable state satisfies the invariants. *)
Lemma reachable_invariant w : reachable w -> invariant w.
Proof.
  induction 1 as [cfg fs ms t0 | w body _ IH | w _ IH | w _ IH
                  | w w' _ IH Hfire | w id _ IH | w err res _ IH _
                  | w err response _ IH _ | w t _ IH Hle].
  - apply invariant_main.
  - rewrite exec_update. apply invariant_updateSchedule. exact IH.
  - unfold onRoute.
    replace (exec (turnOn;; ret "") w) with (exec turnOn w)
      by (unfold exec; rewrite bind_run, turnOn_run; reflexivity).
    eapply invariant_quietStep; [exact IH | apply turnOn_quiet].
  - unfold offRoute.
    replace (exec (turnOff;; ret "") w) with (exec turnOff w)
      by (unfold exec; rewrite bind_run, turnOff_run; reflexivity).
    eapply invariant_quietStep; [exact IH | apply turnOff_quiet].
  - apply fireNext_inv in Hfire as (t & rest & Hpick & ->).
    apply invariant_runCallback. apply invariant_dequeued. exact IH.
  - eapply invariant_quietStep; [exact IH | apply fireLater_quiet].
  - unfold exec. rewrite putAnswered_run.
    eapply invariant_quietStep; [exact IH | apply answered_quiet, answerEntries_put].
  - unfold exec. rewrite smsAnswered_run.
    eapply invariant_quietStep; [exact IH | apply answered_quiet, answerEntries_sms].
  - destruct IH as [Htr Hh]. constructor; fields; auto.
Qed.

Lemma emitted_setTrace {A} (m : M A) w es r w0 :
  m w = (r, w0) -> trace w0 = trace w ++ es -> emitted m w = es.
Proof.
  intros Hm Ht. unfold emitted, exec. rewrite Hm. simpl. rewrite Ht.
  apply skipn_length_app.
Qed.

(** ** Induction over the steps of a run *)

Lemma exec_onRoute w : onRoute w = (Ok "", exec turnOn w).
Proof. unfold onRoute, exec. rewrite bind_run, turnOn_run. reflexivity. Qed.

Lemma exec_onRoute_turnOn w : exec onRoute w = exec turnOn w.
Proof. unfold exec at 1. rewrite exec_onRoute. reflexivity. Qed.

Lemma exec_offRoute_turnOff w : exec offRoute w = exec turnOff w.
Proof.
  unfold exec, offRoute. rewrite bind_run, turnOff_run. reflexivity.
Qed.

Lemma exec_fireLater id w :
  exec (fireLater id) w = w \/ exists a, exec (fireLater id) w = exec (runAction a) w.
Proof.
  unfold exec, fireLater. rewrite bind_run. unfold gets.
  destruct (nth_error (laterTimers w) id) as [t|]; [|left; reflexivity].
  destruct (cleared t); [left; reflexivity | right; exists (fn t); reflexivity].
Qed.

(** A property of all reachable states may be proved step by step: start-up,
    a schedule replacement, an actuation, a Node timer firing, an answer of a
    remote service, time passing. *)
Lemma reachable_steps (P : World -> Prop) :
  (forall cfg fs ms t0, P (exec main (boot cfg fs ms t0))) ->
  (forall w body, reachable w -> P w -> P (exec (updateSchedule body) w)) ->
  (forall w a, reachable w -> P w -> P (exec (runAction a) w)) ->
  (forall w t rest, reachable w -> P w -> pickNext (timeouts w) = Some (t, rest) ->
     P (exec (runCallback (cb t)) (dequeued t rest w))) ->
  (forall w es, reachable w -> P w -> answerEntries w es ->
     P (setTrace (trace w ++ es) w)) ->
  (forall w t, reachable w -> P w -> now w <= t -> P (setNow t w)) ->
  forall w, reachable w -> P w.
Proof.
  intros Hmain Hupd Hact Hfire Hans Hwait w Hr.
  induction Hr as [cfg fs ms t0 | w body Hr IH | w Hr IH | w Hr IH
                   | w w' Hr IH Hf | w id Hr IH | w err res Hr IH _
                   | w err response Hr IH _ | w t Hr IH Hle].
  - apply Hmain.
  - rewrite exec_update. apply Hupd; assumption.
  - rewrite exec_onRoute_turnOn. apply (Hact w TurnOn); assumption.
  - rewrite exec_offRoute_turnOff. apply (Hact w TurnOff); assumption.
  - apply fireNext_inv in Hf as (t & rest & Hpick & ->). apply Hfire; assumption.
  - destruct (exec_fireLater id w) as [-> | (a & ->)]; [exact IH|].
    apply Hact; assumption.
  - unfold exec. rewrite putAnswered_run. apply Hans; [assumption..|].
    apply answerEntries_put.
  - unfold exec. rewrite smsAnswered_run. apply Hans; [assumption..|].
    apply answerEntries_sms.
  - apply Hwait; assumption.
Qed.

Lemma sameSetup_trans w1 w2 w3 : sameSetup w1 w2 -> sameSetup w2 w3 -> sameSetup w1 w3.
Proof. intros [] []. constructor; congruence. Qed.

Lemma sameSetup_runAction a w : sameSetup w (exec (runAction a) w).
Proof.
  unfold exec. destruct a; simpl runAction;
    [rewrite turnOn_run | rewrite turnOff_run]; constructor; reflexivity.
Qed.

Lemma sameSetup_runCallback f w : sameSetup w (exec (runCallback f) w).
Proof.
  unfold exec. destruct f; simpl runCallback;
    [rewrite checkFlowOn_run | rewrite checkFlowOff_run | rewrite flowOnDeadline_run
     | rewrite flowOffDeadline_run | rewrite monitorTick_run];
    constructor; reflexivity.
Qed.

Lemma sameSetup_dequeued t rest w : sameSetup w (dequeued t rest w).
Proof. constructor; reflexivity. Qed.

Lemma sameSetup_setNow t w : sameSetup w (setNow t w).
Proof. constructor; reflexivity. Qed.

Lemma sameSetup_setTrace l w : sameSetup w (setTrace l w).
Proof. constructor; reflexivity. Qed.

Lemma sameSetup_fire t rest w :
  sameSetup w (exec (runCallback (cb t)) (dequeued t rest w)).
Proof.
  eapply sameSetup_trans; [apply sameSetup_dequeued | apply sameSetup_runCallback].
Qed.

(** ** What each step appends *)

Lemma logEvents_cases ev w :
  logEvents ev w =
  (now w, ConsoleLog ev) ::
  if configured w
  then [(now w, RequestPut (orNull (assoc "SERVER" (config w)))
                           (orNull (assoc "AUTH_TOKEN" (config w))) ev)]
  else [].
Proof.
  unfold logEvents, configured.
  destruct (assoc "SERVER" (config w)) as [s|], (assoc "AUTH_TOKEN" (config w)) as [t|];
    try reflexivity.
  destruct (truthy (Some s)); reflexivity.
Qed.

Lemma exec_runAction a w :
  trace (exec (runAction a) w) = trace w ++ actionEvents a w /\
  timeouts (exec (runAction a) w) = timeouts w ++ actionArms a w /\
  now (exec (runAction a) w) = now w.
Proof.
  unfold exec. destruct a; simpl runAction;
    [rewrite turnOn_run | rewrite turnOff_run]; repeat split; reflexivity.
Qed.

Lemma exec_runCallback f w :
  trace (exec (runCallback f) w) = trace w ++ callbackEvents f w /\
  timeouts (exec (runCallback f) w) = timeouts w ++ callbackArms f w /\
  now (exec (runCallback f) w) = now w.
Proof.
  unfold exec. destruct f; simpl runCallback;
    [rewrite checkFlowOn_run | rewrite checkFlowOff_run | rewrite flowOnDeadline_run
     | rewrite flowOffDeadline_run | rewrite monitorTick_run];
    repeat split; try reflexivity; fields; rewrite app_nil_r; reflexivity.
Qed.

Lemma exec_updateSchedule data w :
  trace (exec (updateSchedule data) w) = trace w ++ updateEvents data w /\
  timeouts (exec (updateSchedule data) w) = timeouts w /\
  now (exec (updateSchedule data) w) = now w /\
  config (exec (updateSchedule data) w) = config w /\
  flowSensor (exec (updateSchedule data) w) = flowSensor w /\
  moistureSensor (exec (updateSchedule data) w) = moistureSensor w.
Proof.
  unfold exec, updateEvents. rewrite updateSchedule_run.
  destruct (triggerKeys "on" data), (triggerKeys "off" data); simpl snd;
    unfold replanned, torn; fields; rewrite ?app_nil_r; repeat split; reflexivity.
Qed.

Lemma countIf_app p a b : countIf p (a ++ b) = (countIf p a + countIf p b)%nat.
Proof. unfold countIf. rewrite filter_app, length_app. reflexivity. Qed.

Lemma countIf_none p es :
  (forall te, In te es -> p (snd te) = false) -> countIf p es = 0%nat.
Proof.
  unfold countIf. induction es as [|e rest IH]; intros H; simpl; [reflexivity|].
  rewrite (H e (or_introl eq_refl)). apply IH. intros te Hin. apply H. right. exact Hin.
Qed.

Lemma countIf_answers p w es :
  (forall e, isAnswerEvent e = true -> p e = false) ->
  answerEntries w es -> countIf p es = 0%nat.
Proof.
  intros Hp Hes. apply countIf_none. intros te Hin.
  unfold answerEntries in Hes. rewrite Forall_forall in Hes.
  apply Hp, Hes, Hin.
Qed.

Ltac not_an_answer := intros []; intros; (reflexivity || discriminate).

Lemma countIf_clearEvents p ids w :
  (forall id, p (LaterClear id) = false) -> countIf p (clearEvents ids w) = 0%nat.
Proof.
  intros H. apply countIf_none. intros te Hin.
  apply in_map_iff in Hin as (id & <- & _). apply H.
Qed.

Lemma countIf_updateEvents p data w :
  (forall id, p (LaterClear id) = false) ->
  (forall a s, p (LaterSetInterval a s) = false) ->
  countIf p (updateEvents data w) = 0%nat.
Proof.
  intros Hc Hs. unfold updateEvents. rewrite countIf_app, countIf_clearEvents by exact Hc.
  destruct (triggerKeys "on" data), (triggerKeys "off" data); try reflexivity.
  unfold countIf. simpl. rewrite !Hs. reflexivity.
Qed.

Lemma tickMessage_not_alert v : isAlert (ConsoleLog (tickMessage v)) = false.
Proof. reflexivity. Qed.

Lemma tickMessage_logLine v : isLogLine (ConsoleLog (tickMessage v)) = true.
Proof.
  unfold tickMessage. cbn [isLogLine]. simpl.
  destruct (intString v ++ ")")%string; reflexivity.
Qed.

Lemma pickNext_split l t rest :
  pickNext l = Some (t, rest) ->
  exists l1 l2, l = l1 ++ t :: l2 /\ rest = l1 ++ l2.
Proof.
  revert t rest. induction l as [|a l IH]; intros t rest H; simpl in H; [discriminate|].
  destruct (pickNext l) as [[m rest']|] eqn:E.
  - destruct (IH m rest' eq_refl) as (l1 & l2 & Hl & Hr).
    destruct (due a <=? due m); injection H as <- <-.
    + exists [], l. split; reflexivity.
    + exists (a :: l1), l2. subst. split; reflexivity.
  - injection H as <- <-. destruct l as [|b l'].
    + exists [], []. split; reflexivity.
    + simpl in E. destruct (pickNext l') as [[m r]|]; [|discriminate].
      destruct (due b <=? due m); discriminate.
Qed.

(** * Notification and alert delivery *)

(** C10: when [config.SERVER] or [config.AUTH_TOKEN] is falsy, [log(event)]
    only prints the event (one console entry, no request to the data store)
    and returns normally; when [config.TWILIO_ACCT_SID] or
    [config.TWILIO_AUTH_TOKEN] is falsy, [alert()] only prints (no SMS) and
    returns normally.  Nothing else of the state changes. *)
Theorem notification_degrades_silently (ev : string) (w : World) :
  (truthy (assoc "SERVER" (config w)) = false \/
   truthy (assoc "AUTH_TOKEN" (config w)) = false ->
   log ev w = (Ok tt, setTrace (trace w ++ [(now w, ConsoleLog ev)]) w)) /\
  (truthy (assoc "TWILIO_ACCT_SID" (config w)) = false \/
   truthy (assoc "TWILIO_AUTH_TOKEN" (config w)) = false ->
   alert w =
   (Ok tt, setTrace (trace w ++ [(now w, ConsoleLog "Watering system alert")]) w)).
Proof.
  split; intros H.
  - rewrite log_run. unfold logEvents.
    destruct (assoc "SERVER" (config w)) as [s|];
      destruct (assoc "AUTH_TOKEN" (config w)) as [t|]; try reflexivity.
    destruct H as [-> | ->]; [reflexivity|].
    rewrite andb_false_r. reflexivity.
  - rewrite alert_run. unfold alertEvents.
    destruct H as [-> | ->]; [reflexivity|].
    rewrite andb_false_r. reflexivity.
Qed.

Lemma half_configured_stays_local :
  log "on" halfConfigured =
    (Ok tt, setTrace (trace halfConfigured ++ [(0, ConsoleLog "on")]) halfConfigured) /\
  alert halfConfigured =
    (Ok tt, setTrace (trace halfConfigured ++
                      [(0, ConsoleLog "Watering system alert")]) halfConfigured).
Proof.
  split.
  - apply (proj1 (notification_degrades_silently "on" halfConfigured)).
    right. reflexivity.
  - apply (proj2 (notification_degrades_silently "on" halfConfigured)).
    left. reflexivity.
Defined.

(** * Flow verification *)

Lemma alertsRaised_alertEvents w : alertsRaised (alertEvents w) = 1%nat.
Proof.
  unfold alertEvents.
  destruct (truthy (assoc "TWILIO_ACCT_SID" (config w)) &&
            truthy (assoc "TWILIO_AUTH_TOKEN" (config w))); reflexivity.
Qed.

Lemma alertsRaised_deadline p w :
  alertsRaised (deadlineEvents p w) =
  if p (flowSensor w (now w)) then 1%nat else 0%nat.
Proof.
  unfold deadlineEvents. cbv zeta. destruct (p (flowSensor w (now w))).
  - change (alertsRaised (alertEvents w) = 1%nat). apply alertsRaised_alertEvents.
  - reflexivity.
Qed.

Lemma lt_one_finite q : Js.lt (Fin q) (ofZ 1) = true <-> (q < 1)%Q.
Proof.
  unfold Js.lt, compare_lt, ofZ. change (inject_Z 1) with 1%Q.
  rewrite Qlt_alt. destruct (q ?= 1)%Q; split; intros H; congruence.
Qed.

Lemma ge_half_finite q : Js.ge (Fin q) (Fin (1 # 2)) = true <-> (1 # 2 <= q)%Q.
Proof.
  unfold Js.ge, compare_lt. split.
  - intros H. apply Qnot_lt_le. intros Hlt.
    pose proof (proj1 (Qlt_alt q (1 # 2)) Hlt) as Hc.
    rewrite Hc in H. discriminate.
  - intros H. destruct (q ?= 1 # 2)%Q eqn:E; try reflexivity.
    pose proof (proj2 (Qlt_alt q (1 # 2)) E) as Hlt.
    apply Qle_not_lt in H. contradiction.
Qed.


(** ** One window, from the command to the decision *)

(** A timer armed last and due before all the others is the next to fire. *)
Lemma pickNext_last l x :
  Forall (fun y => due x < due y) l -> pickNext (l ++ [x]) = Some (x, l).
Proof.
  induction 1 as [|a l Ha _ IH]; [reflexivity|].
  cbn [app pickNext]. rewrite IH.
  destruct (Z.leb_spec (due a) (due x)); [lia | reflexivity].
Qed.

Lemma fireNext_picked w t rest :
  pickNext (timeouts w) = Some (t, rest) ->
  fireNext w = Some (exec (runCallback (cb t)) (dequeued t rest w)).
Proof. unfold fireNext. intros ->. reflexivity. Qed.

(** What a callback logs and arms depends on the clock, the configuration
    and the sensors only. *)
Lemma callbackEvents_sameSetup f t w w' :
  sameSetup w w' ->
  callbackEvents f (setNow t w') = callbackEvents f (setNow t w) /\
  callbackArms f (setNow t w') = callbackArms f (setNow t w).
Proof.
  intros [Hc Hf Hm _ _ _].
  destruct f; unfold callbackEvents, callbackArms, deadlineEvents, alertEvents,
    logEvents, armed; fields; rewrite ?Hc, ?Hf, ?Hm; split; reflexivity.
Qed.

(** Node fires a one-shot timer: the clock is at its due instant, or past it
    when the timer is late; the callback runs; nothing is re-armed. *)
Lemma fired w t rest :
  pickNext (timeouts w) = Some (t, rest) -> every t = None ->
  exists w',
    fireNext w = Some w' /\ now w' = Z.max (now w) (due t) /\ sameSetup w w' /\
    trace w' = trace w ++ callbackEvents (cb t) (setNow (Z.max (now w) (due t)) w) /\
    timeouts w' = rest ++ callbackArms (cb t) (setNow (Z.max (now w) (due t)) w).
Proof.
  intros Hpick Hev. eexists. split; [apply fireNext_picked; exact Hpick|].
  destruct (exec_runCallback (cb t) (dequeued t rest w)) as (Ht & Hq & Hn).
  split; [rewrite Hn; reflexivity|]. split; [apply sameSetup_fire|].
  rewrite Ht, Hq. unfold dequeued. rewrite Hev. fields.
  split; f_equal; destruct (cb t); reflexivity.
Qed.

(** A window that nothing interrupts: the timers pending at the command are
    all due after the window has closed, so its two timers fire at their
    due instants. *)
Lemma isolated_window a c d w :
  actionArms a w = [armed c 10000 w] ->
  (forall w', callbackArms c w' = [armed d 2000 w']) ->
  (forall w', callbackArms d w' = []) ->
  Forall (fun x => now w + 12000 < due x) (timeouts w) ->
  now (fireN 2 (exec (runAction a) w)) = now w + 12000 /\
  timeouts (fireN 2 (exec (runAction a) w)) = timeouts w /\
  trace (fireN 2 (exec (runAction a) w)) =
    trace w ++ actionEvents a w ++
    callbackEvents c (setNow (now w + 10000) w) ++
    callbackEvents d (setNow (now w + 12000) w).
Proof.
  intros Ha Hc Hd Hiso.
  destruct (exec_runAction a w) as (Ht1 & Hq1 & Hn1).
  pose proof (sameSetup_runAction a w) as Hs1.
  set (w1 := exec (runAction a) w) in *.
  assert (Hp1 : pickNext (timeouts w1) = Some (armed c 10000 w, timeouts w)).
  { rewrite Hq1, Ha. apply pickNext_last.
    eapply Forall_impl; [|exact Hiso]. intros x Hx. cbv beta in *.
    cbn [armed due]. lia. }
  destruct (fired w1 _ _ Hp1 eq_refl) as (w2 & Hf1 & Hn2 & Hs2 & Ht2 & Hq2).
  cbn [armed due cb] in Hn2, Ht2, Hq2. rewrite Hn1 in Hn2, Ht2, Hq2.
  replace (Z.max (now w) (now w + 10000)) with (now w + 10000) in * by lia.
  rewrite Hc in Hq2.
  destruct (callbackEvents_sameSetup c (now w + 10000) w w1 Hs1) as [Ec _].
  rewrite Ec in Ht2.
  assert (Hp2 : pickNext (timeouts w2) =
                Some (armed d 2000 (setNow (now w + 10000) w1), timeouts w)).
  { rewrite Hq2. apply pickNext_last.
    eapply Forall_impl; [|exact Hiso]. intros x Hx. cbv beta in *.
    cbn [armed due now setNow]. lia. }
  destruct (fired w2 _ _ Hp2 eq_refl) as (w3 & Hf2 & Hn3 & Hs3 & Ht3 & Hq3).
  cbn [armed due cb now setNow] in Hn3, Ht3, Hq3. rewrite Hn2 in Hn3, Ht3, Hq3.
  replace (Z.max (now w + 10000) (now w + 10000 + 2000)) with (now w + 12000) in * by lia.
  rewrite Hd, app_nil_r in Hq3.
  destruct (callbackEvents_sameSetup d (now w + 12000) w w2
              (sameSetup_trans _ _ _ Hs1 Hs2)) as [Ed _].
  rewrite Ed in Ht3.
  assert (E : fireN 2 w1 = w3) by (cbn [fireN]; rewrite Hf1, Hf2; reflexivity).
  rewrite E. split; [exact Hn3|]. split; [exact Hq3|].
  rewrite Ht3, Ht2, Ht1, <- !app_assoc. reflexivity.
Qed.

Lemma window_entries_on w :
  actionEvents TurnOn w ++
  callbackEvents CheckFlowOn (setNow (now w + 10000) w) ++
  callbackEvents FlowOnDeadline (setNow (now w + 12000) w) =
  logEvents "on" w ++
  [(now w, PumpWrite 1); (now w, SetTimeout CheckFlowOn 10000);
   (now w + 10000, FlowClear); (now w + 10000, FlowStart);
   (now w + 10000, SetTimeout FlowOnDeadline 2000);
   (now w + 12000, FlowRate (flowSensor w (now w + 12000)))] ++
  (if Js.lt (flowSensor w (now w + 12000)) (ofZ 1)
   then alertEvents (setNow (now w + 12000) w) else []).
Proof.
  unfold actionEvents, callbackEvents, deadlineEvents. fields.
  rewrite <- app_assoc. reflexivity.
Qed.

Lemma window_entries_off w :
  actionEvents TurnOff w ++
  callbackEvents CheckFlowOff (setNow (now w + 10000) w) ++
  callbackEvents FlowOffDeadline (setNow (now w + 12000) w) =
  logEvents "off" w ++
  [(now w, PumpWrite 0); (now w, SetTimeout CheckFlowOff 10000);
   (now w + 10000, FlowClear); (now w + 10000, FlowStart);
   (now w + 10000, SetTimeout FlowOffDeadline 2000);
   (now w + 12000, FlowRate (flowSensor w (now w + 12000)))] ++
  (if Js.ge (flowSensor w (now w + 12000)) (Fin (1 # 2))
   then alertEvents (setNow (now w + 12000) w) else []).
Proof.
  unfold actionEvents, callbackEvents, deadlineEvents. fields.
  rewrite <- app_assoc. reflexivity.
Qed.

(** C3: in a verification window opened by [turnOn] (the pump is commanded,
    [checkFlowOn] runs 10 s later and its callback 2 s after that) exactly
    one alert is raised when the rate read at the end of the sample window is
    below 1 and none otherwise; in a window opened by [turnOff] exactly one
    is raised when that rate is at least 0.5 and none otherwise.  The same
    holds of every firing of the two deadline callbacks, late or not, and in
    every state [turnOn] arms [checkFlowOn], which arms the callback with the
    first test, while [turnOff] arms [checkFlowOff], which arms the callback
    with the second; the callbacks that open the sample window raise no
    alert.  A rate that is not a number fails neither test. *)
Theorem flow_decision_rule (w : World) :
  Forall (fun x => now w + 12000 < due x) (timeouts w) ->
  let T := now w in
  let r := flowSensor w (T + 12000) in
  trace (fireN 2 (exec turnOn w)) =
    trace w ++ logEvents "on" w ++
    [(T, PumpWrite 1); (T, SetTimeout CheckFlowOn 10000);
     (T + 10000, FlowClear); (T + 10000, FlowStart);
     (T + 10000, SetTimeout FlowOnDeadline 2000);
     (T + 12000, FlowRate r)] ++
    (if Js.lt r (ofZ 1) then alertEvents (setNow (T + 12000) w) else []) /\
  alertsRaised (loggedSince w (fireN 2 (exec turnOn w))) =
    (if Js.lt r (ofZ 1) then 1 else 0)%nat /\
  trace (fireN 2 (exec turnOff w)) =
    trace w ++ logEvents "off" w ++
    [(T, PumpWrite 0); (T, SetTimeout CheckFlowOff 10000);
     (T + 10000, FlowClear); (T + 10000, FlowStart);
     (T + 10000, SetTimeout FlowOffDeadline 2000);
     (T + 12000, FlowRate r)] ++
    (if Js.ge r (Fin (1 # 2)) then alertEvents (setNow (T + 12000) w) else []) /\
  alertsRaised (loggedSince w (fireN 2 (exec turnOff w))) =
    (if Js.ge r (Fin (1 # 2)) then 1 else 0)%nat /\
  (forall w1 t rest,
     pickNext (timeouts w1) = Some (t, rest) -> every t = None ->
     exists w2,
       fireNext w1 = Some w2 /\
       (cb t = FlowOnDeadline ->
        loggedSince w1 w2 =
          (now w2, FlowRate (flowSensor w1 (now w2))) ::
          (if Js.lt (flowSensor w1 (now w2)) (ofZ 1)
           then alertEvents (setNow (now w2) w1) else []) /\
        alertsRaised (loggedSince w1 w2) =
          (if Js.lt (flowSensor w1 (now w2)) (ofZ 1) then 1 else 0)%nat) /\
       (cb t = FlowOffDeadline ->
        loggedSince w1 w2 =
          (now w2, FlowRate (flowSensor w1 (now w2))) ::
          (if Js.ge (flowSensor w1 (now w2)) (Fin (1 # 2))
           then alertEvents (setNow (now w2) w1) else []) /\
        alertsRaised (loggedSince w1 w2) =
          (if Js.ge (flowSensor w1 (now w2)) (Fin (1 # 2)) then 1 else 0)%nat) /\
       (cb t = CheckFlowOn ->
        alertsRaised (loggedSince w1 w2) = 0%nat /\
        timeouts w2 =
          rest ++ [{| due := now w2 + 2000; cb := FlowOnDeadline; every := None |}]) /\
       (cb t = CheckFlowOff ->
        alertsRaised (loggedSince w1 w2) = 0%nat /\
        timeouts w2 =
          rest ++ [{| due := now w2 + 2000; cb := FlowOffDeadline; every := None |}])) /\
  (forall w1,
     timeouts (exec turnOn w1) =
       timeouts w1 ++ [{| due := now w1 + 10000; cb := CheckFlowOn; every := None |}] /\
     timeouts (exec turnOff w1) =
       timeouts w1 ++ [{| due := now w1 + 10000; cb := CheckFlowOff; every := None |}]) /\
  (forall q, Js.lt (Fin q) (ofZ 1) = true <-> (q < 1)%Q) /\
  (forall q, Js.ge (Fin q) (Fin (1 # 2)) = true <-> (1 # 2 <= q)%Q) /\
  Js.lt NaN (ofZ 1) = false /\ Js.ge NaN (Fin (1 # 2)) = false /\
  Js.lt NegInf (ofZ 1) = true /\ Js.ge NegInf (Fin (1 # 2)) = false /\
  Js.lt PosInf (ofZ 1) = false /\ Js.ge PosInf (Fin (1 # 2)) = true.
Proof.
  intros Hiso T r.
  destruct (isolated_window TurnOn CheckFlowOn FlowOnDeadline w eq_refl
              (fun _ => eq_refl) (fun _ => eq_refl) Hiso) as (_ & _ & Hon).
  destruct (isolated_window TurnOff CheckFlowOff FlowOffDeadline w eq_refl
              (fun _ => eq_refl) (fun _ => eq_refl) Hiso) as (_ & _ & Hoff).
  change (runAction TurnOn) with turnOn in Hon.
  change (runAction TurnOff) with turnOff in Hoff.
  rewrite window_entries_on in Hon. rewrite window_entries_off in Hoff.
  assert (Hraised : forall ev v f d (p : bool),
            isAlert (ConsoleLog ev) = false ->
            alertsRaised (logEvents ev w ++
                          [(T, PumpWrite v); (T, SetTimeout f 10000);
                           (T + 10000, FlowClear); (T + 10000, FlowStart);
                           (T + 10000, SetTimeout d 2000); (T + 12000, FlowRate r)] ++
                          (if p then alertEvents (setNow (T + 12000) w) else [])) =
            (if p then 1 else 0)%nat).
  { intros ev v f d p Hev. unfold alertsRaised.
    rewrite !filter_app, !length_app. fold (alertsRaised (logEvents ev w)).
    replace (alertsRaised (logEvents ev w)) with 0%nat.
    - destruct p; [|reflexivity].
      fold (alertsRaised (alertEvents (setNow (T + 12000) w))).
      rewrite alertsRaised_alertEvents. reflexivity.
    - rewrite logEvents_cases. unfold alertsRaised.
      destruct (configured w); cbn [filter snd]; rewrite Hev; reflexivity. }
  split; [rewrite Hon; reflexivity|].
  split.
  { unfold loggedSince. rewrite Hon, skipn_length_app. apply Hraised. reflexivity. }
  split; [rewrite Hoff; reflexivity|].
  split.
  { unfold loggedSince. rewrite Hoff, skipn_length_app. apply Hraised. reflexivity. }
  split.
  { intros w1 t rest Hpick Hev.
    destruct (fired w1 t rest Hpick Hev) as (w2 & Hf & Hn & Hs & Ht & Hq).
    exists w2. split; [exact Hf|].
    unfold loggedSince. rewrite Ht, Hq, skipn_length_app, <- Hn.
    split; [|split; [|split]].
    - intros ->. split; [reflexivity|].
      exact (alertsRaised_deadline (fun r => Js.lt r (ofZ 1)) (setNow (now w2) w1)).
    - intros ->. split; [reflexivity|].
      exact (alertsRaised_deadline (fun r => Js.ge r (Fin (1 # 2))) (setNow (now w2) w1)).
    - intros ->. split; reflexivity.
    - intros ->. split; reflexivity. }
  split.
  { intros w1. unfold exec. rewrite turnOn_run, turnOff_run. split; reflexivity. }
  repeat split; try reflexivity;
    try apply lt_one_finite; try apply ge_half_finite.
Qed.

Lemma reachable_quiet t : reachable (quiet t).
Proof. apply reach_main. Qed.

Lemma reachable_fireN n w : reachable w -> reachable (fireN n w).
Proof.
  revert w. induction n as [|k IH]; intros w H; simpl; [exact H|].
  destruct (fireNext w) as [w'|] eqn:E; [|exact H].
  apply IH. eapply reach_timeout; eassumption.
Qed.

(** A dry pipe: the window after GET /on ends in an alert, the window after
    GET /off does not. *)
Lemma dry_pipe_alerts_after_on :
  trace (fireN 2 (exec turnOn (quiet 0))) =
    [(0, PumpDirOut); (0, SetInterval MonitorTick 30000);
     (0, ConsoleLog "on"); (0, PumpWrite 1); (0, SetTimeout CheckFlowOn 10000);
     (10000, FlowClear); (10000, FlowStart); (10000, SetTimeout FlowOnDeadline 2000);
     (12000, FlowRate (Fin 0)); (12000, ConsoleLog "Watering system alert")] /\
  alertsRaised (loggedSince (quiet 0) (fireN 2 (exec turnOn (quiet 0)))) = 1%nat /\
  alertsRaised (loggedSince (quiet 0) (fireN 2 (exec turnOff (quiet 0)))) = 0%nat.
Proof.
  assert (Hiso : Forall (fun x => now (quiet 0) + 12000 < due x) (timeouts (quiet 0)))
    by (repeat constructor).
  destruct (flow_decision_rule (quiet 0) Hiso) as (Hon & Hn & _ & Hf & _).
  split; [exact Hon|]. split; [exact Hn | exact Hf].
Defined.

(** * Actuation *)

Lemma before_followed pa pb a b tr :
  before a b tr -> pa a = true -> pb b = true -> followed pa pb tr = true.
Proof.
  intros (l1 & l2 & l3 & ta & tb & ->) Ha Hb.
  induction l1 as [|x l1 IH]; simpl.
  - rewrite Ha. simpl. apply orb_true_iff. left.
    rewrite existsb_app. simpl. rewrite Hb. simpl. apply orb_true_r.
  - rewrite IH. apply orb_true_r.
Qed.

Lemma emitted_turnOn w :
  emitted turnOn w =
  logEvents "on" w ++ [(now w, PumpWrite 1); (now w, SetTimeout CheckFlowOn 10000)].
Proof. eapply emitted_setTrace; [apply turnOn_run | reflexivity]. Qed.

Lemma emitted_turnOff w :
  emitted turnOff w =
  logEvents "off" w ++ [(now w, PumpWrite 0); (now w, SetTimeout CheckFlowOff 10000)].
Proof. eapply emitted_setTrace; [apply turnOff_run | reflexivity]. Qed.

Lemma logEvents_head ev w :
  exists rest, logEvents ev w = (now w, ConsoleLog ev) :: rest /\
               followed isPumpWrite isConsoleLog
                 (logEvents ev w ++ [(now w, PumpWrite 1); (now w, SetTimeout CheckFlowOn 10000)])
               = false /\
               followed isPumpWrite isConsoleLog
                 (logEvents ev w ++ [(now w, PumpWrite 0); (now w, SetTimeout CheckFlowOff 10000)])
               = false.
Proof.
  unfold logEvents.
  destruct (assoc "SERVER" (config w)) as [s|], (assoc "AUTH_TOKEN" (config w)) as [t|];
    try (eexists; repeat split; reflexivity).
  destruct (truthy (Some s) && truthy (Some t)); eexists; repeat split; reflexivity.
Qed.

(** C2, as the code has it: in one call of [turnOn] (or [turnOff]) the
    notification ([log]: the console line, then the request to the data store
    when configured) comes first, the pump is written after it, and the
    flow check is armed last.  The pump is never written before the
    notification. *)
Theorem actuation_order (w : World) :
  (emitted turnOn w =
     logEvents "on" w ++ [(now w, PumpWrite 1); (now w, SetTimeout CheckFlowOn 10000)] /\
   before (ConsoleLog "on") (PumpWrite 1) (emitted turnOn w) /\
   before (PumpWrite 1) (SetTimeout CheckFlowOn 10000) (emitted turnOn w) /\
   ~ before (PumpWrite 1) (ConsoleLog "on") (emitted turnOn w)) /\
  (emitted turnOff w =
     logEvents "off" w ++ [(now w, PumpWrite 0); (now w, SetTimeout CheckFlowOff 10000)] /\
   before (ConsoleLog "off") (PumpWrite 0) (emitted turnOff w) /\
   before (PumpWrite 0) (SetTimeout CheckFlowOff 10000) (emitted turnOff w) /\
   ~ before (PumpWrite 0) (ConsoleLog "off") (emitted turnOff w)).
Proof.
  rewrite emitted_turnOn, emitted_turnOff.
  destruct (logEvents_head "on" w) as (r1 & E1 & F1 & _).
  destruct (logEvents_head "off" w) as (r2 & E2 & _ & F2).
  split; (split; [reflexivity|]); split.
  - rewrite E1. exists [], r1, [(now w, SetTimeout CheckFlowOn 10000)], (now w), (now w).
    reflexivity.
  - split.
    + exists (logEvents "on" w), [], [], (now w), (now w). reflexivity.
    + intros H. apply (before_followed isPumpWrite isConsoleLog) in H; try reflexivity.
      rewrite F1 in H. discriminate.
  - rewrite E2. exists [], r2, [(now w, SetTimeout CheckFlowOff 10000)], (now w), (now w).
    reflexivity.
  - split.
    + exists (logEvents "off" w), [], [], (now w), (now w). reflexivity.
    + intros H. apply (before_followed isPumpWrite isConsoleLog) in H; try reflexivity.
      rewrite F2 in H. discriminate.
Qed.

(** C2 as stated fails: [turnOn] prints its notification before it writes
    the pump, so the pump command does not precede the notification. *)
Lemma pump_written_after_notification :
  emitted turnOn (quiet 0) =
    [(0, ConsoleLog "on"); (0, PumpWrite 1); (0, SetTimeout CheckFlowOn 10000)] /\
  ~ before (PumpWrite 1) (ConsoleLog "on") (emitted turnOn (quiet 0)).
Proof.
  split; [reflexivity|].
  intros H. apply (before_followed isPumpWrite isConsoleLog) in H; try reflexivity.
  discriminate H.
Qed.

(** * Timing of a verification window *)



(** A window that is served late: the clock is at 10500 when Node gets to
    the flow check that was due at 10000, and the rate is read at 12500. *)
Example late_window_run :
  trace (fireN 2 (setNow 10500 windowStart)) =
    [(0, PumpDirOut); (0, SetInterval MonitorTick 30000);
     (0, ConsoleLog "on"); (0, PumpWrite 1); (0, SetTimeout CheckFlowOn 10000);
     (10500, FlowClear); (10500, FlowStart); (10500, SetTimeout FlowOnDeadline 2000);
     (12500, FlowRate (Fin 0)); (12500, ConsoleLog "Watering system alert")].
Proof. reflexivity. Qed.

(** * Moisture history *)

(** C4: in every reachable state, with [n] readings appended so far,
    [MOISTURE] holds [min n 20] entries and they are the most recent
    [min n 20] readings in the order they were taken. *)
Theorem moisture_history_bounded (w : World) :
  reachable w ->
  let appended := samplesOf (trace w) in
  let n := List.length appended in
  List.length (MOISTURE w) = Nat.min n 20 /\
  MOISTURE w = lastN (Nat.min n 20) appended.
Proof.
  intros Hr. destruct (reachable_invariant w Hr) as [_ Hh]. cbv zeta.
  rewrite Hh at 1. rewrite length_skipn. split; [lia|].
  unfold lastN. rewrite Hh at 1. f_equal. lia.
Qed.

Lemma twenty_three_ticks :
  List.length (samplesOf (trace afterTicks)) = 23%nat /\
  List.length (MOISTURE afterTicks) = 20%nat /\
  MOISTURE afterTicks = lastN 20 (samplesOf (trace afterTicks)) /\
  hd_error (MOISTURE afterTicks) = Some {| value := 120; time := 120000 |}.
Proof.
  assert (R : reachable afterTicks) by (apply reachable_fireN, reach_main).
  destruct (moisture_history_bounded afterTicks R) as [Hlen Hcontent].
  split; [reflexivity|]. split; [exact Hlen|]. split; [exact Hcontent|].
  reflexivity.
Defined.

(** * Schedule replacement *)

Lemma filter_all_cleared l :
  (forall id t, nth_error l id = Some t -> cleared t = true) -> filter live l = [].
Proof.
  induction l as [|t rest IH]; intros H; simpl; [reflexivity|].
  unfold live at 1. rewrite (H 0%nat t eq_refl). simpl.
  apply IH. intros id t' Hn. apply (H (S id) t' Hn).
Qed.

Lemma liveTimers_torn data w : invariant w -> liveTimers (torn data w) = [].
Proof.
  intros Hinv. unfold liveTimers, torn. fields.
  apply filter_all_cleared. intros id t. apply teardown_clears. exact Hinv.
Qed.

Lemma liveTimers_replanned data hsOn hsOff w :
  invariant w ->
  liveTimers (replanned data hsOn hsOff w) = [onTimer hsOn; offTimer hsOff].
Proof.
  intros Hinv. unfold liveTimers, replanned. fields.
  rewrite filter_app, filter_all_cleared; [reflexivity|].
  intros id t. apply teardown_clears. exact Hinv.
Qed.

(** Every timer that existed before the call is cleared after it, whether
    the call returns or throws. *)
Lemma updateSchedule_clears_old data w id t :
  invariant w ->
  nth_error (laterTimers w) id = Some t ->
  exists t', nth_error (laterTimers (exec (updateSchedule data) w)) id = Some t' /\
             cleared t' = true /\ fn t' = fn t /\ sched t' = sched t.
Proof.
  intros Hinv Hnth.
  assert (Hold : exists t', nth_error (clearAll (intervals w) (laterTimers w)) id = Some t' /\
                            cleared t' = true /\ fn t' = fn t /\ sched t' = sched t).
  { destruct (nth_error (clearAll (intervals w) (laterTimers w)) id) as [t'|] eqn:E.
    - exists t'. split; [reflexivity|]. split; [eapply teardown_clears; eassumption|].
      apply clearAll_spec in E as (t0 & Hn0 & Hf & Hs & _).
      rewrite Hnth in Hn0. injection Hn0 as <-. auto.
    - apply nth_error_None in E. rewrite clearAll_length in E.
      assert (nth_error (laterTimers w) id <> None) by congruence.
      apply nth_error_Some in H. lia. }
  destruct Hold as (t' & Hn' & Hc & Hf & Hs). exists t'.
  split; [|auto]. unfold exec.
  destruct (updateSchedule_cases data w) as [(a & b & _ & _ & ->)|[_ ->]]; simpl;
    unfold replanned, torn; fields; [|exact Hn'].
  rewrite nth_error_app1; [exact Hn'|].
  apply nth_error_Some. congruence.
Qed.

(** C5: every call of [updateSchedule], whatever the new schedule (the old
    one included) and whether it returns or throws, leaves every recurring
    timer that existed before the call cleared; a timer that is live after
    the call was planned from the new schedule. *)
Theorem replacement_cancels_pending_timers (data : json) (w : World) :
  reachable w ->
  let w' := exec (updateSchedule data) w in
  (forall id t, nth_error (laterTimers w) id = Some t ->
     exists t', nth_error (laterTimers w') id = Some t' /\ cleared t' = true) /\
  (forall id, In id (intervals w) ->
     In (now w, LaterClear id) (emitted (updateSchedule data) w)) /\
  (forall t', In t' (liveTimers w') ->
     (exists hs, triggerKeys "on" data = Ok hs /\ t' = onTimer hs) \/
     (exists hs, triggerKeys "off" data = Ok hs /\ t' = offTimer hs)).
Proof.
  intros Hr. pose proof (reachable_invariant w Hr) as Hinv. cbv zeta.
  split; [|split].
  - intros id t Hnth.
    destruct (updateSchedule_clears_old data w id t Hinv Hnth) as (t' & H1 & H2 & _).
    exists t'. auto.
  - intros id Hin.
    assert (Hc : In (now w, LaterClear id) (clearEvents (intervals w) w))
      by (unfold clearEvents; apply in_map_iff; exists id; auto).
    destruct (updateSchedule_cases data w) as [(a & b & _ & _ & E)|[_ E]].
    + rewrite (emitted_setTrace _ _ _ _ _ E eq_refl).
      apply in_or_app. left. exact Hc.
    + rewrite (emitted_setTrace _ _ _ _ _ E eq_refl). exact Hc.
  - intros t' Hin. unfold exec in Hin.
    destruct (updateSchedule_cases data w) as [(a & b & Ha & Hb & E)|[_ E]];
      rewrite E in Hin; simpl in Hin.
    + rewrite liveTimers_replanned in Hin by exact Hinv.
      destruct Hin as [<-|[<-|[]]]; [left; exists a | right; exists b]; auto.
    + rewrite liveTimers_torn in Hin by exact Hinv. destruct Hin.
Qed.

Lemma reachable_active t : reachable (active t).
Proof. exact (reach_update (quiet t) initialSchedule (reachable_quiet t)). Qed.

Lemma same_schedule_replanned :
  SCHEDULE (active 0) = initialSchedule /\
  liveTimers (active 0) = [onTimer []; offTimer []] /\
  (exists t',
     nth_error (laterTimers (exec (updateSchedule initialSchedule) (active 0))) 0
       = Some t' /\ cleared t' = true) /\
  In (0, LaterClear 1) (emitted (updateSchedule initialSchedule) (active 0)) /\
  ((exists hs, triggerKeys "on" initialSchedule = Ok hs /\ offTimer [] = onTimer hs) \/
   (exists hs, triggerKeys "off" initialSchedule = Ok hs /\ offTimer [] = offTimer hs)).
Proof.
  pose proof (replacement_cancels_pending_timers initialSchedule (active 0)
                (reachable_active 0)) as (Hclr & Hev & Hlive).
  assert (H0 : nth_error (laterTimers (active 0)) 0 = Some (onTimer []))
    by (vm_compute; reflexivity).
  assert (H1 : In 1%nat (intervals (active 0))) by (vm_compute; auto).
  assert (E : liveTimers (exec (updateSchedule initialSchedule) (active 0)) =
              [onTimer []; offTimer []]) by (vm_compute; reflexivity).
  assert (H2 : In (offTimer [])
                 (liveTimers (exec (updateSchedule initialSchedule) (active 0))))
    by (rewrite E; right; left; reflexivity).
  split; [vm_compute; reflexivity|]. split; [vm_compute; reflexivity|].
  split; [exact (Hclr 0%nat (onTimer []) H0)|].
  split; [exact (Hev 1%nat H1) | exact (Hlive (offTimer []) H2)].
Defined.

(** *** Inputs on which re-planning completes *)

Lemma assoc_noNull props k :
  noNullValue props = true -> In k (map fst props) ->
  exists v, assoc k props = Some v /\ isNull v = false.
Proof.
  induction props as [|[k' v'] rest IH]; simpl; intros Hnn Hin; [destruct Hin|].
  apply andb_true_iff in Hnn as [Hv Hrest].
  destruct (String.eqb_spec k' k) as [->|Hne].
  - exists v'. split; [reflexivity | apply negb_true_iff; exact Hv].
  - destruct Hin as [Heq|Hin]; [contradiction|]. apply IH; assumption.
Qed.

Lemma getProp_nonNull v k : isNull v = false -> isOk (getProp (Some v) k) = true.
Proof.
  destruct v as [| | | s | elems | props]; simpl; intros H; try reflexivity;
    try discriminate.
  - destruct (String.eqb k "length"); [reflexivity|].
    destruct (indexOfKey k (String.length s)); reflexivity.
  - destruct (String.eqb k "length"); [reflexivity|].
    destruct (indexOfKey k (List.length elems)); reflexivity.
Qed.

Lemma flagOf_object_ok flag props k :
  noNullValue props = true -> In k (map fst props) ->
  isOk (flagOf flag (JObj props) k) = true.
Proof.
  intros Hnn Hin. destruct (assoc_noNull props k Hnn Hin) as (v & Hv & Hnull).
  unfold flagOf. simpl. rewrite Hv.
  pose proof (getProp_nonNull v flag Hnull) as H.
  destruct (getProp (Some v) flag); [reflexivity | discriminate].
Qed.

Lemma filterR_ok p l :
  (forall k, In k l -> isOk (p k) = true) -> isOk (filterR p l) = true.
Proof.
  induction l as [|x rest IH]; intros H; simpl; [reflexivity|].
  pose proof (H x (or_introl eq_refl)) as Hx.
  destruct (p x); [|discriminate].
  assert (Hrest : isOk (filterR p rest) = true)
    by (apply IH; intros k Hk; apply H; right; exact Hk).
  destruct (filterR p rest); [reflexivity | discriminate].
Qed.

Lemma triggerKeys_object_ok flag props :
  noNullValue props = true -> isOk (triggerKeys flag (JObj props)) = true.
Proof.
  intros Hnn. unfold triggerKeys. simpl.
  apply filterR_ok. intros k Hk. apply flagOf_object_ok; assumption.
Qed.

Lemma updateSchedule_object_returns props w :
  noNullValue props = true -> outcome (updateSchedule (JObj props)) w = Ok tt.
Proof.
  intros Hnn. unfold outcome.
  destruct (updateSchedule_cases (JObj props) w) as [(a & b & _ & _ & ->)|[Hthrow _]];
    [reflexivity|].
  rewrite (triggerKeys_object_ok "on" props Hnn) in Hthrow. discriminate.
Qed.

Lemma updateSchedule_stores data w : SCHEDULE (exec (updateSchedule data) w) = data.
Proof.
  unfold exec.
  destruct (updateSchedule_cases data w) as [(a & b & _ & _ & ->)|[_ ->]]; reflexivity.
Qed.

Lemma replanned_fresh data hsOn hsOff w :
  let n := List.length (laterTimers w) in
  nth_error (laterTimers (replanned data hsOn hsOff w)) n = Some (onTimer hsOn) /\
  nth_error (laterTimers (replanned data hsOn hsOff w)) (S n) = Some (offTimer hsOff).
Proof.
  cbv zeta.
  assert (E : laterTimers (replanned data hsOn hsOff w) =
              clearAll (intervals w) (laterTimers w) ++ [onTimer hsOn; offTimer hsOff])
    by reflexivity.
  rewrite E. split.
  - rewrite nth_error_app2 by (rewrite clearAll_length; lia).
    rewrite clearAll_length, Nat.sub_diag. reflexivity.
  - rewrite nth_error_app2 by (rewrite clearAll_length; lia).
    rewrite clearAll_length.
    replace (S (List.length (laterTimers w)) - List.length (laterTimers w))%nat
      with 1%nat by lia.
    reflexivity.
Qed.

(** C9, as the code has it: a call of [updateSchedule] that returns
    normally leaves exactly two live recurring timers, a fresh one calling
    [turnOn] and a fresh one calling [turnOff], both held in [intervals]; it
    returns normally for every object none of whose property values is
    [null]; and whether it returns or throws, every timer that existed before
    the call is cleared. *)
Theorem replacement_installs_two_timers (data : json) (w : World) :
  reachable w ->
  let w' := exec (updateSchedule data) w in
  let n := List.length (laterTimers w) in
  (outcome (updateSchedule data) w = Ok tt ->
   exists hsOn hsOff,
     triggerKeys "on" data = Ok hsOn /\ triggerKeys "off" data = Ok hsOff /\
     liveTimers w' = [onTimer hsOn; offTimer hsOff] /\
     intervals w' = [n; S n] /\
     nth_error (laterTimers w') n = Some (onTimer hsOn) /\
     nth_error (laterTimers w') (S n) = Some (offTimer hsOff)) /\
  (forall props, data = JObj props -> noNullValue props = true ->
     outcome (updateSchedule data) w = Ok tt) /\
  (forall id t, nth_error (laterTimers w) id = Some t ->
     exists t', nth_error (laterTimers w') id = Some t' /\ cleared t' = true).
Proof.
  intros Hr. pose proof (reachable_invariant w Hr) as Hinv. cbv zeta.
  split; [|split].
  - unfold outcome, exec.
    destruct (updateSchedule_cases data w) as [(a & b & Ha & Hb & ->)|[_ ->]];
      simpl; intros Hok; [|discriminate].
    exists a, b. split; [exact Ha|]. split; [exact Hb|].
    split; [apply liveTimers_replanned; exact Hinv|].
    split; [reflexivity|].
    exact (replanned_fresh data a b w).
  - intros props -> Hnn. apply updateSchedule_object_returns. exact Hnn.
  - intros id t Hnth.
    destruct (updateSchedule_clears_old data w id t Hinv Hnth) as (t' & H1 & H2 & _).
    exists t'. auto.
Qed.

(** C9 as stated fails: on [{"0": null}] the old timers are cleared, planning
    throws a TypeError, and no recurring timer is live afterwards. *)
Lemma null_hour_leaves_no_timer :
  liveTimers (active 0) = [onTimer []; offTimer []] /\
  outcome (updateSchedule nullHour) (active 0) = Throw TypeError /\
  liveTimers (exec (updateSchedule nullHour) (active 0)) = [] /\
  List.length (liveTimers (exec (updateSchedule nullHour) (active 0))) <> 2%nat.
Proof.
  split; [reflexivity|]. split; [reflexivity|]. split; [reflexivity|].
  vm_compute. discriminate.
Qed.

Lemma morning_installs_two :
  outcome (updateSchedule morning) (active 0) = Ok tt /\
  liveTimers (exec (updateSchedule morning) (active 0)) =
    [onTimer ["6"]; offTimer ["8"]] /\
  intervals (exec (updateSchedule morning) (active 0)) = [2%nat; 3%nat] /\
  (exists t',
     nth_error (laterTimers (exec (updateSchedule morning) (active 0))) 1 = Some t' /\
     cleared t' = true).
Proof.
  pose proof (replacement_installs_two_timers morning (active 0) (reachable_active 0))
    as [Htwo [Hret Hclr]].
  assert (Hnn : noNullValue [("6", hourFlags true false); ("8", hourFlags false true)] = true)
    by (vm_compute; reflexivity).
  assert (Hok : outcome (updateSchedule morning) (active 0) = Ok tt)
    by exact (Hret _ eq_refl Hnn).
  assert (H1 : nth_error (laterTimers (active 0)) 1 = Some (offTimer []))
    by (vm_compute; reflexivity).
  destruct (Htwo Hok) as (a & b & Ha & Hb & Hlive & Hids & _).
  assert (Ea : Ok a = Ok ["6"]) by (rewrite <- Ha; vm_compute; reflexivity).
  assert (Eb : Ok b = Ok ["8"]) by (rewrite <- Hb; vm_compute; reflexivity).
  injection Ea as ->. injection Eb as ->.
  split; [exact Hok|]. split; [exact Hlive|]. split; [exact Hids|].
  exact (Hclr 1%nat (offTimer []) H1).
Defined.

(** *** Schedules of the shape the start-up loop builds *)

Lemma validSchedule_noNull s :
  validSchedule s = true -> exists props, s = JObj props /\ noNullValue props = true.
Proof.
  destruct s as [| | | | |props]; simpl; try discriminate.
  intros H. apply andb_true_iff in H as [_ H]. exists props. split; [reflexivity|].
  unfold noNullValue. rewrite forallb_forall in *. intros kv Hin.
  specialize (H kv Hin). destruct (snd kv); simpl in *; try discriminate; reflexivity.
Qed.

(** C1, as the code has it: [updateSchedule] does not validate.  Whatever
    the input, it is stored as the current schedule (GET /schedule returns it)
    and every timer held in [intervals] is cleared; an object none of whose
    property values is [null], complete or not, is accepted without error. *)
Theorem replacement_is_unvalidated (data : json) (w : World) :
  let w' := exec (updateSchedule data) w in
  SCHEDULE w' = data /\
  outcome getSchedule w' = Ok (JObj [("data", data)]) /\
  (forall id t, In id (intervals w) -> nth_error (laterTimers w) id = Some t ->
     exists t', nth_error (laterTimers w') id = Some t' /\ cleared t' = true) /\
  (forall props, data = JObj props -> noNullValue props = true ->
     outcome (updateSchedule data) w = Ok tt).
Proof.
  cbv zeta. split; [apply updateSchedule_stores|].
  split; [unfold outcome, getSchedule, bind, gets, ret; simpl;
          rewrite updateSchedule_stores; reflexivity|].
  split.
  - intros id t Hin Hnth.
    assert (Hc : nth_error (clearAll (intervals w) (laterTimers w)) id =
                 Some (clearedTimer t)).
    { rewrite nth_error_clearAll, Hnth.
      rewrite (proj2 (existsb_eqb_In id (intervals w)) Hin). reflexivity. }
    exists (clearedTimer t). split; [|reflexivity]. unfold exec.
    destruct (updateSchedule_cases data w) as [(a & b & _ & _ & ->)|[_ ->]].
    + change (nth_error (clearAll (intervals w) (laterTimers w) ++ [onTimer a; offTimer b]) id
              = Some (clearedTimer t)).
      rewrite nth_error_app1; [exact Hc|].
      rewrite clearAll_length. apply nth_error_Some. congruence.
    + exact Hc.
  - intros props -> Hnn. apply updateSchedule_object_returns. exact Hnn.
Qed.

Lemma hour24_accepted :
  outcome (updateSchedule withHour24) (active 0) = Ok tt /\
  (exists t', nth_error (laterTimers (exec (updateSchedule withHour24) (active 0))) 1
              = Some t' /\ cleared t' = true).
Proof.
  pose proof (replacement_is_unvalidated withHour24 (active 0)) as (_ & _ & Hclr & Hret).
  assert (H1 : In 1%nat (intervals (active 0))) by (vm_compute; auto).
  assert (H2 : nth_error (laterTimers (active 0)) 1 = Some (offTimer []))
    by (vm_compute; reflexivity).
  split.
  - apply (Hret _ eq_refl). vm_compute; reflexivity.
  - exact (Hclr 1%nat (offTimer []) H1 H2).
Defined.

(** C1 as stated fails: a schedule without hour 17, and one with an hour 24,
    are not rejected.  The call returns normally, the schedule read back is
    the new one, and the two timers that were live are cleared. *)
Lemma missing_hour_not_rejected :
  validSchedule missingHour17 = false /\ validSchedule withHour24 = false /\
  liveTimers (active 0) = [onTimer []; offTimer []] /\
  outcome (updateSchedule missingHour17) (active 0) = Ok tt /\
  SCHEDULE (exec (updateSchedule missingHour17) (active 0)) = missingHour17 /\
  SCHEDULE (exec (updateSchedule missingHour17) (active 0)) <> SCHEDULE (active 0) /\
  map cleared (laterTimers (exec (updateSchedule missingHour17) (active 0))) =
    [true; true; false; false] /\
  outcome (updateSchedule withHour24) (active 0) = Ok tt /\
  SCHEDULE (exec (updateSchedule withHour24) (active 0)) = withHour24 /\
  SCHEDULE (exec (updateSchedule withHour24) (active 0)) <> SCHEDULE (active 0).
Proof.
  repeat (split; [vm_compute; reflexivity|]).
  split; [vm_compute; discriminate|].
  repeat (split; [vm_compute; reflexivity|]).
  vm_compute; discriminate.
Qed.

(** C6: for every schedule with exactly the hours 0..23, each holding
    boolean [on] and [off] flags, PUT /schedule returns normally and a
    following GET /schedule returns that schedule. *)
Theorem schedule_round_trip (S : json) (w : World) :
  validSchedule S = true ->
  outcome (update S) w = Ok "ok" /\
  SCHEDULE (exec (update S) w) = S /\
  outcome getSchedule (exec (update S) w) = Ok (JObj [("data", S)]).
Proof.
  intros Hv. destruct (validSchedule_noNull S Hv) as (props & -> & Hnn).
  rewrite exec_update. split; [|split].
  - pose proof (updateSchedule_object_returns props w Hnn) as Hok.
    unfold outcome, update in *. rewrite bind_run.
    destruct (updateSchedule (JObj props) w) as [[[]|e] w']; simpl in *;
      [reflexivity | discriminate].
  - apply updateSchedule_stores.
  - unfold outcome, getSchedule, bind, gets, ret; simpl.
    rewrite updateSchedule_stores. reflexivity.
Qed.

Lemma twice_daily_read_back :
  validSchedule twiceDaily = true /\
  outcome (update twiceDaily) (active 0) = Ok "ok" /\
  SCHEDULE (exec (update twiceDaily) (active 0)) = twiceDaily /\
  outcome getSchedule (exec (update twiceDaily) (active 0)) =
    Ok (JObj [("data", twiceDaily)]).
Proof.
  split; [vm_compute; reflexivity|].
  apply (schedule_round_trip twiceDaily (active 0)).
  vm_compute; reflexivity.
Defined.

(** * A direction without trigger hours *)

Lemma fireLater_live id t w :
  nth_error (laterTimers w) id = Some t -> cleared t = false ->
  fireLater id w = runAction (fn t) w.
Proof.
  intros Hnth Hc. unfold fireLater. rewrite bind_run. unfold gets.
  rewrite Hnth, Hc. reflexivity.
Qed.

Lemma fireLater_idle id w :
  laterTimers w = [] -> fireLater id w = (Ok tt, w).
Proof.
  intros Hl. unfold fireLater. rewrite bind_run. unfold gets. rewrite Hl.
  destruct id; reflexivity.
Qed.

Lemma outcome_update_ok data w u w' :
  updateSchedule data w = (Ok u, w') -> update data w = (Ok "ok", w').
Proof. intros H. unfold update. rewrite bind_run, H. reflexivity. Qed.

(** C7, where the code departs from it: when no hour of the new schedule
    has a truthy [on] flag, PUT /schedule still hands [turnOn] to
    [later.setInterval], with a recurrence whose hour list is empty, and
    holds the timer in [intervals].  The timer is live, so the library may
    call it, and when it does the pump is switched on and a verification
    window is armed; the same holds for [off] and [turnOff].  The start-up
    path, with the same kind of schedule (every flag false), installs no
    timer and nothing can fire.  GET /on still notifies, writes the pump and
    arms the flow check. *)
Theorem empty_direction_timer_actuates (data : json) (w : World) :
  reachable w ->
  let w' := exec (update data) w in
  let idOn := List.length (laterTimers w) in
  let idOff := S (List.length (laterTimers w)) in
  (triggerKeys "on" data = Ok [] ->
   outcome (update data) w = Ok "ok" /\
   intervals w' = [idOn; idOff] /\
   nth_error (laterTimers w') idOn = Some (onTimer []) /\
   In (onTimer []) (liveTimers w') /\
   triggerHours (onTimer []) = [] /\
   reachable (exec (fireLater idOn) w') /\
   loggedSince w' (exec (fireLater idOn) w') =
     logEvents "on" w' ++
     [(now w', PumpWrite 1); (now w', SetTimeout CheckFlowOn 10000)]) /\
  (triggerKeys "off" data = Ok [] ->
   outcome (update data) w = Ok "ok" /\
   intervals w' = [idOn; idOff] /\
   nth_error (laterTimers w') idOff = Some (offTimer []) /\
   In (offTimer []) (liveTimers w') /\
   triggerHours (offTimer []) = [] /\
   reachable (exec (fireLater idOff) w') /\
   loggedSince w' (exec (fireLater idOff) w') =
     logEvents "off" w' ++
     [(now w', PumpWrite 0); (now w', SetTimeout CheckFlowOff 10000)]) /\
  loggedSince w' (exec onRoute w') =
    logEvents "on" w' ++
    [(now w', PumpWrite 1); (now w', SetTimeout CheckFlowOn 10000)] /\
  (forall cfg fs ms t0 id,
     triggerKeys "on" (SCHEDULE (exec main (boot cfg fs ms t0))) = Ok [] /\
     triggerKeys "off" (SCHEDULE (exec main (boot cfg fs ms t0))) = Ok [] /\
     liveTimers (exec main (boot cfg fs ms t0)) = [] /\
     fireLater id (exec main (boot cfg fs ms t0)) =
       (Ok tt, exec main (boot cfg fs ms t0))).
Proof.
  intros Hr. cbv zeta. pose proof (reachable_invariant w Hr) as Hinv.
  assert (Hup : reachable (exec (update data) w)) by (apply reach_update; exact Hr).
  split; [|split; [|split]].
  - intros Hon. unfold outcome. rewrite exec_update. unfold exec.
    destruct (updateSchedule_cases data w) as [(a & b & Ha & Hb & Hrun)|[Hthrow _]];
      [|rewrite Hon in Hthrow; discriminate].
    rewrite Hon in Ha. injection Ha as <-.
    rewrite (outcome_update_ok _ _ _ _ Hrun), Hrun. cbn [fst snd].
    destruct (replanned_fresh data [] b w) as [Hnth _].
    assert (Hlive : liveTimers (replanned data [] b w) = [onTimer []; offTimer b])
      by (apply liveTimers_replanned; exact Hinv).
    assert (Hfire : fireLater (List.length (laterTimers w)) (replanned data [] b w) =
                    turnOn (replanned data [] b w))
      by (apply (fireLater_live _ (onTimer [])); [exact Hnth | reflexivity]).
    split; [reflexivity|]. split; [reflexivity|]. split; [exact Hnth|].
    split; [rewrite Hlive; left; reflexivity|]. split; [reflexivity|].
    split.
    + rewrite exec_update in Hup. unfold exec in Hup. rewrite Hrun in Hup.
      apply reach_later. exact Hup.
    + unfold loggedSince, exec. rewrite Hfire. apply emitted_turnOn.
  - intros Hoff. unfold outcome. rewrite exec_update. unfold exec.
    destruct (updateSchedule_cases data w) as [(a & b & Ha & Hb & Hrun)|[Hthrow _]];
      [|rewrite (triggerKeys_isOk data "on" "off"), Hoff in Hthrow; discriminate].
    rewrite Hoff in Hb. injection Hb as <-.
    rewrite (outcome_update_ok _ _ _ _ Hrun), Hrun. cbn [fst snd].
    destruct (replanned_fresh data a [] w) as [_ Hnth].
    assert (Hlive : liveTimers (replanned data a [] w) = [onTimer a; offTimer []])
      by (apply liveTimers_replanned; exact Hinv).
    assert (Hfire : fireLater (S (List.length (laterTimers w))) (replanned data a [] w) =
                    turnOff (replanned data a [] w))
      by (apply (fireLater_live _ (offTimer [])); [exact Hnth | reflexivity]).
    split; [reflexivity|]. split; [reflexivity|]. split; [exact Hnth|].
    split; [rewrite Hlive; right; left; reflexivity|]. split; [reflexivity|].
    split.
    + rewrite exec_update in Hup. unfold exec in Hup. rewrite Hrun in Hup.
      apply reach_later. exact Hup.
    + unfold loggedSince, exec. rewrite Hfire. apply emitted_turnOff.
  - rewrite exec_onRoute_turnOn. apply emitted_turnOn.
  - intros cfg fs ms t0 id.
    split; [vm_compute; reflexivity|]. split; [vm_compute; reflexivity|].
    split; [reflexivity|]. apply fireLater_idle. reflexivity.
Qed.

(** The schedule that start-up builds, put back over HTTP: the first timer
    [later] returns is the on-timer, and when the library calls it the pump
    is switched on although no hour asks for it. *)
Lemma all_false_schedule_switches_pump :
  triggerKeys "on" initialSchedule = Ok [] /\
  outcome (update initialSchedule) (quiet 0) = Ok "ok" /\
  nth_error (laterTimers (active 0)) 0 = Some (onTimer []) /\
  In (onTimer []) (liveTimers (active 0)) /\
  reachable (exec (fireLater 0) (active 0)) /\
  loggedSince (active 0) (exec (fireLater 0) (active 0)) =
    [(0, ConsoleLog "on"); (0, PumpWrite 1); (0, SetTimeout CheckFlowOn 10000)].
Proof.
  assert (Hon : triggerKeys "on" initialSchedule = Ok []) by (vm_compute; reflexivity).
  destruct (empty_direction_timer_actuates initialSchedule (quiet 0) (reachable_quiet 0))
    as (H & _).
  destruct (H Hon) as (Hok & _ & Hnth & Hlive & _ & Hreach & Hlog).
  split; [exact Hon|]. split; [exact Hok|]. split; [exact Hnth|].
  split; [exact Hlive|]. split; [exact Hreach | exact Hlog].
Defined.


(** * Further properties *)

(** ** Planning the trigger hours *)

Lemma assoc_NoDup props k v :
  NoDup (map fst props) -> In (k, v) props -> assoc k props = Some v.
Proof.
  induction props as [|[k' v'] rest IH]; simpl; intros Hnd Hin; [destruct Hin|].
  inversion Hnd as [|? ? Hnotin Hnd']; subst.
  destruct Hin as [Heq|Hin].
  - injection Heq as -> ->. rewrite String.eqb_refl. reflexivity.
  - destruct (String.eqb_spec k' k) as [->|Hne].
    + exfalso. apply Hnotin. apply in_map_iff. exists (k, v). auto.
    + apply IH; assumption.
Qed.

Lemma flagOf_found flag props k v :
  assoc k props = Some v -> isNull v = false ->
  flagOf flag (JObj props) k = Ok (flagSet flag v).
Proof.
  intros Hk Hv. unfold flagOf, flagSet.
  change (getProp (Some (JObj props)) k) with (@Ok jsvalue (assoc k props)).
  rewrite Hk.
  pose proof (getProp_nonNull v flag Hv) as H.
  destruct (getProp (Some v) flag); [reflexivity | discriminate].
Qed.

Lemma flagOf_null flag props k :
  assoc k props = Some JNull -> flagOf flag (JObj props) k = Throw TypeError.
Proof. intros Hk. unfold flagOf. simpl. rewrite Hk. reflexivity. Qed.

Lemma filterR_filter flag props l :
  (forall kv, In kv l -> assoc (fst kv) props = Some (snd kv)) ->
  noNullValue l = true ->
  filterR (flagOf flag (JObj props)) (map fst l) = Ok (flaggedKeys flag l).
Proof.
  unfold flaggedKeys. induction l as [|[k v] rest IH]; intros Hl Hnn; simpl; [reflexivity|].
  simpl in Hnn. apply andb_true_iff in Hnn as [Hv Hrest].
  apply negb_true_iff in Hv.
  rewrite (flagOf_found flag props k v (Hl (k, v) (or_introl eq_refl)) Hv).
  rewrite IH by (auto; intros kv Hin; apply Hl; right; exact Hin).
  destruct (flagSet flag v); reflexivity.
Qed.

Lemma filterR_throw p l k :
  In k l -> isOk (p k) = false -> isOk (filterR p l) = false.
Proof.
  induction l as [|x rest IH]; intros Hin Hk; simpl; [destruct Hin|].
  destruct Hin as [->|Hin].
  - destruct (p k); [discriminate | reflexivity].
  - destruct (p x); [|reflexivity].
    specialize (IH Hin Hk). destruct (filterR p rest); [discriminate | reflexivity].
Qed.

Lemma noNullValue_false props :
  noNullValue props = false -> exists k, In (k, JNull) props.
Proof.
  induction props as [|[k v] rest IH]; simpl; intros H; [discriminate|].
  apply andb_false_iff in H as [H|H].
  - apply negb_false_iff in H. destruct v; try discriminate. exists k. auto.
  - destruct (IH H) as (k' & Hin). exists k'. auto.
Qed.

Lemma noNullValue_true props k :
  noNullValue props = true -> ~ In (k, JNull) props.
Proof.
  unfold noNullValue. rewrite forallb_forall. intros H Hin.
  specialize (H _ Hin). discriminate.
Qed.

Lemma triggerKeys_object flag props :
  NoDup (map fst props) -> noNullValue props = true ->
  triggerKeys flag (JObj props) = Ok (flaggedKeys flag props).
Proof.
  intros Hnd Hnn. unfold triggerKeys. simpl.
  apply filterR_filter; [|exact Hnn].
  intros [k v] Hin. apply assoc_NoDup; assumption.
Qed.

Lemma triggerKeys_object_throws flag props :
  NoDup (map fst props) ->
  (isOk (triggerKeys flag (JObj props)) = false <-> exists k, In (k, JNull) props).
Proof.
  intros Hnd. split.
  - intros H. apply noNullValue_false.
    destruct (noNullValue props) eqn:E; [|reflexivity].
    rewrite (triggerKeys_object_ok flag props E) in H. discriminate.
  - intros (k & Hin). unfold triggerKeys. simpl.
    apply (filterR_throw _ _ k).
    + apply in_map_iff. exists (k, JNull). auto.
    + rewrite (flagOf_null flag props k (assoc_NoDup props k JNull Hnd Hin)).
      reflexivity.
Qed.

Lemma outcome_plannedR_throw r :
  plannedR r = Throw TypeError <-> isOk r = false.
Proof.
  destruct r as [hs|[]]; simpl; split; intros H; try discriminate; reflexivity.
Qed.

(** [onSchedule()] and [offSchedule()] read the schedule and change nothing.
    On an object they throw a TypeError exactly when the value of some hour
    is [null] -- whatever that hour's position and whatever the other hours
    hold -- and both throw on the same schedules. *)
Theorem planning_throws_exactly_on_null (w : World) (props : list (string * json)) :
  SCHEDULE w = JObj props -> NoDup (map fst props) ->
  (outcome onSchedule w = Throw TypeError <-> exists k, In (k, JNull) props) /\
  (outcome offSchedule w = Throw TypeError <-> exists k, In (k, JNull) props) /\
  exec onSchedule w = w /\ exec offSchedule w = w.
Proof.
  intros Hs Hnd. unfold outcome, exec.
  rewrite onSchedule_run, offSchedule_run, Hs. simpl.
  rewrite !outcome_plannedR_throw.
  split; [apply triggerKeys_object_throws; exact Hnd|].
  split; [apply triggerKeys_object_throws; exact Hnd|].
  split; reflexivity.
Qed.

Lemma planning_throws_exactly_on_null_witness :
  outcome onSchedule (setSchedule (JObj brokenBody) (quiet 0)) = Throw TypeError /\
  outcome offSchedule (setSchedule (JObj brokenBody) (quiet 0)) = Throw TypeError /\
  outcome onSchedule (setSchedule (JObj mixedBody) (quiet 0)) <> Throw TypeError.
Proof.
  assert (Hb : NoDup (map fst brokenBody))
    by (repeat constructor; simpl; intuition discriminate).
  assert (Hm : NoDup (map fst mixedBody))
    by (repeat constructor; simpl; intuition discriminate).
  pose proof (planning_throws_exactly_on_null
                (setSchedule (JObj brokenBody) (quiet 0)) brokenBody eq_refl Hb)
    as (Hon & Hoff & _).
  pose proof (planning_throws_exactly_on_null
                (setSchedule (JObj mixedBody) (quiet 0)) mixedBody eq_refl Hm)
    as (Hon' & _).
  split; [apply Hon; exists "6"; right; left; reflexivity|].
  split; [apply Hoff; exists "6"; right; left; reflexivity|].
  intros H. apply Hon' in H as (k & Hin).
  apply (noNullValue_true mixedBody k eq_refl Hin).
Defined.

(** *** What [toInt] makes of a canonical numeral *)

(** A decimal digit is no white space, sign, radix letter or the first
    letter of [Infinity]. *)
Lemma decimalDigit_plain c :
  isDecimalDigit c = true ->
  isWhiteSpace c = false /\ Ascii.eqb c "+" = false /\ Ascii.eqb c "-" = false /\
  Ascii.eqb c "." = false /\ Ascii.eqb c "e" = false /\ Ascii.eqb c "E" = false /\
  Ascii.eqb c "x" = false /\ Ascii.eqb c "X" = false /\
  Ascii.eqb c "o" = false /\ Ascii.eqb c "O" = false /\
  Ascii.eqb c "b" = false /\ Ascii.eqb c "B" = false /\ c <> "I"%char.
Proof.
  destruct c as [[] [] [] [] [] [] [] []]; vm_compute; intros H;
    try discriminate H; repeat split; discriminate.
Qed.

Lemma numeral_digits d : Forall (fun c => isDecimalDigit c = true) (numeral d).
Proof.
  unfold numeral. induction d; cbn [NilEmpty.string_of_uint list_ascii_of_string];
    constructor; try reflexivity; assumption.
Qed.

Lemma digitsPrefix_numeral d acc len :
  digitsPrefix 10 (Z.of_nat acc) len (numeral d) =
  (Z.of_nat (Nat.of_uint_acc d acc), (len + Decimal.nb_digits d)%nat, []).
Proof.
  unfold numeral. revert acc len.
  induction d; intros acc len;
    cbn [NilEmpty.string_of_uint list_ascii_of_string digitsPrefix Nat.of_uint_acc
         Decimal.nb_digits];
    try (rewrite Nat.add_0_r; reflexivity);
    match goal with
    | |- context [digitValue 10 ?c] =>
        change (digitValue 10 c) with
          (Some (Z.of_nat (nat_of_ascii c) - 48))
    end; cbv iota beta;
    match goal with
    | |- digitsPrefix 10 ?a _ _ = _ =>
        match goal with
        | |- context [Nat.of_uint_acc d ?b] =>
            replace a with (Z.of_nat b)
              by (rewrite ?Nat2Z.inj_succ, Nat.tail_mul_spec, Nat2Z.inj_mul;
                  cbn [nat_of_ascii]; vm_compute Z.of_nat; lia)
        end
    end; rewrite IHd; rewrite <- Nat.add_succ_comm; reflexivity.
Qed.

Lemma dropWhile_head {A} (p : A -> bool) l :
  match l with [] => True | x :: _ => p x = false end -> dropWhile p l = l.
Proof. destruct l as [|x l]; [reflexivity|]. simpl. intros ->. reflexivity. Qed.

Lemma trim_plain l :
  Forall (fun c => isWhiteSpace c = false) l -> trim l = l.
Proof.
  intros H. unfold trim.
  rewrite (dropWhile_head isWhiteSpace l) by (destruct H; auto).
  rewrite dropWhile_head; [apply rev_involutive|].
  apply Forall_rev in H. destruct H; auto.
Qed.

Lemma Qred_inject_Z z : Qred (inject_Z z) = inject_Z z.
Proof.
  unfold Qred, inject_Z.
  pose proof (Z.ggcd_gcd z 1) as Hg.
  pose proof (Z.ggcd_correct_divisors z 1) as Hd.
  destruct (Z.ggcd z 1) as [g [aa bb]]. simpl in Hg.
  rewrite Z.gcd_1_r in Hg. subst g. destruct Hd as [Ha Hb].
  rewrite Z.mul_1_l in Ha, Hb. subst. reflexivity.
Qed.

(** An integer below 2^53 is a double: rounding leaves it alone. *)
Lemma roundDouble_integer z :
  0 <= z < 2 ^ 53 -> roundDouble (inject_Z z) = Fin (inject_Z z).
Proof.
  intros [Hlo Hhi]. unfold roundDouble, inject_Z. cbn [Qnum Qden].
  destruct z as [|p|p]; [reflexivity| |lia].
  unfold roundPositive. change (Z.log2 1) with 0. rewrite Z.sub_0_r.
  pose proof (Z.log2_nonneg (Z.pos p)) as Hn.
  pose proof (Z.log2_spec (Z.pos p) ltac:(lia)) as [Hl1 Hl2].
  assert (Hl : Z.log2 (Z.pos p) < 53) by (apply Z.log2_lt_pow2; lia).
  replace (0 <=? Z.log2 (Z.pos p)) with true by (symmetry; apply Z.leb_le; lia).
  replace (Z.pos p <? 1 * 2 ^ Z.log2 (Z.pos p)) with false
    by (symmetry; apply Z.ltb_ge; lia).
  rewrite Z.max_l by lia.
  set (s := Z.log2 (Z.pos p) - 52).
  assert (Hdiv : forall n, 0 <= n -> divNearestEven n 1 = n).
  { intros n Hn0. unfold divNearestEven. rewrite Z.div_1_r, Z.mod_1_r. reflexivity. }
  destruct (Z.leb_spec 0 s) as [Hs|Hs].
  - assert (s = 0) by lia. rewrite H. change (2 ^ 0) with 1.
    rewrite !Z.mul_1_r, Hdiv by lia.
    assert (Hbig : 2 ^ 53 < 2 ^ 1024) by (apply Z.pow_lt_mono_r; lia).
    destruct (Z.leb_spec (2 ^ 1024) (Z.pos p)) as [Hov|_]; [lia|].
    unfold scale2. change (0 <=? 0) with true. cbv iota.
    change (2 ^ 0) with 1. rewrite Z.mul_1_r.
    apply f_equal. exact (Qred_inject_Z (Z.pos p)).
  - rewrite Hdiv by (apply Z.mul_nonneg_nonneg; [lia | apply Z.pow_nonneg; lia]).
    replace (2 ^ 1024 <=? 0) with false by reflexivity.
    unfold scale2. replace (0 <=? s) with false by (symmetry; apply Z.leb_gt; lia).
    apply f_equal. transitivity (Qred (inject_Z (Z.pos p)));
      [|exact (Qred_inject_Z (Z.pos p))].
    apply Qred_complete. unfold Qeq, inject_Z. cbn [Qnum Qden].
    rewrite Z2Pos.id by (apply Z.pow_pos_nonneg; lia). lia.
Qed.

Lemma unorm_nonnil d : Decimal.unorm d <> Decimal.Nil.
Proof. unfold Decimal.unorm. destruct (Decimal.nzhead d); discriminate. Qed.

Lemma to_uint_nonnil n : Nat.to_uint n <> Decimal.Nil.
Proof.
  rewrite <- (DecimalNat.Unsigned.of_to n) at 1.
  rewrite DecimalNat.Unsigned.to_of. apply unorm_nonnil.
Qed.

(** [toInt] reads a canonical decimal numeral as the number it denotes. *)
Lemma toInt_index n :
  Z.of_nat n < 2 ^ 53 -> toInt (indexString n) = ofZ (Z.of_nat n).
Proof.
  intros Hn. unfold toInt, indexString, stringToNumber, ofZ.
  fold (numeral (Nat.to_uint n)).
  pose proof (numeral_digits (Nat.to_uint n)) as Hd.
  pose proof (digitsPrefix_numeral (Nat.to_uint n) 0 0) as Hp.
  change (Nat.of_uint_acc (Nat.to_uint n) 0) with (Nat.of_uint (Nat.to_uint n)) in Hp.
  rewrite DecimalNat.Unsigned.of_to in Hp. cbn [Z.of_nat Nat.add] in Hp.
  assert (Hlen : (0 < Decimal.nb_digits (Nat.to_uint n))%nat).
  { pose proof (to_uint_nonnil n) as Hnn.
    destruct (Decimal.nb_digits (Nat.to_uint n)) eqn:E; [|lia].
    apply DecimalFacts.nb_digits_0 in E. contradiction. }
  rewrite trim_plain
    by (eapply Forall_impl; [|exact Hd]; intros c Hc; apply decimalDigit_plain, Hc).
  destruct (numeral (Nat.to_uint n)) as [|c rest] eqn:El.
  - simpl in Hp. injection Hp as _ Hz. lia.
  - inversion Hd as [|? ? Hc Hrest]; subst.
    destruct (decimalDigit_plain c Hc)
      as (_ & Hplus & Hminus & _ & _ & _ & Hx & HX & Ho & HO & Hb & HB & HI).
    assert (Hnd : nonDecimal (c :: rest) = None).
    { unfold nonDecimal. destruct rest as [|p ds]; [reflexivity|].
      inversion Hrest as [|? ? Hpd _]; subst.
      destruct (decimalDigit_plain p Hpd)
        as (_ & _ & _ & _ & _ & _ & Hx' & HX' & Ho' & HO' & Hb' & HB' & _).
      rewrite Hx', HX', Ho', HO', Hb', HB'. destruct (Ascii.eqb c "0"); reflexivity. }
    rewrite Hnd, Hplus, Hminus.
    unfold unsignedNumber, isInfinity.
    destruct (list_eq_dec ascii_dec (c :: rest) infinityLiteral) as [E|_].
    { injection E as E _. contradiction. }
    unfold unsignedDecimal. rewrite Hp.
    destruct (Decimal.nb_digits (Nat.to_uint n)) as [|k] eqn:Ek; [lia|].
    cbn [Nat.add exponentPart]. unfold scale10.
    change (0 - Z.of_nat 0) with 0. change (0 <=? 0) with true. cbv iota.
    change (10 ^ 0) with 1. rewrite Z.mul_1_r.
    apply roundDouble_integer. lia.
Qed.

Lemma toInt_hour (i : nat) :
  (i < 24)%nat -> toInt (indexString i) = ofZ (Z.of_nat i).
Proof. intros Hi. apply toInt_index. lia. Qed.

Lemma toInt_canonical_inj a b :
  canonicalIndex a -> canonicalIndex b -> toInt a = toInt b -> a = b.
Proof.
  intros (i & Hi & ->) (j & Hj & ->).
  rewrite !toInt_index by assumption. unfold ofZ, inject_Z. intros H.
  injection H as H. apply Nat2Z.inj in H. subst. reflexivity.
Qed.

Lemma hourKeys_canonical k : In k hourKeys -> canonicalIndex k.
Proof.
  unfold hourKeys. rewrite in_map_iff. intros (i & <- & Hi). apply in_seq in Hi.
  exists i. split; [lia | reflexivity].
Qed.

(** Keys are compared as strings and hours as Numbers: two distinct keys
    that denote the same number put that hour into the list twice. *)
Lemma zero_padded_key_repeats_hour :
  NoDup (map fst repeatedHour) /\
  outcome onSchedule (setSchedule (JObj repeatedHour) (quiet 0)) =
    Ok {| schedules := [ {| h := [ofZ 8; ofZ 10; ofZ 8; ofZ 10] |} ] |}.
Proof.
  split; [|vm_compute; reflexivity].
  repeat constructor; simpl; intuition discriminate.
Qed.

Lemma flaggedKeys_incl flag props k :
  In k (flaggedKeys flag props) -> In k (map fst props).
Proof.
  unfold flaggedKeys. rewrite !in_map_iff. intros (kv & Hk & Hf).
  apply filter_In in Hf as [Hf _]. exists kv. auto.
Qed.

(** On an object without [null] values, [onSchedule()] returns one
    recurrence whose hours are [+k] for the keys [k] with a truthy [on], in
    key order; [offSchedule()] likewise for [off].  A flag is read by
    truthiness: a missing flag, or a value that is a number, string or
    boolean instead of an object, counts as not set.  When every key is the
    decimal rendering of a natural number, as "0" .. "23" are, the hours are
    the numbers those keys denote and no hour is listed twice. *)
Theorem planning_lists_flagged_keys (w : World) (props : list (string * json)) :
  SCHEDULE w = JObj props -> NoDup (map fst props) -> noNullValue props = true ->
  onSchedule w = (Ok {| schedules := [ {| h := map toInt (flaggedKeys "on" props) |} ] |}, w) /\
  offSchedule w = (Ok {| schedules := [ {| h := map toInt (flaggedKeys "off" props) |} ] |}, w) /\
  (forall k, In k (flaggedKeys "on" props) <->
             exists v, In (k, v) props /\ flagSet "on" v = true) /\
  (forall k, In k (flaggedKeys "off" props) <->
             exists v, In (k, v) props /\ flagSet "off" v = true) /\
  ((forall k, In k (map fst props) -> canonicalIndex k) ->
   forall flag,
     NoDup (map toInt (flaggedKeys flag props)) /\
     forall x, In x (map toInt (flaggedKeys flag props)) <->
               exists n, Z.of_nat n < 2 ^ 53 /\ x = ofZ (Z.of_nat n) /\
                         In (indexString n) (flaggedKeys flag props)).
Proof.
  intros Hs Hnd Hnn.
  assert (Hsub : forall flag, NoDup (flaggedKeys flag props)).
  { intros flag. unfold flaggedKeys. clear Hs Hnn.
    induction props as [|[k v] rest IH]; simpl; [constructor|].
    inversion Hnd as [|? ? Hnotin Hnd']; subst.
    destruct (flagSet flag v); simpl; [|apply IH; exact Hnd'].
    constructor; [|apply IH; exact Hnd'].
    intros Hin. apply Hnotin. apply in_map_iff in Hin as (kv & Hk & Hf).
    apply filter_In in Hf as [Hf _]. apply in_map_iff. exists kv. auto. }
  assert (Hin : forall flag k, In k (flaggedKeys flag props) <->
                               exists v, In (k, v) props /\ flagSet flag v = true).
  { intros flag k. unfold flaggedKeys. rewrite in_map_iff. split.
    - intros ([k' v] & Hk & Hf). simpl in Hk. subst k'.
      apply filter_In in Hf as [Hf Hset]. exists v. auto.
    - intros (v & Hf & Hset). exists (k, v). split; [reflexivity|].
      apply filter_In. auto. }
  rewrite onSchedule_run, offSchedule_run, Hs.
  rewrite !triggerKeys_object by assumption.
  split; [reflexivity|]. split; [reflexivity|].
  split; [apply Hin|]. split; [apply Hin|].
  intros Hhours flag.
  assert (Hk : forall k, In k (flaggedKeys flag props) -> canonicalIndex k)
    by (intros k Hk; apply Hhours, (flaggedKeys_incl flag); exact Hk).
  split.
  - apply NoDup_map_NoDup_ForallPairs; [|apply Hsub].
    intros a b Ha Hb. apply toInt_canonical_inj; auto.
  - intros x. rewrite in_map_iff. split.
    + intros (k & <- & Hkin). destruct (Hk k Hkin) as (n & Hn & ->).
      exists n. split; [exact Hn|]. split; [apply toInt_index; exact Hn | exact Hkin].
    + intros (n & Hn & -> & Hkin). exists (indexString n).
      split; [apply toInt_index; exact Hn | exact Hkin].
Qed.

Lemma planning_lists_flagged_keys_witness :
  onSchedule (setSchedule (JObj mixedBody) (quiet 0)) =
    (Ok {| schedules := [ {| h := [ofZ 5; ofZ 7] |} ] |},
     setSchedule (JObj mixedBody) (quiet 0)) /\
  offSchedule (setSchedule (JObj mixedBody) (quiet 0)) =
    (Ok {| schedules := [ {| h := [ofZ 11] |} ] |},
     setSchedule (JObj mixedBody) (quiet 0)) /\
  NoDup (map toInt (flaggedKeys "on" mixedBody)).
Proof.
  assert (Hm : NoDup (map fst mixedBody))
    by (repeat constructor; simpl; intuition discriminate).
  assert (Hh : forall k, In k (map fst mixedBody) -> canonicalIndex k).
  { intros k Hk. apply hourKeys_canonical. simpl in Hk.
    destruct Hk as [<-|[<-|[<-|[<-|[]]]]]; vm_compute; tauto. }
  pose proof (planning_lists_flagged_keys
                (setSchedule (JObj mixedBody) (quiet 0)) mixedBody eq_refl Hm eq_refl)
    as (Hon & Hoff & _ & _ & Hhours).
  assert (Eon : map toInt (flaggedKeys "on" mixedBody) = [ofZ 5; ofZ 7])
    by (vm_compute; reflexivity).
  assert (Eoff : map toInt (flaggedKeys "off" mixedBody) = [ofZ 11])
    by (vm_compute; reflexivity).
  rewrite Eon in Hon. rewrite Eoff in Hoff.
  split; [exact Hon|]. split; [exact Hoff|].
  exact (proj1 (Hhours Hh "on")).
Defined.

(** *** Array bodies *)

Lemma indexString_inj i j : indexString i = indexString j -> i = j.
Proof.
  unfold indexString. intros H.
  apply DecimalNat.Unsigned.to_uint_inj.
  assert (Hs : Some (Nat.to_uint i) = Some (Nat.to_uint j))
    by (rewrite <- !NilEmpty.usu, H; reflexivity).
  injection Hs as Hs. exact Hs.
Qed.

Lemma indexString_not_length i : String.eqb (indexString i) "length" = false.
Proof.
  destruct (String.eqb_spec (indexString i) "length") as [H|]; [|reflexivity].
  pose proof (NilEmpty.usu (Nat.to_uint i)) as Hu.
  unfold indexString in H. rewrite H in Hu. discriminate Hu.
Qed.

Lemma find_index i a n :
  (a <= i < a + n)%nat ->
  find (fun j => String.eqb (indexString j) (indexString i)) (seq a n) = Some i.
Proof.
  revert a. induction n as [|n IH]; intros a Hi; [lia|]. simpl.
  destruct (String.eqb_spec (indexString a) (indexString i)) as [H|H].
  - apply indexString_inj in H. subst. reflexivity.
  - apply IH. assert (a <> i) by congruence. lia.
Qed.

Lemma getProp_array_index elems i :
  (i < List.length elems)%nat ->
  getProp (Some (JArr elems)) (indexString i) = Ok (nth_error elems i).
Proof.
  intros Hi. unfold getProp. rewrite indexString_not_length.
  unfold indexOfKey. rewrite find_index by lia. reflexivity.
Qed.

Lemma flagOf_array flag elems i :
  (i < List.length elems)%nat ->
  flagOf flag (JArr elems) (indexString i) =
  if isNull (nth i elems JNull) then Throw TypeError
  else Ok (flagSet flag (nth i elems JNull)).
Proof.
  intros Hi. unfold flagOf. rewrite getProp_array_index by exact Hi.
  rewrite (nth_error_nth' elems JNull Hi).
  destruct (isNull (nth i elems JNull)) eqn:En.
  - destruct (nth i elems JNull); try discriminate. reflexivity.
  - unfold flagSet. pose proof (getProp_nonNull _ flag En) as H.
    destruct (getProp (Some (nth i elems JNull)) flag); [reflexivity | discriminate].
Qed.

Lemma filterR_array flag elems l :
  (forall i, In i l -> (i < List.length elems)%nat) ->
  (forall i, In i l -> isNull (nth i elems JNull) = false) ->
  filterR (flagOf flag (JArr elems)) (map indexString l) =
  Ok (map indexString (filter (fun i => flagSet flag (nth i elems JNull)) l)).
Proof.
  induction l as [|i rest IH]; intros Hlt Hnn; simpl; [reflexivity|].
  rewrite flagOf_array by (apply Hlt; left; reflexivity).
  rewrite (Hnn i (or_introl eq_refl)).
  rewrite IH;
    [| intros j Hj; apply Hlt; right; exact Hj
     | intros j Hj; apply Hnn; right; exact Hj].
  destruct (flagSet flag (nth i elems JNull)); reflexivity.
Qed.

Lemma noNullElem_nth elems i :
  noNullElem elems = true -> (i < List.length elems)%nat ->
  isNull (nth i elems JNull) = false.
Proof.
  unfold noNullElem. rewrite forallb_forall. intros H Hi.
  apply negb_true_iff. apply H. apply nth_In. exact Hi.
Qed.

Lemma triggerKeys_array flag elems :
  noNullElem elems = true ->
  triggerKeys flag (JArr elems) = Ok (flaggedIndices flag elems).
Proof.
  intros Hnn. unfold triggerKeys, flaggedIndices. simpl objectKeys. cbv iota beta.
  apply filterR_array.
  - intros i Hi. apply in_seq in Hi. lia.
  - intros i Hi. apply in_seq in Hi. apply noNullElem_nth; [exact Hnn | lia].
Qed.

Lemma triggerKeys_array_throws flag elems :
  isOk (triggerKeys flag (JArr elems)) = false <-> In JNull elems.
Proof.
  split.
  - intros H. destruct (noNullElem elems) eqn:E.
    + rewrite triggerKeys_array in H by exact E. discriminate.
    + unfold noNullElem in E.
      assert (Hex : existsb isNull elems = true).
      { clear H. induction elems as [|v rest IH]; simpl in *; [discriminate|].
        destruct (isNull v); simpl in *; [reflexivity | apply IH; exact E]. }
      apply existsb_exists in Hex as (v & Hin & Hv).
      destruct v; try discriminate. exact Hin.
  - intros Hin. apply In_nth with (d := JNull) in Hin as (i & Hi & Hnth).
    unfold triggerKeys. simpl objectKeys. cbv iota beta.
    apply (filterR_throw _ _ (indexString i)).
    + apply in_map. apply in_seq. lia.
    + rewrite flagOf_array by exact Hi. rewrite Hnth. reflexivity.
Qed.

(** A body that is an array is read by position: the trigger hours are the
    indices, in ascending order, of the elements with a truthy flag, and
    planning throws a TypeError exactly when some element is [null]. *)
Theorem array_body_is_read_by_position (w : World) (elems : list json) :
  SCHEDULE w = JArr elems ->
  (noNullElem elems = true ->
   onSchedule w = (Ok {| schedules := [ {| h := map toInt (flaggedIndices "on" elems) |} ] |}, w) /\
   offSchedule w = (Ok {| schedules := [ {| h := map toInt (flaggedIndices "off" elems) |} ] |}, w)) /\
  (outcome onSchedule w = Throw TypeError <-> In JNull elems) /\
  (outcome offSchedule w = Throw TypeError <-> In JNull elems).
Proof.
  intros Hs. unfold outcome.
  rewrite onSchedule_run, offSchedule_run, Hs. simpl fst.
  rewrite !outcome_plannedR_throw.
  split; [|split; apply triggerKeys_array_throws].
  intros Hnn. rewrite !triggerKeys_array by exact Hnn. split; reflexivity.
Qed.

Lemma array_body_is_read_by_position_witness :
  onSchedule (setSchedule (JArr arrayBody) (quiet 0)) =
    (Ok {| schedules := [ {| h := [ofZ 1] |} ] |},
     setSchedule (JArr arrayBody) (quiet 0)) /\
  offSchedule (setSchedule (JArr arrayBody) (quiet 0)) =
    (Ok {| schedules := [ {| h := [ofZ 2] |} ] |},
     setSchedule (JArr arrayBody) (quiet 0)).
Proof.
  pose proof (array_body_is_read_by_position
                (setSchedule (JArr arrayBody) (quiet 0)) arrayBody eq_refl) as (H & _).
  assert (Eon : map toInt (flaggedIndices "on" arrayBody) = [ofZ 1])
    by (vm_compute; reflexivity).
  assert (Eoff : map toInt (flaggedIndices "off" arrayBody) = [ofZ 2])
    by (vm_compute; reflexivity).
  rewrite <- Eon, <- Eoff. exact (H eq_refl).
Defined.

(** The trigger hours of an array body are the positions themselves.  With
    no [null] element, [onSchedule()] returns the positions of the elements
    with a truthy [on] as Numbers, ascending and each once, and
    [offSchedule()] those with a truthy [off]: [toInt] undoes the decimal
    rendering that [Object.keys] gives the indices. *)
Theorem array_hours_are_positions (w : World) (elems : list json) :
  SCHEDULE w = JArr elems -> noNullElem elems = true ->
  Z.of_nat (List.length elems) <= 2 ^ 53 ->
  onSchedule w =
    (Ok {| schedules :=
             [ {| h := map (fun i => ofZ (Z.of_nat i)) (flaggedPositions "on" elems) |} ] |},
     w) /\
  offSchedule w =
    (Ok {| schedules :=
             [ {| h := map (fun i => ofZ (Z.of_nat i)) (flaggedPositions "off" elems) |} ] |},
     w) /\
  forall flag,
    map toInt (flaggedIndices flag elems) =
      map (fun i => ofZ (Z.of_nat i)) (flaggedPositions flag elems) /\
    NoDup (map toInt (flaggedIndices flag elems)) /\
    (forall i, In (ofZ (Z.of_nat i)) (map toInt (flaggedIndices flag elems)) <->
               (i < List.length elems)%nat /\ flagSet flag (nth i elems JNull) = true).
Proof.
  intros Hs Hnn Hlen.
  assert (Hpos : forall flag i, In i (flaggedPositions flag elems) <->
                   (i < List.length elems)%nat /\ flagSet flag (nth i elems JNull) = true).
  { intros flag i. unfold flaggedPositions. rewrite filter_In, in_seq. split.
    - intros [[_ Hi] Hf]. split; [exact Hi | exact Hf].
    - intros [Hi Hf]. split; [split; [lia | exact Hi] | exact Hf]. }
  assert (Hmap : forall flag,
            map toInt (flaggedIndices flag elems) =
            map (fun i => ofZ (Z.of_nat i)) (flaggedPositions flag elems)).
  { intros flag. change (flaggedIndices flag elems)
      with (map indexString (flaggedPositions flag elems)).
    rewrite map_map. apply map_ext_in. intros i Hi.
    apply toInt_index. apply Hpos in Hi as [Hi _]. lia. }
  assert (Hinj : forall i j : nat, ofZ (Z.of_nat i) = ofZ (Z.of_nat j) -> i = j).
  { intros i j H. unfold ofZ, inject_Z in H. injection H as H.
    apply Nat2Z.inj. exact H. }
  assert (Hrun : onSchedule w =
            (Ok {| schedules :=
                     [ {| h := map (fun i => ofZ (Z.of_nat i))
                                   (flaggedPositions "on" elems) |} ] |}, w) /\
          offSchedule w =
            (Ok {| schedules :=
                     [ {| h := map (fun i => ofZ (Z.of_nat i))
                                   (flaggedPositions "off" elems) |} ] |}, w)).
  { rewrite onSchedule_run, offSchedule_run, Hs.
    rewrite !triggerKeys_array by exact Hnn. unfold plannedR, planned.
    rewrite !Hmap. split; reflexivity. }
  split; [exact (proj1 Hrun)|]. split; [exact (proj2 Hrun)|].
  intros flag. split; [apply Hmap|]. split.
  - rewrite Hmap. apply NoDup_map_NoDup_ForallPairs.
    + intros a b _ _. apply Hinj.
    + unfold flaggedPositions. apply NoDup_filter, seq_NoDup.
  - intros i. rewrite Hmap, in_map_iff. rewrite <- Hpos. split.
    + intros (j & Hj & Hin). apply Hinj in Hj. subst. exact Hin.
    + intros Hin. exists i. split; [reflexivity | exact Hin].
Qed.

Lemma array_hours_are_positions_witness :
  onSchedule (setSchedule (JArr arrayBody) (quiet 0)) =
    (Ok {| schedules := [ {| h := [ofZ 1] |} ] |},
     setSchedule (JArr arrayBody) (quiet 0)) /\
  NoDup (map toInt (flaggedIndices "off" arrayBody)).
Proof.
  assert (Hlen : Z.of_nat (List.length arrayBody) <= 2 ^ 53) by (vm_compute; discriminate).
  destruct (array_hours_are_positions (setSchedule (JArr arrayBody) (quiet 0)) arrayBody
              eq_refl eq_refl Hlen) as (Hon & _ & Hflag).
  split; [exact Hon | exact (proj1 (proj2 (Hflag "off")))].
Defined.

(** ** The PUT /schedule route *)

Lemma update_run body w :
  update body w =
  match updateSchedule body w with
  | (Ok _, w') => (Ok "ok", w')
  | (Throw e, w') => (Throw e, w')
  end.
Proof. unfold update. rewrite bind_run. reflexivity. Qed.

(** PUT /schedule with an object body answers "ok" exactly when no hour is
    [null], and then the live timers are the two planned from the body.
    Otherwise the TypeError reaches the caller after the body has been
    stored and the old timers cleared: GET /schedule returns the rejected
    body and no recurring timer is live. *)
Theorem put_schedule_ok_or_half_applied (props : list (string * json)) (w : World) :
  reachable w -> NoDup (map fst props) ->
  let w' := exec (update (JObj props)) w in
  (noNullValue props = true ->
   outcome (update (JObj props)) w = Ok "ok" /\
   liveTimers w' = [onTimer (flaggedKeys "on" props); offTimer (flaggedKeys "off" props)]) /\
  (noNullValue props = false ->
   outcome (update (JObj props)) w = Throw TypeError /\
   liveTimers w' = [] /\
   outcome getSchedule w' = Ok (JObj [("data", JObj props)])).
Proof.
  intros Hr Hnd. pose proof (reachable_invariant w Hr) as Hinv. cbv zeta.
  unfold outcome, exec. rewrite update_run, updateSchedule_run.
  split; intros Hnn.
  - rewrite !triggerKeys_object by assumption. simpl.
    split; [reflexivity | apply liveTimers_replanned; exact Hinv].
  - assert (Hthrow : isOk (triggerKeys "on" (JObj props)) = false).
    { apply triggerKeys_object_throws; [exact Hnd | apply noNullValue_false; exact Hnn]. }
    destruct (triggerKeys "on" (JObj props)) as [a|e]; [discriminate|]. simpl.
    split; [reflexivity|]. split; [apply liveTimers_torn; exact Hinv | reflexivity].
Qed.

Lemma put_schedule_ok_or_half_applied_witness :
  (outcome (update (JObj mixedBody)) (active 0) = Ok "ok" /\
   liveTimers (exec (update (JObj mixedBody)) (active 0)) =
     [onTimer ["5"; "7"]; offTimer ["11"]]) /\
  (outcome (update (JObj brokenBody)) (active 0) = Throw TypeError /\
   liveTimers (exec (update (JObj brokenBody)) (active 0)) = [] /\
   outcome getSchedule (exec (update (JObj brokenBody)) (active 0)) =
     Ok (JObj [("data", JObj brokenBody)])).
Proof.
  assert (Hb : NoDup (map fst brokenBody))
    by (repeat constructor; simpl; intuition discriminate).
  assert (Hm : NoDup (map fst mixedBody))
    by (repeat constructor; simpl; intuition discriminate).
  split.
  - exact (proj1 (put_schedule_ok_or_half_applied mixedBody (active 0)
                    (reachable_active 0) Hm) eq_refl).
  - exact (proj2 (put_schedule_ok_or_half_applied brokenBody (active 0)
                    (reachable_active 0) Hb) eq_refl).
Defined.

(** ** Recurring timers and the schedule in force *)

Lemma timersMatchSchedule_sameSetup w w' :
  sameSetup w w' -> timersMatchSchedule w -> timersMatchSchedule w'.
Proof.
  intros [_ _ _ Hs _ Hl] H. unfold timersMatchSchedule, liveTimers in *.
  rewrite Hs, Hl. exact H.
Qed.

(** In every reachable state the recurring timers agree with the schedule
    that GET /schedule returns: either no timer is live (before the first
    successful PUT, and after a PUT that threw), or exactly two are, one for
    [turnOn] and one for [turnOff], carrying the hours planned from the
    current [SCHEDULE]. *)
Theorem live_timers_match_schedule (w : World) :
  reachable w -> timersMatchSchedule w.
Proof.
  intros Hr. pattern w. revert w Hr. apply reachable_steps.
  - intros. left. reflexivity.
  - intros w body Hr _. pose proof (reachable_invariant w Hr) as Hinv.
    unfold exec. destruct (updateSchedule_cases body w) as [(a & b & Ha & Hb & ->)|[_ ->]].
    + right. exists a, b. simpl snd.
      split; [exact Ha|]. split; [exact Hb|].
      apply liveTimers_replanned. exact Hinv.
    + left. apply liveTimers_torn. exact Hinv.
  - intros w a _ IH. eapply timersMatchSchedule_sameSetup; [apply sameSetup_runAction | exact IH].
  - intros w t rest _ IH _.
    eapply timersMatchSchedule_sameSetup; [apply sameSetup_fire | exact IH].
  - intros w es _ IH _.
    eapply timersMatchSchedule_sameSetup; [apply sameSetup_setTrace | exact IH].
  - intros w t _ IH _.
    eapply timersMatchSchedule_sameSetup; [apply sameSetup_setNow | exact IH].
Qed.

Lemma live_timers_match_schedule_witness :
  timersMatchSchedule (fireN 2 (exec onRoute (exec (update (JObj mixedBody)) (quiet 0)))).
Proof.
  apply live_timers_match_schedule.
  apply reachable_fireN, reach_on.
  exact (reach_update (quiet 0) (JObj mixedBody) (reachable_quiet 0)).
Defined.

(** ** Every actuation gets one verification window *)

Lemma pendingWindows_app a b :
  pendingWindows (a ++ b) = (pendingWindows a + pendingWindows b)%nat.
Proof. unfold pendingWindows. rewrite filter_app, length_app. reflexivity. Qed.

Lemma pendingWindows_cons t l :
  pendingWindows (t :: l) =
  ((if isWindowCallback (cb t) then 1 else 0) + pendingWindows l)%nat.
Proof. unfold pendingWindows. simpl. destruct (isWindowCallback (cb t)); reflexivity. Qed.

Lemma countIf_logEvents_pump ev w :
  countIf isPumpWrite (logEvents ev w) = 0%nat /\
  countIf isFlowRate (logEvents ev w) = 0%nat.
Proof. rewrite logEvents_cases. destruct (configured w); split; reflexivity. Qed.

Lemma countIf_alertEvents_pump w :
  countIf isPumpWrite (alertEvents w) = 0%nat /\
  countIf isFlowRate (alertEvents w) = 0%nat.
Proof.
  unfold alertEvents.
  destruct (truthy (assoc "TWILIO_ACCT_SID" (config w)) &&
            truthy (assoc "TWILIO_AUTH_TOKEN" (config w))); split; reflexivity.
Qed.

Lemma countIf_deadlineEvents_pump p w :
  countIf isPumpWrite (deadlineEvents p w) = 0%nat /\
  countIf isFlowRate (deadlineEvents p w) = 1%nat.
Proof.
  unfold deadlineEvents. cbv zeta.
  change ((now w, FlowRate (flowSensor w (now w))) :: ?l)
    with ([(now w, FlowRate (flowSensor w (now w)))] ++ l).
  rewrite !countIf_app.
  destruct (p (flowSensor w (now w))).
  - destruct (countIf_alertEvents_pump w) as [-> ->]. split; reflexivity.
  - split; reflexivity.
Qed.

Lemma actionEvents_pump a w :
  countIf isPumpWrite (actionEvents a w) = 1%nat /\
  countIf isFlowRate (actionEvents a w) = 0%nat /\
  pendingWindows (actionArms a w) = 1%nat /\ Forall oneShot (actionArms a w).
Proof.
  destruct a; unfold actionEvents, actionArms; rewrite !countIf_app;
    match goal with |- context [logEvents ?ev w] =>
      destruct (countIf_logEvents_pump ev w) as [-> ->] end;
    repeat split; try reflexivity; repeat constructor.
Qed.

Lemma callbackEvents_pump f w :
  countIf isPumpWrite (callbackEvents f w) = 0%nat /\
  (countIf isFlowRate (callbackEvents f w) + pendingWindows (callbackArms f w) =
   if isWindowCallback f then 1 else 0)%nat /\
  Forall oneShot (callbackArms f w).
Proof.
  destruct f; unfold callbackEvents, callbackArms.
  - repeat split; try reflexivity; repeat constructor.
  - repeat split; try reflexivity; repeat constructor.
  - destruct (countIf_deadlineEvents_pump (fun r => Js.lt r (ofZ 1)) w) as [-> ->].
    repeat split; constructor.
  - destruct (countIf_deadlineEvents_pump (fun r => Js.ge r (Fin (1 # 2))) w) as [-> ->].
    repeat split; constructor.
  - change ((now w, MoistureValue (moistureSensor w (now w))) :: ?l)
      with ([(now w, MoistureValue (moistureSensor w (now w)))] ++ l).
    rewrite !countIf_app.
    destruct (countIf_logEvents_pump (tickMessage (moistureSensor w (now w))) w) as [-> ->].
    repeat split; constructor.
Qed.

Lemma reachable_windows (w : World) :
  reachable w ->
  countIf isPumpWrite (trace w) =
    (pendingWindows (timeouts w) + countIf isFlowRate (trace w))%nat /\
  Forall oneShot (timeouts w).
Proof.
  intros Hr. pattern w. revert w Hr. apply reachable_steps.
  - intros. split; [reflexivity|]. repeat constructor. intros H. discriminate H.
  - intros w body _ [IH1 IH2].
    destruct (exec_updateSchedule body w) as (-> & -> & _).
    rewrite !countIf_app, !countIf_updateEvents by reflexivity.
    split; [lia | exact IH2].
  - intros w a _ [IH1 IH2].
    destruct (exec_runAction a w) as (-> & -> & _).
    destruct (actionEvents_pump a w) as (Hp & Hf & Hw & Ho).
    rewrite !countIf_app, pendingWindows_app, Hp, Hf, Hw.
    split; [lia | apply Forall_app; auto].
  - intros w t rest _ [IH1 IH2] Hpick.
    destruct (exec_runCallback (cb t) (dequeued t rest w)) as (-> & -> & _).
    destruct (callbackEvents_pump (cb t) (dequeued t rest w)) as (Hp & Hf & Ho).
    apply pickNext_split in Hpick as (l1 & l2 & Hl & ->).
    rewrite Hl in IH1, IH2. rewrite pendingWindows_app in IH1.
    apply Forall_app in IH2 as [Ho1 Ho2]. inversion Ho2 as [|? ? Hot Ho2']; subst.
    rewrite !countIf_app, pendingWindows_app, Hp.
    change (trace (dequeued t (l1 ++ l2) w)) with (trace w).
    assert (Hq : pendingWindows (timeouts (dequeued t (l1 ++ l2) w)) =
                 pendingWindows (l1 ++ l2) /\
                 Forall oneShot (timeouts (dequeued t (l1 ++ l2) w))).
    { unfold dequeued. fields. destruct (isWindowCallback (cb t)) eqn:Ew.
      - rewrite (Hot Ew). split; [reflexivity | apply Forall_app; auto].
      - destruct (every t) as [p|].
        + rewrite pendingWindows_app. unfold pendingWindows at 2. simpl. rewrite Ew.
          simpl. split; [lia|].
          apply Forall_app. split; [apply Forall_app; auto|].
          repeat constructor. unfold oneShot. simpl. rewrite Ew. discriminate.
        + split; [reflexivity | apply Forall_app; auto]. }
    destruct Hq as [-> Hq]. rewrite pendingWindows_app.
    split; [|apply Forall_app; auto].
    rewrite pendingWindows_cons in IH1.
    destruct (isWindowCallback (cb t)); lia.
  - intros w es _ [IH1 IH2] Hes. fields.
    rewrite !countIf_app.
    rewrite (countIf_answers isPumpWrite w es), (countIf_answers isFlowRate w es);
      [|not_an_answer|exact Hes|not_an_answer|exact Hes].
    split; [lia | exact IH2].
  - intros w t _ IH _. exact IH.
Qed.

(** No verification window is lost or doubled: in every reachable state the
    number of pump commands issued equals the number of windows still
    pending in Node's timer queue plus the number of flow readings taken.
    Each call of [turnOn]/[turnOff], scheduled or manual, repeated or not,
    leads to exactly one reading; window timers never repeat. *)
Theorem every_actuation_is_verified_once (w : World) :
  reachable w ->
  countIf isPumpWrite (trace w) =
    (pendingWindows (timeouts w) + countIf isFlowRate (trace w))%nat /\
  Forall oneShot (timeouts w).
Proof. apply reachable_windows. Qed.

Lemma every_actuation_is_verified_once_witness :
  countIf isPumpWrite (trace (fireN 1 (exec offRoute windowStart))) = 2%nat /\
  pendingWindows (timeouts (fireN 1 (exec offRoute windowStart))) = 2%nat /\
  countIf isFlowRate (trace (fireN 4 (exec offRoute windowStart))) = 2%nat /\
  pendingWindows (timeouts (fireN 4 (exec offRoute windowStart))) = 0%nat.
Proof.
  assert (R : forall n, reachable (fireN n (exec offRoute windowStart))).
  { intros n. apply reachable_fireN, reach_off, reach_on, reachable_quiet. }
  pose proof (every_actuation_is_verified_once _ (R 1%nat)) as [H1 _].
  pose proof (every_actuation_is_verified_once _ (R 4%nat)) as [H4 _].
  assert (E1 : pendingWindows (timeouts (fireN 1 (exec offRoute windowStart))) = 2%nat)
    by (vm_compute; reflexivity).
  assert (E4 : pendingWindows (timeouts (fireN 4 (exec offRoute windowStart))) = 0%nat)
    by (vm_compute; reflexivity).
  assert (F1 : countIf isFlowRate (trace (fireN 1 (exec offRoute windowStart))) = 0%nat)
    by (vm_compute; reflexivity).
  assert (P4 : countIf isPumpWrite (trace (fireN 4 (exec offRoute windowStart))) = 2%nat)
    by (vm_compute; reflexivity).
  rewrite E1, F1 in H1. rewrite E4, P4 in H4.
  rewrite Nat.add_0_l in H4. rewrite Nat.add_0_r in H1.
  split; [exact H1|]. split; [exact E1|]. split; [symmetry; exact H4 | exact E4].
Defined.

(** ** Alerts only follow failing readings *)

Lemma alertsJustified_app prev a b :
  alertsJustified prev (a ++ b) =
  alertsJustified prev a && alertsJustified (lastEntry prev a) b.
Proof.
  revert prev. induction a as [|e rest IH]; intros prev; simpl; [reflexivity|].
  rewrite IH, andb_assoc. reflexivity.
Qed.

Lemma selfJustified_app a b : selfJustified a -> selfJustified b -> selfJustified (a ++ b).
Proof. intros Ha Hb prev. rewrite alertsJustified_app, Ha, Hb. reflexivity. Qed.

Lemma selfJustified_logEvents ev w :
  isAlert (ConsoleLog ev) = false -> selfJustified (logEvents ev w).
Proof.
  intros Hev prev. rewrite logEvents_cases.
  destruct (configured w); simpl; unfold justifiedBy; simpl snd; rewrite Hev; reflexivity.
Qed.

Lemma selfJustified_clearEvents ids w : selfJustified (clearEvents ids w).
Proof.
  induction ids as [|id rest IH]; intros prev; simpl; [reflexivity|].
  apply IH.
Qed.

Lemma selfJustified_deadlineEvents p w :
  (forall r, p r = true -> failing r = true) -> selfJustified (deadlineEvents p w).
Proof.
  intros Hp prev. unfold deadlineEvents. cbv zeta.
  destruct (p (flowSensor w (now w))) eqn:E; [|reflexivity].
  assert (Ha : justifiedBy (Some (now w, FlowRate (flowSensor w (now w))))
                 (now w, ConsoleLog "Watering system alert") = true).
  { unfold justifiedBy. simpl. rewrite Z.eqb_refl, (Hp _ E). reflexivity. }
  unfold alertEvents.
  destruct (truthy (assoc "TWILIO_ACCT_SID" (config w)) &&
            truthy (assoc "TWILIO_AUTH_TOKEN" (config w)));
    cbn [alertsJustified]; rewrite Ha; reflexivity.
Qed.

Lemma selfJustified_actionEvents a w : selfJustified (actionEvents a w).
Proof.
  destruct a; unfold actionEvents;
    (apply selfJustified_app; [apply selfJustified_logEvents; reflexivity|]);
    intros prev; reflexivity.
Qed.

Lemma selfJustified_callbackEvents f w : selfJustified (callbackEvents f w).
Proof.
  destruct f; unfold callbackEvents.
  - intros prev; reflexivity.
  - intros prev; reflexivity.
  - apply selfJustified_deadlineEvents. intros r Hr. unfold failing. rewrite Hr. reflexivity.
  - apply selfJustified_deadlineEvents. intros r Hr. unfold failing. rewrite Hr.
    apply orb_true_r.
  - change (selfJustified ([(now w, MoistureValue (moistureSensor w (now w)))] ++
                           logEvents (tickMessage (moistureSensor w (now w))) w)).
    apply selfJustified_app; [intros prev; reflexivity|].
    apply selfJustified_logEvents. apply tickMessage_not_alert.
Qed.

Lemma selfJustified_updateEvents data w : selfJustified (updateEvents data w).
Proof.
  unfold updateEvents. apply selfJustified_app; [apply selfJustified_clearEvents|].
  destruct (triggerKeys "on" data), (triggerKeys "off" data); intros prev; reflexivity.
Qed.

Lemma readingsTrue_app fs a b :
  readingsTrue fs a -> readingsTrue fs b -> readingsTrue fs (a ++ b).
Proof. intros Ha Hb. apply Forall_app. split; assumption. Qed.

Lemma readingsTrue_none fs es :
  (forall te, In te es -> isFlowRate (snd te) = false) -> readingsTrue fs es.
Proof.
  intros H. apply Forall_forall. intros te Hin. specialize (H te Hin).
  destruct (snd te); try exact I. discriminate.
Qed.

Lemma logEvents_noReading ev w te : In te (logEvents ev w) -> isFlowRate (snd te) = false.
Proof.
  rewrite logEvents_cases. destruct (configured w); simpl; intuition (subst; reflexivity).
Qed.

Lemma alertEvents_noReading w te : In te (alertEvents w) -> isFlowRate (snd te) = false.
Proof.
  unfold alertEvents.
  destruct (truthy (assoc "TWILIO_ACCT_SID" (config w)) &&
            truthy (assoc "TWILIO_AUTH_TOKEN" (config w)));
    simpl; intuition (subst; reflexivity).
Qed.

Lemma readingsTrue_deadlineEvents p w :
  readingsTrue (flowSensor w) (deadlineEvents p w).
Proof.
  unfold deadlineEvents. cbv zeta. constructor; [reflexivity|].
  destruct (p (flowSensor w (now w))); [|constructor].
  apply readingsTrue_none. apply alertEvents_noReading.
Qed.

Lemma readingsTrue_actionEvents a w : readingsTrue (flowSensor w) (actionEvents a w).
Proof.
  destruct a; unfold actionEvents;
    (apply readingsTrue_app; [apply readingsTrue_none; apply logEvents_noReading|]);
    repeat constructor.
Qed.

Lemma readingsTrue_callbackEvents f w : readingsTrue (flowSensor w) (callbackEvents f w).
Proof.
  destruct f; unfold callbackEvents; try apply readingsTrue_deadlineEvents;
    try (repeat constructor; fail).
  constructor; [exact I|]. apply readingsTrue_none. apply logEvents_noReading.
Qed.

Lemma readingsTrue_updateEvents data w : readingsTrue (flowSensor w) (updateEvents data w).
Proof.
  apply readingsTrue_none. intros te Hin. unfold updateEvents in Hin.
  apply in_app_or in Hin as [Hin|Hin].
  - apply in_map_iff in Hin as (id & <- & _). reflexivity.
  - destruct (triggerKeys "on" data), (triggerKeys "off" data); simpl in Hin;
      intuition (subst; reflexivity).
Qed.

Lemma answer_not_alert e : isAnswerEvent e = true -> isAlert e = false.
Proof.
  destruct e; try reflexivity; try discriminate.
  simpl. intros H. apply String.eqb_eq in H. subst. reflexivity.
Qed.

Lemma selfJustified_answers w es : answerEntries w es -> selfJustified es.
Proof.
  induction 1 as [|te rest [_ He] _ IH]; intros prev; [reflexivity|].
  cbn [alertsJustified]. unfold justifiedBy. rewrite (answer_not_alert _ He). apply IH.
Qed.

Lemma readingsTrue_answers fs w es : answerEntries w es -> readingsTrue fs es.
Proof.
  intros H. apply readingsTrue_none. intros te Hin.
  unfold answerEntries in H. rewrite Forall_forall in H.
  destruct (H te Hin) as [_ He]. destruct (snd te); try reflexivity; discriminate.
Qed.

Lemma reachable_alertsJustified w :
  reachable w ->
  alertsJustified None (trace w) = true /\ readingsTrue (flowSensor w) (trace w).
Proof.
  intros Hr. pattern w. revert w Hr. apply reachable_steps.
  - intros. split; [reflexivity | repeat constructor].
  - intros w body _ [IH1 IH2].
    destruct (exec_updateSchedule body w) as (-> & _ & _ & _ & -> & _).
    rewrite alertsJustified_app, IH1, selfJustified_updateEvents.
    split; [reflexivity|].
    apply readingsTrue_app; [exact IH2 | apply readingsTrue_updateEvents].
  - intros w a _ [IH1 IH2].
    destruct (exec_runAction a w) as (-> & _).
    rewrite (ss_flow _ _ (sameSetup_runAction a w)).
    rewrite alertsJustified_app, IH1, selfJustified_actionEvents.
    split; [reflexivity|].
    apply readingsTrue_app; [exact IH2 | apply readingsTrue_actionEvents].
  - intros w t rest _ [IH1 IH2] _.
    destruct (exec_runCallback (cb t) (dequeued t rest w)) as (-> & _).
    rewrite (ss_flow _ _ (sameSetup_fire t rest w)).
    change (trace (dequeued t rest w)) with (trace w).
    rewrite alertsJustified_app, IH1, selfJustified_callbackEvents.
    split; [reflexivity|].
    apply readingsTrue_app; [exact IH2|].
    change (flowSensor w) with (flowSensor (dequeued t rest w)).
    apply readingsTrue_callbackEvents.
  - intros w es _ [IH1 IH2] Hes. fields.
    rewrite alertsJustified_app, IH1, (selfJustified_answers w es Hes).
    split; [reflexivity|].
    apply readingsTrue_app; [exact IH2 | apply (readingsTrue_answers _ w); exact Hes].
  - intros w t _ IH _. exact IH.
Qed.

Lemma lastEntry_snoc prev l e : lastEntry prev (l ++ [e]) = Some e.
Proof. unfold lastEntry. rewrite fold_left_app. reflexivity. Qed.

Lemma lastEntry_Some prev l e :
  lastEntry prev l = Some e -> prev = Some e /\ l = [] \/ exists l0, l = l0 ++ [e].
Proof.
  induction l as [|x l0 _] using rev_ind.
  - intros H. left. auto.
  - rewrite lastEntry_snoc. intros H. injection H as ->. right. exists l0. reflexivity.
Qed.

(** [alert()] is never entered out of the blue: in every reachable state,
    each alert line of the log directly follows a flow reading taken at the
    same instant, that reading is the sensor's, and it is below 1 or at
    least 0.5.  Neither the monitor nor a schedule replacement nor the
    actuation itself raises an alert. *)
Theorem alerts_follow_failing_readings (w : World) (l1 l2 : list (Z * event)) (t : Z) :
  reachable w ->
  trace w = l1 ++ (t, ConsoleLog "Watering system alert") :: l2 ->
  exists l0 r,
    l1 = l0 ++ [(t, FlowRate r)] /\ r = flowSensor w t /\
    (Js.lt r (ofZ 1) = true \/ Js.ge r (Fin (1 # 2)) = true).
Proof.
  intros Hr Ht. destruct (reachable_alertsJustified w Hr) as [Hj Hread].
  rewrite Ht in Hj, Hread. rewrite alertsJustified_app in Hj.
  apply andb_true_iff in Hj as [_ Hj]. simpl in Hj.
  apply andb_true_iff in Hj as [Hj _]. unfold justifiedBy in Hj. simpl in Hj.
  destruct (lastEntry None l1) as [[t' e]|] eqn:El; [|discriminate].
  destruct e; try discriminate.
  apply andb_true_iff in Hj as [Ht' Hf]. apply Z.eqb_eq in Ht'. subst t'.
  apply lastEntry_Some in El as [[Hn _]|(l0 & ->)]; [discriminate|].
  exists l0, r. split; [reflexivity|]. split.
  - apply Forall_app in Hread as [Hread _]. apply Forall_app in Hread as [_ Hread].
    inversion Hread as [|? ? Hr0 _]; subst. exact Hr0.
  - unfold failing in Hf. apply orb_true_iff in Hf. exact Hf.
Qed.

Lemma alerts_follow_failing_readings_witness :
  exists l0 r,
    [(0, PumpDirOut); (0, SetInterval MonitorTick 30000);
     (0, ConsoleLog "on"); (0, PumpWrite 1); (0, SetTimeout CheckFlowOn 10000);
     (10000, FlowClear); (10000, FlowStart); (10000, SetTimeout FlowOnDeadline 2000);
     (12000, FlowRate (Fin 0))] = l0 ++ [(12000, FlowRate r)] /\
    r = flowSensor (fireN 2 windowStart) 12000 /\
    (Js.lt r (ofZ 1) = true \/ Js.ge r (Fin (1 # 2)) = true).
Proof.
  apply (alerts_follow_failing_readings (fireN 2 windowStart) _ [] 12000).
  - apply reachable_fireN, reach_on, reachable_quiet.
  - vm_compute; reflexivity.
Defined.

(** ** Remote notifications over a run *)

Lemma countIf_cons p e l :
  countIf p (e :: l) = ((if p (snd e) then 1 else 0) + countIf p l)%nat.
Proof. unfold countIf. simpl. destruct (p (snd e)); reflexivity. Qed.

Lemma followsConfig_app w a b :
  followsConfig w a -> followsConfig w b -> followsConfig w (a ++ b).
Proof.
  intros (Ha1 & Ha2 & Ha3) (Hb1 & Hb2 & Hb3). unfold followsConfig.
  rewrite !countIf_app, Ha1, Ha2, Hb1, Hb2.
  split; [destruct (configured w); reflexivity|].
  split; [destruct (twilioConfigured w); reflexivity|].
  apply Forall_app. split; assumption.
Qed.

Lemma followsConfig_config w w' es :
  config w' = config w -> followsConfig w es -> followsConfig w' es.
Proof.
  intros Hc H. unfold followsConfig, configured, twilioConfigured in *.
  rewrite Hc. exact H.
Qed.

Lemma followsConfig_logEvents ev w :
  isLogLine (ConsoleLog ev) = true -> isAlert (ConsoleLog ev) = false ->
  followsConfig w (logEvents ev w).
Proof.
  intros Hline Hev. rewrite logEvents_cases. unfold followsConfig.
  destruct (configured w) eqn:Ec.
  - rewrite !countIf_cons. cbn [snd]. rewrite ?Hline, ?Hev.
    split; [reflexivity|]. split; [destruct (twilioConfigured w); reflexivity|].
    repeat constructor; simpl; unfold configured in Ec;
      apply andb_true_iff in Ec as [Hs Ht];
      [destruct (assoc "SERVER" (config w)) | destruct (assoc "AUTH_TOKEN" (config w))];
      try reflexivity; discriminate.
  - rewrite !countIf_cons. cbn [snd]. rewrite ?Hline, ?Hev.
    split; [reflexivity|]. split; [destruct (twilioConfigured w); reflexivity|].
    repeat constructor.
Qed.

Lemma followsConfig_alertEvents w : followsConfig w (alertEvents w).
Proof.
  unfold followsConfig, alertEvents. fold (twilioConfigured w).
  destruct (twilioConfigured w); unfold countIf; simpl;
    (split; [destruct (configured w); reflexivity|]); (split; [reflexivity|]);
    repeat constructor.
Qed.

Lemma followsConfig_plain w es :
  (forall te, In te es ->
     isLogLine (snd te) = false /\ isAlert (snd te) = false /\
     isRequestPut (snd te) = false /\ isSendMessage (snd te) = false) ->
  followsConfig w es.
Proof.
  intros H. unfold followsConfig.
  rewrite (countIf_none isRequestPut), (countIf_none isSendMessage),
    (countIf_none isLogLine), (countIf_none isAlert).
  - split; [destruct (configured w); reflexivity|].
    split; [destruct (twilioConfigured w); reflexivity|].
    apply Forall_forall. intros te Hin. destruct (H te Hin) as (_ & _ & Hr & Hs).
    destruct (snd te); try exact I; discriminate.
  - intros te Hin. apply H. exact Hin.
  - intros te Hin. apply H. exact Hin.
  - intros te Hin. apply H. exact Hin.
  - intros te Hin. apply H. exact Hin.
Qed.

Lemma followsConfig_answers w es : answerEntries w es -> followsConfig w es.
Proof.
  intros Hes. apply followsConfig_plain. intros te Hin.
  unfold answerEntries in Hes. rewrite Forall_forall in Hes.
  destruct (Hes te Hin) as [_ He]. pose proof (answer_not_alert _ He) as Ha.
  destruct (snd te); try discriminate; repeat split; try reflexivity; try exact Ha.
  simpl in He. apply String.eqb_eq in He. subst. reflexivity.
Qed.

Ltac plain_events :=
  apply followsConfig_plain; simpl; intros te Hin;
  intuition (subst; simpl; auto).

Lemma followsConfig_actionEvents a w : followsConfig w (actionEvents a w).
Proof.
  destruct a; unfold actionEvents;
    (apply followsConfig_app; [apply followsConfig_logEvents; reflexivity|]);
    plain_events.
Qed.

Lemma followsConfig_deadlineEvents p w : followsConfig w (deadlineEvents p w).
Proof.
  unfold deadlineEvents. cbv zeta.
  change ((now w, FlowRate (flowSensor w (now w))) :: ?l)
    with ([(now w, FlowRate (flowSensor w (now w)))] ++ l).
  apply followsConfig_app; [plain_events|].
  destruct (p (flowSensor w (now w))); [apply followsConfig_alertEvents | plain_events].
Qed.

Lemma followsConfig_callbackEvents f w : followsConfig w (callbackEvents f w).
Proof.
  destruct f; unfold callbackEvents; try apply followsConfig_deadlineEvents;
    try (plain_events; fail).
  change (followsConfig w ([(now w, MoistureValue (moistureSensor w (now w)))] ++
                           logEvents (tickMessage (moistureSensor w (now w))) w)).
  apply followsConfig_app; [plain_events|].
  apply followsConfig_logEvents; [apply tickMessage_logLine | reflexivity].
Qed.

Lemma followsConfig_updateEvents data w : followsConfig w (updateEvents data w).
Proof.
  apply followsConfig_plain. intros te Hin. unfold updateEvents in Hin.
  apply in_app_or in Hin as [Hin|Hin].
  - apply in_map_iff in Hin as (id & <- & _). auto.
  - destruct (triggerKeys "on" data), (triggerKeys "off" data); simpl in Hin;
      intuition (subst; simpl; auto).
Qed.

(** Over a whole run the remote calls follow the configuration: with both
    [SERVER] and [AUTH_TOKEN] set there is one PUT per line printed by [log]
    and otherwise none; with both Twilio credentials set there is one SMS per
    alert and otherwise none; every PUT carries the configured store and
    token, and every SMS the configured numbers and the fixed text. *)
Theorem remote_calls_follow_configuration (w : World) :
  reachable w ->
  countIf isRequestPut (trace w) =
    (if configured w then countIf isLogLine (trace w) else 0%nat) /\
  countIf isSendMessage (trace w) =
    (if twilioConfigured w then alertsRaised (trace w) else 0%nat) /\
  addressedAsConfigured (config w) (trace w).
Proof.
  intros Hr. change (followsConfig w (trace w)). pattern w. revert w Hr.
  apply reachable_steps.
  - intros. plain_events.
  - intros w body _ IH.
    destruct (exec_updateSchedule body w) as (-> & _ & _ & Hc & _).
    apply (followsConfig_config w); [exact Hc|].
    apply followsConfig_app; [exact IH | apply followsConfig_updateEvents].
  - intros w a _ IH.
    destruct (exec_runAction a w) as (-> & _).
    apply (followsConfig_config w); [apply (ss_config _ _ (sameSetup_runAction a w))|].
    apply followsConfig_app; [exact IH | apply followsConfig_actionEvents].
  - intros w t rest _ IH _.
    destruct (exec_runCallback (cb t) (dequeued t rest w)) as (-> & _).
    apply (followsConfig_config (dequeued t rest w));
      [apply (ss_config _ _ (sameSetup_runCallback (cb t) (dequeued t rest w)))|].
    apply followsConfig_app; [exact IH | apply followsConfig_callbackEvents].
  - intros w es _ IH Hes. apply (followsConfig_config w); [reflexivity|]. fields.
    apply followsConfig_app; [exact IH | apply followsConfig_answers; exact Hes].
  - intros w t _ IH _. exact IH.
Qed.

Lemma remote_calls_follow_configuration_witness :
  countIf isLogLine (trace answeredRun) = 2%nat /\
  countIf isRequestPut (trace answeredRun) = 2%nat /\
  countIf isConsoleLog (trace answeredRun) = 4%nat /\
  alertsRaised (trace answeredRun) = 1%nat /\
  countIf isSendMessage (trace answeredRun) = 1%nat /\
  countIf isRequestPut (trace (fireN 3 windowStart)) = 0%nat /\
  countIf isSendMessage (trace (fireN 3 windowStart)) = 0%nat.
Proof.
  assert (R0 : reachable fullyConfigured)
    by (apply reachable_fireN, reach_on, reach_main).
  assert (R1 : reachable answeredRun).
  { apply reach_sms_answered; [apply reach_put_answered; [exact R0|]|];
      vm_compute; lia. }
  assert (R2 : reachable (fireN 3 windowStart))
    by (apply reachable_fireN, reach_on, reachable_quiet).
  destruct (remote_calls_follow_configuration _ R1) as (Hp1 & Hs1 & _).
  destruct (remote_calls_follow_configuration _ R2) as (Hp2 & Hs2 & _).
  assert (L1 : countIf isLogLine (trace answeredRun) = 2%nat) by (vm_compute; reflexivity).
  assert (K1 : countIf isConsoleLog (trace answeredRun) = 4%nat)
    by (vm_compute; reflexivity).
  assert (A1 : alertsRaised (trace answeredRun) = 1%nat) by (vm_compute; reflexivity).
  assert (C1 : configured answeredRun = true) by (vm_compute; reflexivity).
  assert (T1 : twilioConfigured answeredRun = true) by (vm_compute; reflexivity).
  assert (C2 : configured (fireN 3 windowStart) = false) by (vm_compute; reflexivity).
  assert (T2 : twilioConfigured (fireN 3 windowStart) = false) by (vm_compute; reflexivity).
  rewrite C1, L1 in Hp1. rewrite T1, A1 in Hs1. rewrite C2 in Hp2. rewrite T2 in Hs2.
  repeat split; assumption.
Defined.

(** ** The sampling cadence *)

Lemma samplesOf_actionEvents a w : samplesOf (actionEvents a w) = [].
Proof.
  destruct a; unfold actionEvents; rewrite samplesOf_app, samplesOf_logEvents; reflexivity.
Qed.

Lemma samplesOf_updateEvents data w : samplesOf (updateEvents data w) = [].
Proof.
  unfold updateEvents. rewrite samplesOf_app, samplesOf_clearEvents.
  destruct (triggerKeys "on" data), (triggerKeys "off" data); reflexivity.
Qed.

Lemma samplesOf_callbackEvents f w :
  samplesOf (callbackEvents f w) =
  match f with
  | MonitorTick => [tickSample w]
  | _ => []
  end.
Proof.
  destruct f; unfold callbackEvents; try reflexivity;
    try apply samplesOf_deadlineEvents.
  change (samplesOf ([(now w, MoistureValue (moistureSensor w (now w)))] ++
                     logEvents (tickMessage (moistureSensor w (now w))) w) = [tickSample w]).
  rewrite samplesOf_app, samplesOf_logEvents. reflexivity.
Qed.

Lemma hd_error_app_some {A} (l r : list A) x : hd_error l = Some x -> hd_error (l ++ r) = Some x.
Proof. destruct l; simpl; [discriminate | auto]. Qed.

Lemma filter_monitor_arms f w :
  filter isMonitorTimer (callbackArms f w) = [] /\
  (forall a, filter isMonitorTimer (actionArms a w) = []).
Proof. split; [destruct f | intros []]; reflexivity. Qed.

Lemma lastTick_snoc t0 l s : lastTick t0 (l ++ [s]) = time s.
Proof. unfold lastTick. rewrite map_app. apply last_last. Qed.

Lemma last_cons_default {A} (a : A) l d : last (a :: l) d = last l a.
Proof.
  revert a d. induction l as [|x l IH]; intros a d; [reflexivity|].
  change (last (a :: x :: l) d) with (last (x :: l) d).
  rewrite !IH. reflexivity.
Qed.

Lemma lastTick_cons t0 s l : lastTick t0 (s :: l) = lastTick (time s) l.
Proof. unfold lastTick. cbn [map]. apply last_cons_default. Qed.

Lemma spaced_snoc prev l s :
  spaced prev (l ++ [s]) <-> spaced prev l /\ lastTick prev l + 30000 <= time s.
Proof.
  revert prev. induction l as [|x l IH]; intros prev.
  - unfold lastTick. simpl. tauto.
  - cbn [app spaced]. rewrite IH, lastTick_cons. tauto.
Qed.

Lemma spaced_nth prev l i s :
  spaced prev l -> nth_error l i = Some s ->
  prev + 30000 * (Z.of_nat i + 1) <= time s.
Proof.
  revert prev i. induction l as [|x l IH]; intros prev i Hsp Hi.
  - destruct i; discriminate.
  - destruct Hsp as [Hx Hrest]. destruct i as [|i].
    + injection Hi as <-. simpl. lia.
    + specialize (IH _ _ Hrest Hi). lia.
Qed.

Lemma spaced_adjacent prev l i s s' :
  spaced prev l -> nth_error l i = Some s -> nth_error l (S i) = Some s' ->
  time s + 30000 <= time s'.
Proof.
  revert prev i. induction l as [|x l IH]; intros prev i Hsp Hi Hi'.
  - destruct i; discriminate.
  - destruct Hsp as [Hx Hrest]. destruct i as [|i].
    + injection Hi as <-. destruct l as [|y l]; [discriminate|].
      injection Hi' as <-. apply Hrest.
    + exact (IH _ _ Hrest Hi Hi').
Qed.

Lemma cadence_quiet t0 w w' es ts :
  cadence t0 w ->
  trace w' = trace w ++ es -> samplesOf es = [] ->
  timeouts w' = timeouts w ++ ts -> filter isMonitorTimer ts = [] ->
  moistureSensor w' = moistureSensor w ->
  cadence t0 w'.
Proof.
  intros [Hs Ht Hsp Hv] Htr Hes Hq Hts Hm. constructor.
  - rewrite Htr. apply hd_error_app_some. exact Hs.
  - rewrite Hq, Htr, filter_app, Hts, samplesOf_app, Hes, !app_nil_r. exact Ht.
  - rewrite Htr, samplesOf_app, Hes, app_nil_r. exact Hsp.
  - rewrite Htr, samplesOf_app, Hes, app_nil_r, Hm. exact Hv.
Qed.

Lemma monitor_picked l1 t l2 m :
  filter isMonitorTimer (l1 ++ t :: l2) = [m] ->
  (isMonitorTimer t = true /\ t = m /\ filter isMonitorTimer (l1 ++ l2) = []) \/
  (isMonitorTimer t = false /\ filter isMonitorTimer (l1 ++ l2) = [m]).
Proof.
  rewrite !filter_app. simpl. destruct (isMonitorTimer t); intros H.
  - left. destruct (filter isMonitorTimer l1) as [|x l1'].
    + simpl in H. injection H as -> H. rewrite H. auto.
    + simpl in H. injection H as _ H. destruct l1'; discriminate.
  - right. auto.
Qed.

Lemma reachable_cadence w : reachable w -> exists t0, cadence t0 w.
Proof.
  intros Hr. pattern w. revert w Hr. apply reachable_steps.
  - intros cfg fs ms t0. exists t0. constructor.
    + reflexivity.
    + reflexivity.
    + exact I.
    + constructor.
  - intros w body _ (t0 & IH). exists t0.
    destruct (exec_updateSchedule body w) as (Htr & Hq & _ & _ & _ & Hm).
    apply (cadence_quiet t0 w _ (updateEvents body w) []); auto.
    + apply samplesOf_updateEvents.
    + rewrite app_nil_r. exact Hq.
  - intros w a _ (t0 & IH). exists t0.
    destruct (exec_runAction a w) as (Htr & Hq & _).
    apply (cadence_quiet t0 w _ (actionEvents a w) (actionArms a w)); auto.
    + apply samplesOf_actionEvents.
    + apply filter_monitor_arms. exact CheckFlowOn.
    + apply (ss_moist _ _ (sameSetup_runAction a w)).
  - intros w t rest Hr (t0 & [Hs Ht Hsp Hv]) Hpick. exists t0.
    apply pickNext_split in Hpick as (l1 & l2 & Hl & ->).
    set (w1 := dequeued t (l1 ++ l2) w) in *.
    destruct (exec_runCallback (cb t) w1) as (Htr & Hq & _).
    assert (Hm : moistureSensor (exec (runCallback (cb t)) w1) = moistureSensor w)
      by apply (ss_moist _ _ (sameSetup_fire t (l1 ++ l2) w)).
    rewrite Hl in Ht.
    destruct (monitor_picked l1 t l2 _ Ht) as [(Hmon & Et & Hrest)|(Hmon & Hrest)].
    + (* the monitor ticks *)
      assert (Hnow : now w1 = Z.max (now w) (due t)) by reflexivity.
      assert (Hdue : due t = lastTick t0 (samplesOf (trace w)) + 30000)
        by (rewrite Et; reflexivity).
      assert (Hcb : cb t = MonitorTick) by (rewrite Et; reflexivity).
      assert (Hq1 : filter isMonitorTimer (timeouts w1) =
                    [{| due := now w1 + 30000; cb := MonitorTick; every := Some 30000 |}]).
      { unfold w1, dequeued. fields.
        replace (every t) with (Some 30000) by (rewrite Et; reflexivity).
        rewrite filter_app, Hrest, Hcb. reflexivity. }
      rewrite Hcb in Htr, Hq, Hm |- *.
      assert (Hsam : samplesOf (trace (exec (runCallback MonitorTick) w1)) =
                     samplesOf (trace w) ++ [tickSample w1])
        by (rewrite Htr, samplesOf_app, samplesOf_callbackEvents; reflexivity).
      constructor.
      * rewrite Htr. apply hd_error_app_some. exact Hs.
      * rewrite Hq, filter_app, Hq1, Hsam, lastTick_snoc. reflexivity.
      * rewrite Hsam. apply spaced_snoc. split; [exact Hsp|].
        cbn [tickSample time]. lia.
      * rewrite Hsam, Hm. apply Forall_app. split; [exact Hv|].
        repeat constructor.
    + (* another timer fires *)
      assert (Hq1 : filter isMonitorTimer (timeouts w1) =
                    [{| due := lastTick t0 (samplesOf (trace w)) + 30000;
                        cb := MonitorTick; every := Some 30000 |}]).
      { unfold w1, dequeued. fields. destruct (every t) as [p|]; [|exact Hrest].
        rewrite filter_app, Hrest. simpl. unfold isMonitorTimer in *. simpl.
        destruct (cb t); try reflexivity. discriminate. }
      assert (Hev : samplesOf (callbackEvents (cb t) w1) = []).
      { rewrite samplesOf_callbackEvents. unfold isMonitorTimer in Hmon.
        destruct (cb t); try reflexivity. discriminate. }
      constructor.
      * rewrite Htr. apply hd_error_app_some. exact Hs.
      * rewrite Hq, Htr, filter_app, Hq1, samplesOf_app, Hev, app_nil_r.
        rewrite (proj1 (filter_monitor_arms (cb t) w1)). reflexivity.
      * rewrite Htr, samplesOf_app, Hev, app_nil_r. exact Hsp.
      * rewrite Htr, samplesOf_app, Hev, app_nil_r, Hm. exact Hv.
  - intros w es _ (t0 & IH) Hes. exists t0.
    apply (cadence_quiet t0 w _ es []); auto.
    + apply (samplesOf_answers w). exact Hes.
    + fields. rewrite app_nil_r. reflexivity.
  - intros w t _ (t0 & [Hs Ht Hsp Hv]) _. exists t0. constructor; assumption.
Qed.

(** The monitor is asked to tick every 30000 ms, whatever its comment says
    about 15 minutes.  In every reachable state of a program started at
    [t0]: consecutive readings are at least 30000 ms apart, reading number
    [i] (from 0) was taken no earlier than [t0 + 30000 * (i + 1)], every
    reading holds the sensor's value at its instant, and exactly one monitor
    timer is pending, due 30000 ms after the last reading (after start-up
    when there is none).  A timer that Node serves late moves all later
    readings with it. *)
Theorem monitor_ticks_30_seconds_apart (w : World) :
  reachable w ->
  exists t0,
    hd_error (trace w) = Some (t0, PumpDirOut) /\
    let taken := samplesOf (trace w) in
    (forall i s s',
       nth_error taken i = Some s -> nth_error taken (S i) = Some s' ->
       time s + 30000 <= time s') /\
    (forall i s, nth_error taken i = Some s ->
       t0 + 30000 * (Z.of_nat i + 1) <= time s /\
       value s = moistureSensor w (time s)) /\
    (forall j s, nth_error (MOISTURE w) j = Some s ->
       nth_error taken (List.length taken - 20 + j) = Some s) /\
    filter isMonitorTimer (timeouts w) =
      [{| due := lastTick t0 taken + 30000; cb := MonitorTick; every := Some 30000 |}].
Proof.
  intros Hr. destruct (reachable_cadence w Hr) as (t0 & [Hs Ht Hsp Hv]).
  destruct (reachable_invariant w Hr) as [_ Hh].
  exists t0. split; [exact Hs|]. cbv zeta.
  split; [intros i s s'; apply (spaced_adjacent t0); exact Hsp|].
  split; [|split; [|exact Ht]].
  - intros i s Hi. split; [apply (spaced_nth t0 _ _ _ Hsp Hi)|].
    rewrite Forall_forall in Hv. apply Hv. eapply nth_error_In. exact Hi.
  - intros j s Hj. rewrite Hh, nth_error_skipn in Hj. exact Hj.
Qed.

Lemma monitor_ticks_30_seconds_apart_witness :
  nth_error (samplesOf (trace lateTicks)) 1 = Some {| value := 60; time := 60500 |} /\
  nth_error (samplesOf (trace lateTicks)) 2 = Some {| value := 90; time := 90500 |} /\
  60500 + 30000 <= 90500 /\
  (0 + 30000 * (Z.of_nat 2 + 1) <= 90500 /\ 90 = moistureSensor lateTicks 90500) /\
  filter isMonitorTimer (timeouts lateTicks) =
    [{| due := 90500 + 30000; cb := MonitorTick; every := Some 30000 |}].
Proof.
  assert (R : reachable lateTicks).
  { apply reachable_fireN, reach_wait; [|vm_compute; discriminate].
    apply reachable_fireN, reach_main. }
  assert (E1 : nth_error (samplesOf (trace lateTicks)) 1 =
               Some {| value := 60; time := 60500 |}) by (vm_compute; reflexivity).
  assert (E2 : nth_error (samplesOf (trace lateTicks)) 2 =
               Some {| value := 90; time := 90500 |}) by (vm_compute; reflexivity).
  assert (H0 : hd_error (trace lateTicks) = Some (0, PumpDirOut))
    by (vm_compute; reflexivity).
  assert (L : lastTick 0 (samplesOf (trace lateTicks)) = 90500)
    by (vm_compute; reflexivity).
  destruct (monitor_ticks_30_seconds_apart lateTicks R)
    as (t0 & Hhd & Hadj & Hnth & _ & Htimer).
  rewrite H0 in Hhd. injection Hhd as <-. rewrite L in Htimer.
  split; [exact E1|]. split; [exact E2|].
  split; [exact (Hadj 1%nat _ _ E1 E2)|].
  split; [exact (Hnth 2%nat _ E2) | exact Htimer].
Defined.

(** ** The page served by GET / *)

Lemma noDollar_app a b : noDollar (a ++ b)%string = noDollar a && noDollar b.
Proof.
  induction a as [|c a IH]; simpl; [reflexivity|].
  rewrite IH, andb_assoc. reflexivity.
Qed.

Lemma noDollar_digitChar d : negb (Ascii.eqb (digitChar d) "$") = true.
Proof.
  unfold digitChar.
  destruct (Z.to_nat d) as [|[|[|[|[|[|[|[|[|n]]]]]]]]]; reflexivity.
Qed.

Lemma noDollar_digits k n : noDollar (digits k n) = true.
Proof.
  revert n. induction k as [|k IH]; intros n; simpl; [reflexivity|].
  rewrite noDollar_app, IH. cbn [noDollar]. rewrite noDollar_digitChar. reflexivity.
Qed.

Lemma noDollar_yearString y : noDollar (yearString y) = true.
Proof.
  unfold yearString.
  destruct ((0 <=? y) && (y <=? 9999)); [apply noDollar_digits|].
  destruct (y <? 0); cbn [noDollar]; rewrite noDollar_digits; reflexivity.
Qed.

Lemma noDollar_toISOString t : noDollar (toISOString t) = true.
Proof.
  unfold toISOString. destruct (civil (t / 86400000)) as [[y m] d].
  rewrite !noDollar_app, !noDollar_digits, noDollar_yearString. reflexivity.
Qed.

Lemma noDollar_uint d : noDollar (NilEmpty.string_of_uint d) = true.
Proof. induction d; simpl; auto. Qed.

Lemma noDollar_intString z : noDollar (intString z) = true.
Proof.
  unfold intString. destruct (Z.to_int z); simpl; apply noDollar_uint.
Qed.

Lemma noDollar_elem s : noDollar (elem s) = true.
Proof.
  unfold elem. cbn [String.concat].
  rewrite !noDollar_app, noDollar_toISOString, noDollar_intString. reflexivity.
Qed.

Lemma noDollar_rows m : noDollar (rows m) = true.
Proof.
  unfold rows. induction m as [|s rest IH]; [reflexivity|].
  simpl map. destruct rest as [|s' rest'].
  - simpl. apply noDollar_elem.
  - change (noDollar (elem s ++ newline ++ String.concat newline (map elem (s' :: rest')))%string
            = true).
    rewrite !noDollar_app, noDollar_elem, IH. reflexivity.
Qed.

Lemma substitute_noDollar matched before after repl :
  noDollar repl = true -> substitute matched before after repl = repl.
Proof.
  induction repl as [|c rest IH]; simpl; intros H; [reflexivity|].
  apply andb_true_iff in H as [Hc Hrest]. apply negb_true_iff in Hc.
  rewrite Hc, IH by exact Hrest. reflexivity.
Qed.

Lemma stripPrefix_sound p s r : stripPrefix p s = Some r -> s = (p ++ r)%string.
Proof.
  revert s. induction p as [|c p IH]; intros s H; simpl in H.
  - injection H as ->. reflexivity.
  - destruct s as [|d s]; [discriminate|].
    destruct (Ascii.eqb_spec c d) as [->|]; [|discriminate].
    simpl. f_equal. apply IH. exact H.
Qed.

Lemma stripPrefix_app p a : stripPrefix p (p ++ a)%string = Some a.
Proof.
  induction p as [|c p IH]; simpl; [reflexivity|].
  rewrite Ascii.eqb_refl. exact IH.
Qed.

Lemma findFirst_sound pat s b a :
  findFirst pat s = Some (b, a) -> s = (b ++ pat ++ a)%string.
Proof.
  revert b a. induction s as [|c s IH]; intros b a H; simpl in H.
  - destruct (stripPrefix pat "") as [r|] eqn:E; [|discriminate].
    injection H as <- <-. apply stripPrefix_sound in E. exact E.
  - destruct (stripPrefix pat (String c s)) as [r|] eqn:E.
    + injection H as <- <-. apply stripPrefix_sound in E. exact E.
    + destruct (findFirst pat s) as [[b0 a0]|]; [|discriminate].
      injection H as <- <-. simpl. f_equal. apply IH. reflexivity.
Qed.

(** [findFirst] finds the leftmost occurrence, and finds one if there is any. *)
Lemma findFirst_leftmost pat b' a' :
  exists b a, findFirst pat (b' ++ pat ++ a')%string = Some (b, a) /\
              (String.length b <= String.length b')%nat.
Proof.
  induction b' as [|c b' IH].
  - simpl append. exists EmptyString, a'.
    destruct pat as [|p pat']; simpl.
    + destruct a'; split; auto.
    + rewrite Ascii.eqb_refl, stripPrefix_app. split; auto.
  - destruct IH as (b & a & Hf & Hlen).
    change (String c b' ++ pat ++ a')%string with (String c (b' ++ pat ++ a')%string).
    cbn [findFirst].
    destruct (stripPrefix pat (String c (b' ++ pat ++ a'))) as [r|].
    + exists EmptyString, r. split; [reflexivity | simpl; lia].
    + rewrite Hf. exists (String c b), a. split; [reflexivity | simpl; lia].
Qed.

Lemma findFirst_absent pat s :
  (forall b a, s <> (b ++ pat ++ a)%string) -> findFirst pat s = None.
Proof.
  intros H. destruct (findFirst pat s) as [[b a]|] eqn:E; [|reflexivity].
  exfalso. apply (H b a). apply findFirst_sound. exact E.
Qed.

(** GET / fills the page's placeholder with one table row per entry of
    [MOISTURE], oldest first, so with at most 20 rows in a reachable state.
    Only the leftmost placeholder is replaced; the rows are inserted as they
    are, because no row contains a dollar sign; a page without the
    placeholder is sent unchanged; on a read error nothing is sent.  The
    state is not changed. *)
Theorem index_page_lists_moisture_rows (page : string) (w : World) :
  reachable w ->
  (forall b a, findFirst placeholder page = Some (b, a) ->
     page = (b ++ placeholder ++ a)%string /\
     (forall b' a', page = (b' ++ placeholder ++ a')%string ->
        (String.length b <= String.length b')%nat) /\
     serve None page w = (Ok (Sent (b ++ rows (MOISTURE w) ++ a)%string), w)) /\
  ((forall b a, page <> (b ++ placeholder ++ a)%string) ->
     serve None page w = (Ok (Sent page), w)) /\
  (forall e, serve (Some e) page w = (Ok (ErrorPrinted e), w)) /\
  rows (MOISTURE w) = String.concat newline (map elem (MOISTURE w)) /\
  (List.length (map elem (MOISTURE w)) <= 20)%nat.
Proof.
  intros Hr. split; [|split; [|split; [|split]]].
  - intros b a Hf. split; [apply findFirst_sound; exact Hf|]. split.
    + intros b' a' Hp. destruct (findFirst_leftmost placeholder b' a') as (b0 & a0 & Hf0 & Hlen).
      rewrite <- Hp, Hf in Hf0. injection Hf0 as <- <-. exact Hlen.
    + unfold serve. rewrite bind_run. unfold gets, ret, replace. rewrite Hf.
      rewrite substitute_noDollar by apply noDollar_rows. reflexivity.
  - intros Habs. unfold serve. rewrite bind_run. unfold gets, ret, replace.
    rewrite (findFirst_absent _ _ Habs). reflexivity.
  - intros e. reflexivity.
  - reflexivity.
  - rewrite length_map. destruct (reachable_invariant w Hr) as [_ Hh].
    rewrite Hh, length_skipn. lia.
Qed.

Lemma index_page_lists_moisture_rows_witness :
  serve None samplePage (fireN 2 (quiet 1446428012345)) =
    (Ok (Sent ("<table>" ++
               rows [{| value := 300; time := 1446428042345 |};
                     {| value := 300; time := 1446428072345 |}] ++
               "</table><!-- $MOISTUREDATA$ -->")%string),
     fireN 2 (quiet 1446428012345)) /\
  elem {| value := 300; time := 1446428042345 |} =
    String.concat newline
      ["<tr>"; "<td>"; "2015-11-02T01:34:02.345Z"; "</td>"; "<td>"; "300"; "</td>"; "</tr>"] /\
  serve None "<p>no table</p>" (fireN 2 (quiet 1446428012345)) =
    (Ok (Sent "<p>no table</p>"), fireN 2 (quiet 1446428012345)).
Proof.
  assert (R : reachable (fireN 2 (quiet 1446428012345)))
    by (apply reachable_fireN, reachable_quiet).
  assert (M : MOISTURE (fireN 2 (quiet 1446428012345)) =
              [{| value := 300; time := 1446428042345 |};
               {| value := 300; time := 1446428072345 |}]) by (vm_compute; reflexivity).
  destruct (index_page_lists_moisture_rows samplePage _ R) as (Hrep & _).
  destruct (index_page_lists_moisture_rows "<p>no table</p>" _ R) as (_ & Habs & _).
  assert (F : findFirst placeholder samplePage =
              Some ("<table>", "</table><!-- $MOISTUREDATA$ -->"))
    by (vm_compute; reflexivity).
  destruct (Hrep _ _ F) as (_ & _ & Hsent). rewrite M in Hsent.
  split; [exact Hsent|]. split; [vm_compute; reflexivity|].
  apply Habs. intros b a Hp.
  assert (Hn : findFirst placeholder "<p>no table</p>" = None) by (vm_compute; reflexivity).
  destruct (findFirst_leftmost placeholder b a) as (b0 & a0 & Hf0 & _).
  rewrite <- Hp, Hn in Hf0. discriminate.
Defined.

(** ** Cleared timers stay cleared *)

Lemma evolves_reachable w0 w : reachable w0 -> evolves w0 w -> reachable w.
Proof.
  intros H0 He. induction He.
  - exact H0.
  - apply reach_update. assumption.
  - apply reach_on. assumption.
  - apply reach_off. assumption.
  - eapply reach_timeout; eassumption.
  - apply reach_later. assumption.
  - apply reach_put_answered; assumption.
  - apply reach_sms_answered; assumption.
  - apply reach_wait; assumption.
Qed.

Lemma evolves_fireN w0 n w : evolves w0 w -> evolves w0 (fireN n w).
Proof.
  revert w. induction n as [|k IH]; intros w H; simpl; [exact H|].
  destruct (fireNext w) as [w'|] eqn:E; [|exact H].
  apply IH. eapply ev_timeout; eassumption.
Qed.

Lemma isCleared_sameSetup id w w' : sameSetup w w' -> isCleared id w -> isCleared id w'.
Proof. intros [_ _ _ _ _ Hl] H. unfold isCleared. rewrite Hl. exact H. Qed.

Lemma isCleared_updateSchedule id data w :
  isCleared id w -> isCleared id (exec (updateSchedule data) w).
Proof.
  intros (t & Hnth & Hc).
  assert (Hcl : nth_error (clearAll (intervals w) (laterTimers w)) id <> None).
  { rewrite nth_error_clearAll, Hnth.
    destruct (existsb (Nat.eqb id) (intervals w)); discriminate. }
  destruct (nth_error (clearAll (intervals w) (laterTimers w)) id) as [t'|] eqn:E;
    [|congruence].
  pose proof E as E'. apply clearAll_spec in E' as (t0 & Hn0 & _ & _ & Hc').
  rewrite Hnth in Hn0. injection Hn0 as <-. rewrite Hc in Hc'. simpl in Hc'.
  exists t'. split; [|exact Hc'].
  unfold exec. destruct (updateSchedule_cases data w) as [(a & b & _ & _ & ->)|[_ ->]].
  - change (nth_error (clearAll (intervals w) (laterTimers w) ++ [onTimer a; offTimer b]) id
            = Some t').
    rewrite nth_error_app1; [exact E|]. apply nth_error_Some. congruence.
  - exact E.
Qed.

Lemma isCleared_evolves id w0 w : evolves w0 w -> isCleared id w0 -> isCleared id w.
Proof.
  intros He H0. induction He as [| w body _ IH | w _ IH | w _ IH
                                 | w w' _ IH Hf | w i _ IH | w err res _ IH _
                                 | w err response _ IH _ | w t _ IH _].
  - exact H0.
  - rewrite exec_update. apply isCleared_updateSchedule. exact IH.
  - rewrite exec_onRoute_turnOn.
    eapply isCleared_sameSetup; [apply (sameSetup_runAction TurnOn) | exact IH].
  - rewrite exec_offRoute_turnOff.
    eapply isCleared_sameSetup; [apply (sameSetup_runAction TurnOff) | exact IH].
  - apply fireNext_inv in Hf as (t & rest & _ & ->).
    eapply isCleared_sameSetup; [apply sameSetup_fire | exact IH].
  - destruct (exec_fireLater i w) as [-> | (a & ->)]; [exact IH|].
    eapply isCleared_sameSetup; [apply sameSetup_runAction | exact IH].
  - unfold exec. rewrite putAnswered_run.
    eapply isCleared_sameSetup; [apply sameSetup_setTrace | exact IH].
  - unfold exec. rewrite smsAnswered_run.
    eapply isCleared_sameSetup; [apply sameSetup_setTrace | exact IH].
  - eapply isCleared_sameSetup; [apply sameSetup_setNow | exact IH].
Qed.

(** A recurring timer that existed when the schedule was replaced never
    actuates again: whatever happens after the replacement -- further
    replacements included -- when that timer comes due, nothing is done. *)
Theorem replaced_timer_never_actuates
    (data : json) (w w' : World) (id : nat) (t : laterTimer) :
  reachable w -> nth_error (laterTimers w) id = Some t ->
  evolves (exec (updateSchedule data) w) w' ->
  fireLater id w' = (Ok tt, w').
Proof.
  intros Hr Hnth He. pose proof (reachable_invariant w Hr) as Hinv.
  assert (H0 : isCleared id (exec (updateSchedule data) w)).
  { destruct (updateSchedule_clears_old data w id t Hinv Hnth) as (t' & Hn' & Hc & _).
    exists t'. auto. }
  destruct (isCleared_evolves id _ _ He H0) as (t' & Hn' & Hc).
  unfold fireLater. rewrite bind_run. unfold gets. rewrite Hn', Hc. reflexivity.
Qed.

Lemma replaced_timer_never_actuates_witness :
  liveTimers (exec (update (JObj mixedBody)) (quiet 0)) =
    [onTimer ["5"; "7"]; offTimer ["11"]] /\
  fireLater 0
    (fireN 2 (exec onRoute (exec (update morning)
       (exec (updateSchedule initialSchedule) (exec (update (JObj mixedBody)) (quiet 0)))))) =
  (Ok tt,
   fireN 2 (exec onRoute (exec (update morning)
     (exec (updateSchedule initialSchedule) (exec (update (JObj mixedBody)) (quiet 0)))))).
Proof.
  split; [vm_compute; reflexivity|].
  apply (replaced_timer_never_actuates initialSchedule
           (exec (update (JObj mixedBody)) (quiet 0)) _ 0%nat (onTimer ["5"; "7"])).
  - exact (reach_update (quiet 0) (JObj mixedBody) (reachable_quiet 0)).
  - vm_compute; reflexivity.
  - apply evolves_fireN, ev_on, ev_update, ev_here.
Defined.

(** ** A replacement forgets what was installed before *)

Lemma exec_updateSchedule_result data w :
  invariant w ->
  SCHEDULE (exec (updateSchedule data) w) = data /\
  outcome (updateSchedule data) w =
    (if isOk (triggerKeys "on" data) then Ok tt else Throw TypeError) /\
  liveTimers (exec (updateSchedule data) w) =
    match triggerKeys "on" data, triggerKeys "off" data with
    | Ok hsOn, Ok hsOff => [onTimer hsOn; offTimer hsOff]
    | _, _ => []
    end.
Proof.
  intros Hinv. split; [apply updateSchedule_stores|].
  unfold outcome, exec.
  destruct (updateSchedule_cases data w) as [(a & b & Ha & Hb & ->)|[Hthrow ->]].
  - rewrite Ha, Hb. simpl. split; [reflexivity | apply liveTimers_replanned; exact Hinv].
  - rewrite Hthrow. simpl. split; [reflexivity|].
    rewrite liveTimers_torn by exact Hinv.
    destruct (triggerKeys "on" data); [discriminate | reflexivity].
Qed.

(** The schedule, the outcome and the live timers after a replacement depend
    on the new body alone: replacing by [B] after a replacement by [A] gives
    what replacing by [B] directly gives, also when [A] was rejected with a
    TypeError, and replacing twice by the same body changes nothing but
    which timer objects are live. *)
Theorem replacement_forgets_history (bodyA bodyB : json) (w : World) :
  reachable w ->
  let direct := exec (updateSchedule bodyB) w in
  let after := exec (updateSchedule bodyB) (exec (updateSchedule bodyA) w) in
  SCHEDULE after = SCHEDULE direct /\
  liveTimers after = liveTimers direct /\
  outcome (updateSchedule bodyB) (exec (updateSchedule bodyA) w) =
    outcome (updateSchedule bodyB) w.
Proof.
  intros Hr. cbv zeta.
  pose proof (reachable_invariant w Hr) as Hinv.
  pose proof (invariant_updateSchedule bodyA w Hinv) as HinvA.
  destruct (exec_updateSchedule_result bodyB w Hinv) as (-> & -> & ->).
  destruct (exec_updateSchedule_result bodyB _ HinvA) as (-> & -> & ->).
  repeat split; reflexivity.
Qed.

Lemma replacement_forgets_history_witness :
  liveTimers (exec (updateSchedule morning) (exec (updateSchedule nullHour) (active 0))) =
    liveTimers (exec (updateSchedule morning) (active 0)) /\
  liveTimers (exec (updateSchedule morning) (active 0)) = [onTimer ["6"]; offTimer ["8"]].
Proof.
  split; [|vm_compute; reflexivity].
  apply (replacement_forgets_history nullHour morning (active 0) (reachable_active 0)).
Defined.

(** ** Windows on time *)















(** ** Response callbacks *)

(** What the callback of [log] does with the answer of the data store.  On
    success it prints one line.  On an error it reads [res.text] first: with
    a response it prints the text (or [undefined] when the response has
    none), and without one -- the request never reached the store -- the
    read throws a TypeError and nothing is printed.  The callback of [alert]
    never throws.  Neither changes anything but the console. *)
Theorem log_callback_needs_a_response (err res response : jsvalue) (w : World) :
  (truthy err = false ->
   logCallback err res w =
     (Ok tt, setTrace (trace w ++ [(now w, ConsoleLog "Server notified")]) w)) /\
  (truthy err = true ->
   (res = None \/ res = Some JNull ->
    logCallback err res w = (Throw TypeError, w)) /\
   (forall props, res = Some (JObj props) ->
    logCallback err res w =
      (Ok tt,
       setTrace (trace w ++ [(now w, ConsoleError "err:" (assoc "text" props))]) w)) /\
   (isOk (getProp res "text") = true <-> res <> None /\ res <> Some JNull)) /\
  alertCallback err response w =
    (Ok tt,
     setTrace (trace w ++ [(now w, if truthy err then ConsoleError "err:" err
                                   else ConsoleLogArg "SMS sent" response)]) w).
Proof.
  split; [|split].
  - intros He. unfold logCallback. rewrite He. reflexivity.
  - intros He. unfold logCallback. rewrite He. split; [|split].
    + intros [-> | ->]; reflexivity.
    + intros props ->. reflexivity.
    + destruct res as [[| | | | |]|]; simpl;
        repeat match goal with
               | |- context [String.eqb ?a ?b] => destruct (String.eqb a b)
               | |- context [indexOfKey ?k ?n] => destruct (indexOfKey k n)
               end; simpl; split; try discriminate; try congruence;
        try (intros _; split; discriminate);
        try (intros [H1 H2]; congruence).
  - unfold alertCallback. destruct (truthy err); reflexivity.
Qed.

Lemma log_callback_needs_a_response_witness :
  logCallback None (Some (JObj [("text", JStr "stored")])) fullyConfigured =
    (Ok tt, setTrace (trace fullyConfigured ++ [(30000, ConsoleLog "Server notified")])
              fullyConfigured) /\
  logCallback (Some (JStr "ECONNREFUSED")) None fullyConfigured =
    (Throw TypeError, fullyConfigured) /\
  reachable (exec (putAnswered (Some (JStr "ECONNREFUSED")) None) fullyConfigured).
Proof.
  destruct (log_callback_needs_a_response None (Some (JObj [("text", JStr "stored")])) None
              fullyConfigured) as (Hok & _).
  destruct (log_callback_needs_a_response (Some (JStr "ECONNREFUSED")) None None
              fullyConfigured) as (_ & Herr & _).
  assert (N : now fullyConfigured = 30000) by (vm_compute; reflexivity).
  rewrite N in Hok.
  split; [exact (Hok eq_refl)|].
  split; [exact (proj1 (Herr eq_refl) (or_introl eq_refl))|].
  apply reach_put_answered.
  - apply reachable_fireN, reach_on, reach_main.
  - vm_compute. lia.
Defined.
